(** * Cashflow calculator: a shallow embedding of [calculator/services.py]

    The projection engine of the repository computes, for every employee of
    an uploaded table, a yearly salary projection weighted by mortality
    probabilities.  This file embeds [parse_date], [calculate_age],
    [get_probability] and the row loop and the projection loop of
    [process_cashflow] and proves properties of them.

    Python's [float] is IEEE 754 binary64.  It is modelled by the standard
    specification [spec_float] with [prec = 53] and [emax = 1024], so every
    product, sum and quotient below is rounded exactly as the interpreter
    rounds it.  Strings are sequences of ASCII characters.  The function
    [process_cashflow] below starts from the rows that [csv.reader] yields
    and ends with the projection rows and the two counts; the text layer
    around it, [csv.reader] on the text of the input file and [csv.writer]
    with [str], [repr] and [strftime] for the text of the output file, is
    embedded after it, and [process_cashflow_file] is the whole function
    on the decoded text of the file.  An exception is a value [Raise e]
    that every later step passes on. *)

From Stdlib Require Import ZArith List String Ascii Bool Lia.
From Stdlib Require Import QArith Qpower Lqa.
From Stdlib Require Import Floats.SpecFloat Floats.FloatClass.
From stdpp Require Import base option list gmap.

Local Open Scope string_scope.
Local Open Scope list_scope.
Local Open Scope Z_scope.

(** ** Exceptions and the error monad *)

Inductive exn : Type :=
| ValueError
| IndexError
| KeyError
| OverflowError.

Inductive result (A : Type) : Type :=
| Ok (a : A)
| Raise (e : exn).
Arguments Ok {A} a.
Arguments Raise {A} e.

Definition rbind {A B : Type} (r : result A) (k : A -> result B) : result B :=
  match r with
  | Ok a => k a
  | Raise e => Raise e
  end.

Notation "'let*' x ':=' r 'in' k" := (rbind r (fun x => k))
  (at level 10, x pattern, r at level 100, k at level 200).

Definition is_ok {A : Type} (r : result A) : bool :=
  match r with Ok _ => true | Raise _ => false end.

(** ** binary64 *)

Module F64.

Definition prec : Z := 53.
Definition emax : Z := 1024.

Definition add : spec_float -> spec_float -> spec_float := SFadd prec emax.
Definition mul : spec_float -> spec_float -> spec_float := SFmul prec emax.
Definition div : spec_float -> spec_float -> spec_float := SFdiv prec emax.

(** [float(z)] for a Python [int]: the nearest binary64 value. *)
Definition of_Z (z : Z) : spec_float := binary_normalize prec emax z 0 false.

(** The binary64 value nearest to the quotient [a / b] of two positive
    integers, with sign [s]: one division with a location, rounded once. *)
Definition of_ratio (s : bool) (a b : Z) : spec_float :=
  let '(q, e, l) := SFdiv_core_binary prec emax a 0 b 0 in
  binary_round_aux prec emax s q e l.

(** The binary64 value nearest to [m * 10^e] with sign [s] ([0 <= m]): the
    value of a decimal literal and of [float(str)]. *)
Definition of_decimal (s : bool) (m e : Z) : spec_float :=
  if m =? 0 then S754_zero s
  else if 0 <=? e then binary_normalize prec emax (if s then - (m * 10 ^ e) else m * 10 ^ e) 0 s
  else of_ratio s m (10 ^ (- e)).

(** [int(x)]: truncation towards zero. *)
Definition trunc (x : spec_float) : result Z :=
  match x with
  | S754_zero _ => Ok 0
  | S754_infinity _ => Raise OverflowError
  | S754_nan => Raise ValueError
  | S754_finite s m e =>
      let a := if 0 <=? e then Z.pos m * 2 ^ e else Z.pos m / 2 ^ (- e) in
      Ok (if s then - a else a)
  end.

(** Nearest integer to [a / b] ([0 <= a], [0 < b]), ties to even. *)
Definition div_half_even (a b : Z) : Z :=
  let q := a / b in
  let r := a mod b in
  match 2 * r ?= b with
  | Lt => q
  | Gt => q + 1
  | Eq => if Z.even q then q else q + 1
  end.

(** [round(x, ndigits)] for [0 <= ndigits]: the exact value of [x] is
    rounded to [ndigits] decimal places, ties to even, and the decimal
    result is converted back to the nearest binary64 value.  Infinities and
    NaN round to themselves. *)
Definition round (x : spec_float) (ndigits : Z) : spec_float :=
  match x with
  | S754_finite s m e =>
      let k := if 0 <=? e then Z.pos m * 2 ^ e * 10 ^ ndigits
               else div_half_even (Z.pos m * 10 ^ ndigits) (2 ^ (- e)) in
      if k =? 0 then S754_zero s else of_ratio s k (10 ^ ndigits)
  | _ => x
  end.


Definition leb : spec_float -> spec_float -> bool := SFleb.

(** The float [1.0]. *)
Definition one : spec_float := S754_finite false 4503599627370496 (-52).


(** A positive normal number: a valid float of class [PNormal]. *)
Definition positive_normal (x : spec_float) : bool :=
  valid_binary prec emax x &&
  match SFclassify prec x with PNormal => true | _ => false end.

(** The exact value of a finite float, as a rational number. *)
Definition to_Q (x : spec_float) : Q :=
  match x with
  | S754_finite s m e => (inject_Z (if s then Z.neg m else Z.pos m) * 2 ^ e)%Q
  | _ => 0%Q
  end.



(** [x ** n] for a finite [x] and a positive integer [n], correctly
    rounded: the binary64 value nearest to the exact power. *)
Definition pow (x : spec_float) (n : positive) : spec_float :=
  match x with
  | S754_finite s m e =>
      binary_normalize prec emax ((if s then Z.neg m else Z.pos m) ^ Z.pos n) (e * Z.pos n) false
  | _ => x
  end.

End F64.

(** ** Strings *)

Definition chars (s : string) : list ascii := list_ascii_of_string s.
Definition code (c : ascii) : Z := Z.of_N (N_of_ascii c).

(** Whitespace of [str.strip], [str.isspace] and the regular expression
    class [\s]. *)
Definition isspace (c : ascii) : bool :=
  let n := code c in
  ((9 <=? n) && (n <=? 13)) || ((28 <=? n) && (n <=? 32)).

(** Whitespace skipped around a numeral by [float] and [int]. *)
Definition isspace_num (c : ascii) : bool :=
  let n := code c in
  ((9 <=? n) && (n <=? 13)) || (n =? 32).

Definition isdigit (c : ascii) : bool :=
  let n := code c in (48 <=? n) && (n <=? 57).

Definition digit_value (c : ascii) : Z := code c - 48.

Definition digits_value (ds : list ascii) : Z :=
  fold_left (fun acc c => 10 * acc + digit_value c) ds 0.

Fixpoint skip (p : ascii -> bool) (l : list ascii) : list ascii :=
  match l with
  | c :: l' => if p c then skip p l' else l
  | [] => []
  end.

Definition strip_with (p : ascii -> bool) (l : list ascii) : list ascii :=
  rev (skip p (rev (skip p l))).

(** [s.strip()] *)
Definition strip (l : list ascii) : list ascii := strip_with isspace l.

Definition lower_char (c : ascii) : ascii :=
  let n := code c in
  if (65 <=? n) && (n <=? 90) then ascii_of_N (Z.to_N (n + 32)) else c.

(** [s.lower()] *)
Definition lower (l : list ascii) : list ascii := map lower_char l.

Definition ascii_eqb (a b : ascii) : bool := code a =? code b.

Fixpoint chars_eqb (a b : list ascii) : bool :=
  match a, b with
  | [], [] => true
  | x :: a', y :: b' => ascii_eqb x y && chars_eqb a' b'
  | _, _ => false
  end.

(** [not cell.strip()] *)
Definition blank (cell : string) : bool :=
  match strip (chars cell) with [] => true | _ => false end.

(** [s.replace(',', '')] *)
Definition remove_commas (l : list ascii) : list ascii :=
  List.filter (fun c => negb (ascii_eqb c ",")) l.

(** The longest prefix of digits and what follows it. *)
Fixpoint span_digits (l : list ascii) : list ascii * list ascii :=
  match l with
  | c :: l' =>
      if isdigit c then let '(ds, r) := span_digits l' in (c :: ds, r)
      else ([], l)
  | [] => ([], [])
  end.

(** An underscore in a numeral must stand between two digits; the
    underscores are then dropped. *)
Fixpoint drop_underscores (prev : option ascii) (l : list ascii) : option (list ascii) :=
  match l with
  | [] =>
      match prev with
      | Some p => if ascii_eqb p "_" then None else Some []
      | None => Some []
      end
  | c :: l' =>
      if ascii_eqb c "_" then
        match prev with
        | Some p => if isdigit p then drop_underscores (Some c) l' else None
        | None => None
        end
      else
        let after_us := match prev with Some p => ascii_eqb p "_" | None => false end in
        if after_us && negb (isdigit c) then None
        else option_map (cons c) (drop_underscores (Some c) l')
  end.

(** An optional sign: [true] for a minus. *)
Definition take_sign (l : list ascii) : bool * list ascii :=
  match l with
  | c :: l' =>
      if ascii_eqb c "-" then (true, l')
      else if ascii_eqb c "+" then (false, l')
      else (false, l)
  | [] => (false, [])
  end.

(** [int(s)] for a string, in base ten. *)
Definition py_int (s : string) : result Z :=
  match drop_underscores None (strip_with isspace_num (chars s)) with
  | None => Raise ValueError
  | Some l =>
      let '(neg, body) := take_sign l in
      match span_digits body with
      | (d :: ds, []) =>
          let v := digits_value (d :: ds) in
          Ok (if neg then - v else v)
      | _ => Raise ValueError
      end
  end.

(** The exponent part of a decimal numeral: empty, or [e] or [E], an
    optional sign and at least one digit, up to the end of the string. *)
Definition parse_exponent (l : list ascii) : option Z :=
  match l with
  | [] => Some 0
  | c :: l' =>
      if ascii_eqb (lower_char c) "e" then
        let '(neg, body) := take_sign l' in
        match span_digits body with
        | (d :: ds, []) =>
            let v := digits_value (d :: ds) in
            Some (if neg then - v else v)
        | _ => None
        end
      else None
  end.

(** [float(s)] for a string. *)
Definition py_float (s : string) : result spec_float :=
  match drop_underscores None (strip_with isspace_num (chars s)) with
  | None => Raise ValueError
  | Some l =>
      let '(neg, body) := take_sign l in
      let word := lower body in
      if chars_eqb word (chars "inf") || chars_eqb word (chars "infinity")
      then Ok (S754_infinity neg)
      else if chars_eqb word (chars "nan") then Ok S754_nan
      else
        let '(ip, r1) := span_digits body in
        let '(fp, r2) :=
          match r1 with
          | c :: r1' => if ascii_eqb c "." then span_digits r1' else ([], r1)
          | [] => ([], [])
          end in
        match ip ++ fp with
        | [] => Raise ValueError
        | ds =>
            match parse_exponent r2 with
            | Some e => Ok (F64.of_decimal neg (digits_value ds) (e - Z.of_nat (length fp)))
            | None => Raise ValueError
            end
        end
  end.

(** ** Calendar dates: [datetime] *)

Record datetime : Type := mk_datetime {
  year : Z; month : Z; day : Z;
  hour : Z; minute : Z; second : Z
}.

Definition is_leap (y : Z) : bool :=
  (y mod 4 =? 0) && (negb (y mod 100 =? 0) || (y mod 400 =? 0)).

Definition days_in_month (y m : Z) : Z :=
  if m =? 2 then (if is_leap y then 29 else 28)
  else if (m =? 4) || (m =? 6) || (m =? 9) || (m =? 11) then 30
  else 31.

Definition days_before_year (y : Z) : Z :=
  let p := y - 1 in p * 365 + p / 4 - p / 100 + p / 400.

Definition days_before_month (y m : Z) : Z :=
  fold_left (fun acc k => acc + days_in_month y k)
            (map Z.of_nat (seq 1 (Z.to_nat (m - 1)))) 0.

(** [d.toordinal()]: day 1 is 1 January of year 1. *)
Definition toordinal (d : datetime) : Z :=
  days_before_year (year d) + days_before_month (year d) (month d) + day d.

Definition seconds_of_day (d : datetime) : Z :=
  hour d * 3600 + minute d * 60 + second d.

(** The constructor [datetime(y, m, d, H, M, S)] with its range checks. *)
Definition datetime_new (y m d H M S : Z) : result datetime :=
  if (1 <=? y) && (y <=? 9999) && (1 <=? m) && (m <=? 12)
     && (1 <=? d) && (d <=? days_in_month y m)
     && (0 <=? H) && (H <=? 23) && (0 <=? M) && (M <=? 59)
     && (0 <=? S) && (S <=? 59)
  then Ok (mk_datetime y m d H M S)
  else Raise ValueError.

(** [(a - b).days]: a [timedelta] keeps [0 <= seconds < 86400], so its days
    are the floor of the difference. *)
Definition timedelta_days (a b : datetime) : Z :=
  (toordinal a - toordinal b) + (seconds_of_day a - seconds_of_day b) / 86400.

(** ** [datetime.strptime] *)

Inductive directive : Type := dir_Y | dir_m | dir_d | dir_H | dir_M | dir_S.

(** A format compiles to a sequence of directives, literal characters and
    runs of whitespace (which match one or more whitespace characters). *)
Inductive fmt_item : Type :=
| IDir (d : directive)
| ILit (c : ascii)
| ISpace.

(** One character position of a directive's regular expression. *)
Inductive char_class : Type :=
| CRange (lo hi : ascii)
| CChar (c : ascii).

Definition in_class (k : char_class) (c : ascii) : bool :=
  match k with
  | CRange lo hi => (code lo <=? code c) && (code c <=? code hi)
  | CChar x => ascii_eqb x c
  end.

Definition cdigit : char_class := CRange "0" "9".

(** The alternatives of each directive, in the order the regular expression
    tries them. *)
Definition alternatives (d : directive) : list (list char_class) :=
  match d with
  | dir_Y => [[cdigit; cdigit; cdigit; cdigit]]
  | dir_m => [[CChar "1"; CRange "0" "2"]; [CChar "0"; CRange "1" "9"]; [CRange "1" "9"]]
  | dir_d => [[CChar "3"; CRange "0" "1"]; [CRange "1" "2"; cdigit];
              [CChar "0"; CRange "1" "9"]; [CRange "1" "9"]; [CChar " "; CRange "1" "9"]]
  | dir_H => [[CChar "2"; CRange "0" "3"]; [CRange "0" "1"; cdigit]; [cdigit]]
  | dir_M => [[CRange "0" "5"; cdigit]; [cdigit]]
  | dir_S => [[CChar "6"; CRange "0" "1"]; [CRange "0" "5"; cdigit]; [cdigit]]
  end.

Definition directive_of (c : ascii) : option directive :=
  if ascii_eqb c "Y" then Some dir_Y
  else if ascii_eqb c "m" then Some dir_m
  else if ascii_eqb c "d" then Some dir_d
  else if ascii_eqb c "H" then Some dir_H
  else if ascii_eqb c "M" then Some dir_M
  else if ascii_eqb c "S" then Some dir_S
  else None.

Fixpoint compile_format (prev_space : bool) (f : list ascii) : option (list fmt_item) :=
  match f with
  | [] => Some []
  | c :: f' =>
      if ascii_eqb c "%" then
        match f' with
        | x :: f'' =>
            match directive_of x with
            | Some d => option_map (cons (IDir d)) (compile_format false f'')
            | None => None
            end
        | [] => None
        end
      else if isspace c then
        if prev_space then compile_format true f'
        else option_map (cons ISpace) (compile_format true f')
      else option_map (cons (ILit c)) (compile_format false f')
  end.

(** A sequence of character classes against the head of the input: the
    matched text and the rest. *)
Fixpoint match_classes (ks : list char_class) (s : list ascii)
  : option (list ascii * list ascii) :=
  match ks with
  | [] => Some ([], s)
  | k :: ks' =>
      match s with
      | c :: s' =>
          if in_class k c then
            match match_classes ks' s' with
            | Some (t, r) => Some (c :: t, r)
            | None => None
            end
          else None
      | [] => None
      end
  end.

Fixpoint first_some {A B : Type} (f : A -> option B) (l : list A) : option B :=
  match l with
  | [] => None
  | a :: l' => match f a with Some b => Some b | None => first_some f l' end
  end.

(** What may remain after one or more whitespace characters, the longest
    run first. *)
Fixpoint after_spaces (s : list ascii) : list (list ascii) :=
  match s with
  | c :: s' => if isspace c then after_spaces s' ++ [s'] else []
  | [] => []
  end.

(** The regular-expression match of the compiled format at the start of the
    input, with backtracking: the text of every directive and the
    unconsumed rest. *)
Fixpoint match_items (items : list fmt_item) (s : list ascii)
  : option (list (directive * list ascii) * list ascii) :=
  match items with
  | [] => Some ([], s)
  | ILit c :: items' =>
      match s with
      | x :: s' => if ascii_eqb c x then match_items items' s' else None
      | [] => None
      end
  | ISpace :: items' => first_some (match_items items') (after_spaces s)
  | IDir d :: items' =>
      first_some
        (fun ks =>
           match match_classes ks s with
           | Some (t, r) =>
               match match_items items' r with
               | Some (fs, rest) => Some ((d, t) :: fs, rest)
               | None => None
               end
           | None => None
           end)
        (alternatives d)
  end.

Definition directive_eqb (a b : directive) : bool :=
  match a, b with
  | dir_Y, dir_Y | dir_m, dir_m | dir_d, dir_d
  | dir_H, dir_H | dir_M, dir_M | dir_S, dir_S => true
  | _, _ => false
  end.

(** The integer value of a directive's text, or the default when the format
    lacks the directive.  The day's text may start with a space. *)
Definition field (d : directive) (default : Z) (fs : list (directive * list ascii)) : Z :=
  match find (fun p => directive_eqb (fst p) d) fs with
  | Some (_, t) => digits_value (skip isspace t)
  | None => default
  end.

(** [datetime.strptime(s, fmt)] *)
Definition strptime (s : list ascii) (fmt : string) : result datetime :=
  match compile_format false (chars fmt) with
  | None => Raise ValueError
  | Some items =>
      match match_items items s with
      | Some (fs, []) =>
          datetime_new (field dir_Y 1900 fs) (field dir_m 1 fs) (field dir_d 1 fs)
                       (field dir_H 0 fs) (field dir_M 0 fs) (field dir_S 0 fs)
      | _ => Raise ValueError
      end
  end.

(** ** [parse_date] *)

Definition formats : list string :=
  ["%Y-%m-%d"; "%Y-%m-%d %H:%M:%S"; "%d/%m/%Y"; "%m/%d/%Y"; "%d-%m-%Y"].

(** The loop of [parse_date]: the first format that parses wins; a
    [ValueError] moves on to the next format. *)
Fixpoint try_formats (fmts : list string) (s : list ascii) : result datetime :=
  match fmts with
  | [] => Raise ValueError
  | fmt :: fmts' =>
      match strptime s fmt with
      | Ok d => Ok d
      | Raise ValueError => try_formats fmts' s
      | Raise e => Raise e
      end
  end.

Definition parse_date (date_str : string) : result datetime :=
  try_formats formats (strip (chars date_str)).

(** ** [calculate_age] *)

Definition days_per_year : spec_float := F64.of_decimal false 36525 (-2).

Definition calculate_age (birth_date valuation_date : datetime) : result Z :=
  let days := timedelta_days valuation_date birth_date + 1 in
  F64.trunc (F64.div (F64.of_Z days) days_per_year).

(** ** The probability table *)

(** A literal with six decimal places, such as [0.001152]. *)
Definition micro (n : Z) : spec_float := F64.of_decimal false n (-6).

(** Default probability lookup table: age to [(qx, px)]. *)
Definition DEFAULT_PROBABILITY_TABLE : gmap Z (spec_float * spec_float) :=
  list_to_map [
    (20, (micro 1152, micro 998848)); (21, (micro 1152, micro 998848)); (22, (micro 1152, micro 998848));
    (23, (micro 1152, micro 998848)); (24, (micro 1152, micro 998848)); (25, (micro 1413, micro 998587));
    (26, (micro 1491, micro 998509)); (27, (micro 1491, micro 998509)); (28, (micro 1491, micro 998509));
    (29, (micro 1492, micro 998509)); (30, (micro 1492, micro 998509)); (31, (micro 1492, micro 998509));
    (32, (micro 1491, micro 998509)); (33, (micro 1492, micro 998509)); (34, (micro 1492, micro 998509));
    (35, (micro 2290, micro 997710)); (36, (micro 2290, micro 997710)); (37, (micro 2290, micro 997710));
    (38, (micro 2290, micro 997710)); (39, (micro 2290, micro 997710)); (40, (micro 3211, micro 996789));
    (41, (micro 3211, micro 996789)); (42, (micro 3211, micro 996789)); (43, (micro 3211, micro 996789));
    (44, (micro 3211, micro 996789)); (45, (micro 4627, micro 995374)); (46, (micro 4748, micro 995252));
    (47, (micro 4748, micro 995252)); (48, (micro 4748, micro 995252)); (49, (micro 4748, micro 995252));
    (50, (micro 7059, micro 992941)); (51, (micro 7059, micro 992941)); (52, (micro 7059, micro 992941));
    (53, (micro 7059, micro 992941)); (54, (micro 7059, micro 992941)); (55, (micro 10286, micro 989714));
    (56, (micro 10286, micro 989714)); (57, (micro 10286, micro 989714)); (58, (micro 10286, micro 989714));
    (59, (micro 10286, micro 989714)); (60, (micro 0, micro 1000000)); (61, (micro 0, micro 1000000));
    (62, (micro 0, micro 1000000)); (63, (micro 0, micro 1000000)); (64, (micro 0, micro 1000000));
    (65, (micro 0, micro 1000000)); (66, (micro 0, micro 1000000)); (67, (micro 0, micro 1000000));
    (68, (micro 0, micro 1000000)); (69, (micro 0, micro 1000000)); (70, (micro 0, micro 1000000));
    (71, (micro 0, micro 1000000)); (72, (micro 0, micro 1000000)); (73, (micro 0, micro 1000000))
  ].

(** [min(d.keys())] and [max(d.keys())]; both raise [ValueError] on an
    empty dictionary. *)
Definition min_key {V : Type} (t : gmap Z V) : result Z :=
  match map fst (map_to_list t) with
  | [] => Raise ValueError
  | k :: ks => Ok (foldr Z.min k ks)
  end.

Definition max_key {V : Type} (t : gmap Z V) : result Z :=
  match map fst (map_to_list t) with
  | [] => Raise ValueError
  | k :: ks => Ok (foldr Z.max k ks)
  end.

(** [d[k]] *)
Definition subscript {V : Type} (t : gmap Z V) (k : Z) : result V :=
  match t !! k with
  | Some v => Ok v
  | None => Raise KeyError
  end.

Definition get_probability (age : Z) (probability_table : gmap Z (spec_float * spec_float))
  : result (spec_float * spec_float) :=
  match probability_table !! age with
  | Some p => Ok p
  | None =>
      let* lo := min_key probability_table in
      if age <? lo then subscript probability_table lo
      else
        let* hi := max_key probability_table in
        subscript probability_table hi
  end.

(** ** [process_cashflow]: reading the rows *)

Record employee : Type := mk_employee {
  emp_id : string;
  emp_name : string;
  date_birth : datetime;
  date_joining : datetime;
  salary : spec_float
}.

(** The local variables of [process_cashflow] that the row loop updates. *)
Record parse_state : Type := mk_parse_state {
  valuation_date : datetime;
  discount_rate : spec_float;
  salary_increase_rate : spec_float;
  retirement_age : Z;
  employees : list employee;
  assumptions_found : bool
}.

Definition initial_state : parse_state :=
  {| valuation_date := mk_datetime 2024 12 31 0 0 0;
     discount_rate := F64.of_decimal false 545 (-4);
     salary_increase_rate := F64.of_decimal false 5 (-2);
     retirement_age := 60;
     employees := [];
     assumptions_found := false |}.

(** [row[i]] *)
Definition cell (row : list string) (i : nat) : result string :=
  match nth_error row i with
  | Some c => Ok c
  | None => Raise IndexError
  end.

(** [s.strip()] on a cell, as a string again. *)
Definition stripped (s : string) : string := string_of_list_ascii (strip (chars s)).

(** [s.strip().lower() == k] *)
Definition key_is (s : string) (k : string) : bool :=
  chars_eqb (lower (strip (chars s))) (chars k).

Definition is_assumption_key (s : string) : bool :=
  key_is s "valuation_date" || key_is s "discount_rate"
  || key_is s "salary_increase_rate" || key_is s "retirement_age".

Definition is_header_key (s : string) : bool :=
  key_is s "emp_id" || key_is s "employee_id" || key_is s "id".

(** [not row or all(not cell.strip() for cell in row)] *)
Definition blank_row (row : list string) : bool := forallb blank row.

(** The assumptions section of the loop body: [Some st'] when the row was
    consumed as an assumption (the [continue]), [None] when control falls
    through to the employee section.  A failed conversion raises. *)
Definition assumption_row (st : parse_state) (row : list string) : result (option parse_state) :=
  if (2 <=? length row)%nat then
    let* c0 := cell row 0 in
    if key_is c0 "valuation_date" then
      let* c1 := cell row 1 in
      let* d := parse_date c1 in
      Ok (Some {| valuation_date := d;
                  discount_rate := discount_rate st;
                  salary_increase_rate := salary_increase_rate st;
                  retirement_age := retirement_age st;
                  employees := employees st;
                  assumptions_found := true |})
    else if key_is c0 "discount_rate" then
      let* c1 := cell row 1 in
      let* x := py_float c1 in
      Ok (Some {| valuation_date := valuation_date st;
                  discount_rate := x;
                  salary_increase_rate := salary_increase_rate st;
                  retirement_age := retirement_age st;
                  employees := employees st;
                  assumptions_found := true |})
    else if key_is c0 "salary_increase_rate" then
      let* c1 := cell row 1 in
      let* x := py_float c1 in
      Ok (Some {| valuation_date := valuation_date st;
                  discount_rate := discount_rate st;
                  salary_increase_rate := x;
                  retirement_age := retirement_age st;
                  employees := employees st;
                  assumptions_found := true |})
    else if key_is c0 "retirement_age" then
      let* c1 := cell row 1 in
      let* n := py_int c1 in
      Ok (Some {| valuation_date := valuation_date st;
                  discount_rate := discount_rate st;
                  salary_increase_rate := salary_increase_rate st;
                  retirement_age := n;
                  employees := employees st;
                  assumptions_found := true |})
    else Ok None
  else Ok None.

(** The body of the [try] block. *)
Definition employee_row (row : list string) : result employee :=
  let* c0 := cell row 0 in
  let* c1 := cell row 1 in
  let* c2 := cell row 2 in
  let* birth := parse_date c2 in
  let* c3 := cell row 3 in
  let* joining := parse_date c3 in
  let* c4 := cell row 4 in
  let* sal := py_float (string_of_list_ascii (remove_commas (chars c4))) in
  Ok {| emp_id := stripped c0;
        emp_name := stripped c1;
        date_birth := birth;
        date_joining := joining;
        salary := sal |}.

Definition add_employee (st : parse_state) (e : employee) : parse_state :=
  {| valuation_date := valuation_date st;
     discount_rate := discount_rate st;
     salary_increase_rate := salary_increase_rate st;
     retirement_age := retirement_age st;
     employees := employees st ++ [e];
     assumptions_found := assumptions_found st |}.

(** One iteration of [for i, row in enumerate(rows)]. *)
Definition process_row (st : parse_state) (row : list string) : result parse_state :=
  if blank_row row then Ok st
  else
    let* a := assumption_row st row in
    match a with
    | Some st' => Ok st'
    | None =>
        if (5 <=? length row)%nat then
          let* first_cell := cell row 0 in
          if is_header_key first_cell then Ok st
          else
            match employee_row row with
            | Ok e => Ok (add_employee st e)
            | Raise ValueError | Raise IndexError => Ok st
            | Raise e => Raise e
            end
        else Ok st
    end.

Fixpoint process_rows (st : parse_state) (rows : list (list string)) : result parse_state :=
  match rows with
  | [] => Ok st
  | row :: rows' =>
      let* st' := process_row st row in
      process_rows st' rows'
  end.

(** ** [process_cashflow]: the projection *)

Record projection_row : Type := mk_projection_row {
  row_emp_id : string;
  row_emp_name : string;
  row_age : Z;
  row_future_salary : spec_float;
  row_survival_prob : spec_float;
  row_death_prob : spec_float;
  row_expected_death_outflow : spec_float
}.

(** [range(a, b)] *)
Definition py_range (a b : Z) : list Z :=
  map (fun i => a + Z.of_nat i) (seq 0 (Z.to_nat (b - a))).

(** [1 + salary_increase_rate] *)
Definition growth (rate : spec_float) : spec_float := F64.add (F64.of_Z 1) rate.

(** The inner loop [for age in range(current_age, retirement_age)], with the
    loop variable [future_salary] threaded through. *)
Fixpoint project_ages (probability_table : gmap Z (spec_float * spec_float))
    (rate : spec_float) (emp : employee) (ages : list Z) (future_salary : spec_float)
  : result (list projection_row) :=
  match ages with
  | [] => Ok []
  | age :: ages' =>
      let* qp := get_probability age probability_table in
      let '(qx, px) := qp in
      let expected_death_outflow := F64.mul (F64.mul future_salary px) qx in
      let out :=
        {| row_emp_id := emp_id emp;
           row_emp_name := emp_name emp;
           row_age := age;
           row_future_salary := F64.round future_salary 2;
           row_survival_prob := px;
           row_death_prob := qx;
           row_expected_death_outflow := F64.round expected_death_outflow 6 |} in
      let* rest := project_ages probability_table rate emp ages'
                     (F64.mul future_salary (growth rate)) in
      Ok (out :: rest)
  end.

(** The body of [for emp in employees]. *)
Definition project_employee (probability_table : gmap Z (spec_float * spec_float))
    (st : parse_state) (emp : employee) : result (list projection_row) :=
  let* current_age := calculate_age (date_birth emp) (valuation_date st) in
  let future_salary := F64.mul (salary emp) (growth (salary_increase_rate st)) in
  project_ages probability_table (salary_increase_rate st) emp
    (py_range current_age (retirement_age st)) future_salary.

Fixpoint project_all (probability_table : gmap Z (spec_float * spec_float))
    (st : parse_state) (emps : list employee) : result (list projection_row) :=
  match emps with
  | [] => Ok []
  | emp :: emps' =>
      let* rows := project_employee probability_table st emp in
      let* rest := project_all probability_table st emps' in
      Ok (rows ++ rest)
  end.

(** What a run computes from the rows that [csv.reader] yields: the final
    assumptions, the projection rows and the two counts. *)
Record run_result : Type := mk_run_result {
  final_state : parse_state;
  output_rows : list projection_row;
  input_row_count : nat;
  output_row_count : nat
}.

Definition process_cashflow (rows : list (list string)) : result run_result :=
  let probability_table := DEFAULT_PROBABILITY_TABLE in
  let* st := process_rows initial_state rows in
  let* out := project_all probability_table st (employees st) in
  Ok {| final_state := st;
        output_rows := out;
        input_row_count := length (employees st);
        output_row_count := length out |}.

(** The value of the loop variable [future_salary] at iteration [k] of the
    inner loop, for an employee's salary and the rate: it is never rounded
    for display. *)
Fixpoint future_salary_at (rate : spec_float) (fs : spec_float) (k : nat) : spec_float :=
  match k with
  | O => fs
  | S k' => future_salary_at rate (F64.mul fs (growth rate)) k'
  end.

Definition unrounded_future_salary (sal rate : spec_float) (k : nat) : spec_float :=
  future_salary_at rate (F64.mul sal (growth rate)) k.

(** ** Text input: [io.StringIO] and [csv.reader] *)

Definition LF : ascii := "010"%char.
Definition CR : ascii := "013"%char.
Definition COMMA : ascii := ","%char.
Definition DQUOTE : ascii := "034"%char.

(** The exceptions of the whole function: [csv.Error] beside the built-in
    ones of the row loop. *)
Inductive file_exn : Type :=
| CsvError
| Builtin (e : exn).

Inductive outcome (A : Type) : Type :=
| Returns (a : A)
| Raises (e : file_exn).
Arguments Returns {A} a.
Arguments Raises {A} e.

Definition obind {A B : Type} (r : outcome A) (k : A -> outcome B) : outcome B :=
  match r with
  | Returns a => k a
  | Raises e => Raises e
  end.

Definition lift {A : Type} (r : result A) : outcome A :=
  match r with
  | Ok a => Returns a
  | Raise e => Raises (Builtin e)
  end.

(** The lines that iterating over [io.StringIO(content)] yields: a line ends
    after each line feed, which it keeps; a carriage return ends no line. *)
Fixpoint readlines (s : list ascii) : list (list ascii) :=
  match s with
  | [] => []
  | c :: s' =>
      if ascii_eqb c LF then [c] :: readlines s'
      else
        match readlines s' with
        | [] => [[c]]
        | l :: ls => (c :: l) :: ls
        end
  end.

(** The states of the parser of [csv.reader] that the [excel] dialect
    reaches (it has no escape character). *)
Inductive parser_state : Type :=
| START_RECORD
| START_FIELD
| IN_FIELD
| IN_QUOTED_FIELD
| QUOTE_IN_QUOTED_FIELD
| EAT_CRNL.

(** The reader: its state, the fields of the record so far and the
    characters of the field so far, the last one first. *)
Record reader : Type := mk_reader {
  rd_state : parser_state;
  rd_fields : list string;
  rd_field : list ascii
}.

(** [csv.field_size_limit()] *)
Definition field_limit : Z := 131072.

Definition parse_reset : reader :=
  {| rd_state := START_RECORD; rd_fields := []; rd_field := [] |}.

Definition set_state (r : reader) (s : parser_state) : reader :=
  {| rd_state := s; rd_fields := rd_fields r; rd_field := rd_field r |}.

Definition parse_save_field (r : reader) : reader :=
  {| rd_state := rd_state r;
     rd_fields := rd_fields r ++ [string_of_list_ascii (rev (rd_field r))];
     rd_field := [] |}.

Definition parse_add_char (r : reader) (c : ascii) : outcome reader :=
  if field_limit <=? Z.of_nat (length (rd_field r)) then Raises CsvError
  else Returns {| rd_state := rd_state r; rd_fields := rd_fields r; rd_field := c :: rd_field r |}.

Definition is_newline (c : ascii) : bool := ascii_eqb c LF || ascii_eqb c CR.

(** The case [START_FIELD] of [parse_process_char], for the [excel]
    dialect: the delimiter is a comma, the quote character is the double
    quote, a doubled quote stands for one, and the parser is not strict.
    [None] is the end of a line. *)
Definition start_field (r : reader) (c : option ascii) : outcome reader :=
  match c with
  | None => Returns (set_state (parse_save_field r) START_RECORD)
  | Some x =>
      if is_newline x then Returns (set_state (parse_save_field r) EAT_CRNL)
      else if ascii_eqb x DQUOTE then Returns (set_state r IN_QUOTED_FIELD)
      else if ascii_eqb x COMMA then Returns (parse_save_field r)
      else obind (parse_add_char r x) (fun r' => Returns (set_state r' IN_FIELD))
  end.

Definition parse_process_char (r : reader) (c : option ascii) : outcome reader :=
  match rd_state r with
  | START_RECORD =>
      match c with
      | None => Returns r
      | Some x =>
          if is_newline x then Returns (set_state r EAT_CRNL)
          else start_field (set_state r START_FIELD) c
      end
  | START_FIELD => start_field r c
  | IN_FIELD =>
      match c with
      | None => Returns (set_state (parse_save_field r) START_RECORD)
      | Some x =>
          if is_newline x then Returns (set_state (parse_save_field r) EAT_CRNL)
          else if ascii_eqb x COMMA then Returns (set_state (parse_save_field r) START_FIELD)
          else parse_add_char r x
      end
  | IN_QUOTED_FIELD =>
      match c with
      | None => Returns r
      | Some x =>
          if ascii_eqb x DQUOTE then Returns (set_state r QUOTE_IN_QUOTED_FIELD)
          else parse_add_char r x
      end
  | QUOTE_IN_QUOTED_FIELD =>
      match c with
      | None => Returns (set_state (parse_save_field r) START_RECORD)
      | Some x =>
          if ascii_eqb x DQUOTE
          then obind (parse_add_char r x) (fun r' => Returns (set_state r' IN_QUOTED_FIELD))
          else if ascii_eqb x COMMA then Returns (set_state (parse_save_field r) START_FIELD)
          else if is_newline x then Returns (set_state (parse_save_field r) EAT_CRNL)
          else obind (parse_add_char r x) (fun r' => Returns (set_state r' IN_FIELD))
      end
  | EAT_CRNL =>
      match c with
      | None => Returns (set_state r START_RECORD)
      | Some x => if is_newline x then Returns r else Raises CsvError
      end
  end.

(** The characters of a line, then its end. *)
Fixpoint parse_line (r : reader) (line : list ascii) : outcome reader :=
  match line with
  | [] => parse_process_char r None
  | c :: line' => obind (parse_process_char r (Some c)) (fun r' => parse_line r' line')
  end.

Definition in_start_record (r : reader) : bool :=
  match rd_state r with START_RECORD => true | _ => false end.

Definition in_quoted_field (r : reader) : bool :=
  match rd_state r with IN_QUOTED_FIELD => true | _ => false end.

(** [list(reader)]: a record takes lines until the parser is back at the
    start of a record; at the end of the input a field left open is saved. *)
Fixpoint read_records (r : reader) (lines : list (list ascii)) : outcome (list (list string)) :=
  match lines with
  | [] =>
      if negb (length (rd_field r) =? 0)%nat || in_quoted_field r
      then Returns [rd_fields (parse_save_field r)]
      else Returns []
  | line :: lines' =>
      obind (parse_line r line) (fun r' =>
        if in_start_record r'
        then obind (read_records parse_reset lines') (fun rows => Returns (rd_fields r' :: rows))
        else read_records r' lines')
  end.

(** [list(csv.reader(io.StringIO(content)))] *)
Definition csv_reader (content : string) : outcome (list (list string)) :=
  read_records parse_reset (readlines (chars content)).

(** ** Text output: [str], [strftime] and [csv.writer] *)

(** The character of a decimal digit. *)
Definition digit_of (d : Z) : ascii := ascii_of_N (Z.to_N (48 + d)).

(** The decimal digits of a natural number in front of [acc]; the number
    of binary digits is enough fuel. *)
Fixpoint decimal_digits (fuel : nat) (n : Z) (acc : list ascii) : list ascii :=
  match fuel with
  | O => acc
  | S fuel' =>
      if n <? 10 then digit_of n :: acc
      else decimal_digits fuel' (n / 10) (digit_of (n mod 10) :: acc)
  end.

Definition decimal (n : Z) : list ascii := decimal_digits (S (Z.to_nat (Z.log2 n))) n [].

(** [sys.get_int_max_str_digits()] *)
Definition max_str_digits : Z := 4300.

(** [str(n)] for an [int]: a [ValueError] beyond the limit of digits. *)
Definition str_of_Z (n : Z) : result (list ascii) :=
  let ds := decimal (Z.abs n) in
  if max_str_digits <? Z.of_nat (length ds) then Raise ValueError
  else Ok (if n <? 0 then "-"%char :: ds else ds).

(** A number below one hundred on two digits. *)
Definition pad2 (n : Z) : list ascii := [digit_of (n / 10); digit_of (n mod 10)].

(** The text of a directive of [strftime]; the year is printed without
    padding, as the C library of the platform prints it. *)
Definition strftime_directive (d : datetime) (x : directive) : list ascii :=
  match x with
  | dir_Y => decimal (year d)
  | dir_m => pad2 (month d)
  | dir_d => pad2 (day d)
  | dir_H => pad2 (hour d)
  | dir_M => pad2 (minute d)
  | dir_S => pad2 (second d)
  end.

(** [d.strftime(fmt)] for a format made of the directives above and of
    literal characters. *)
Fixpoint strftime_chars (d : datetime) (fmt : list ascii) : list ascii :=
  match fmt with
  | [] => []
  | c :: fmt' =>
      if ascii_eqb c "%" then
        match fmt' with
        | x :: fmt'' =>
            match directive_of x with
            | Some dir => strftime_directive d dir ++ strftime_chars d fmt''
            | None => c :: strftime_chars d fmt'
            end
        | [] => [c]
        end
      else c :: strftime_chars d fmt'
  end.

Definition strftime (d : datetime) (fmt : string) : string :=
  string_of_list_ascii (strftime_chars d (chars fmt)).

(** *** [repr] of a [float] *)

(** [10^p <= n / d], for positive [n] and [d]. *)
Definition pow10_le (p n d : Z) : bool :=
  if 0 <=? p then d * 10 ^ p <=? n else d <=? n * 10 ^ (- p).

(** The decimal exponent of [n / d]: the least [p] with [n / d < 10^p],
    looked for around the binary logarithm. *)
Definition decimal_exponent (n d : Z) : Z :=
  let p0 := (Z.log2 n - Z.log2 d) * 30103 / 100000 in
  match find (fun p => negb (pow10_le p n d)) (map (fun i => p0 - 2 + Z.of_nat i) (seq 0 6)) with
  | Some p => p
  | None => p0 + 4
  end.

Definition same_float (x y : spec_float) : bool :=
  match x, y with
  | S754_zero a, S754_zero b => Bool.eqb a b
  | S754_infinity a, S754_infinity b => Bool.eqb a b
  | S754_nan, S754_nan => true
  | S754_finite a m e, S754_finite b m' e' => Bool.eqb a b && (Z.pos m =? Z.pos m') && (e =? e')
  | _, _ => false
  end.

(** The decimal [c * 10^q] reads back as the float [m * 2^e]. *)
Definition reads_back (m : positive) (e : Z) (c q : Z) : bool :=
  same_float (F64.of_decimal false c q) (S754_finite false m e).

(** The two decimals of [k] digits next to [n / d], the nearer one first
    (on a tie the even one), with [p] the decimal exponent of [n / d]. *)
Definition neighbours (n d p k : Z) : list Z :=
  let q := p - k in
  let '(num, den) := if 0 <=? q then (n, d * 10 ^ q) else (n * 10 ^ (- q), d) in
  let lo := num / den in
  let r := num mod den in
  match 2 * r ?= den with
  | Lt => [lo; lo + 1]
  | Gt => [lo + 1; lo]
  | Eq => if Z.even lo then [lo; lo + 1] else [lo + 1; lo]
  end.

(** The shortest decimal that reads back as the float, and among the
    shortest the nearest: its digits as a number, and the power of ten.
    Seventeen digits always read back. *)
Fixpoint shortest (m : positive) (e : Z) (n d p : Z) (ks : list Z) : Z * Z :=
  match ks with
  | [] => (hd 0 (neighbours n d p 17), p - 17)
  | k :: ks' =>
      match find (fun c => reads_back m e c (p - k)) (neighbours n d p k) with
      | Some c => (c, p - k)
      | None => shortest m e n d p ks'
      end
  end.

Fixpoint strip_zeros (fuel : nat) (c q : Z) : Z * Z :=
  match fuel with
  | O => (c, q)
  | S fuel' => if (c mod 10 =? 0) && (0 <? c) then strip_zeros fuel' (c / 10) (q + 1) else (c, q)
  end.

Definition zeros (k : Z) : list ascii := repeat "0"%char (Z.to_nat k).

(** The exponent of the scientific notation: a sign and at least two
    digits. *)
Definition exponent_text (x : Z) : list ascii :=
  (if x <? 0 then "-"%char else "+"%char)
    :: (if Z.abs x <? 10 then "0"%char :: decimal (Z.abs x) else decimal (Z.abs x)).

(** The text of the digits [ds] with the decimal point before position
    [decpt]: scientific notation outside [-4 < decpt <= 16]. *)
Definition format_digits (ds : list ascii) (decpt : Z) : list ascii :=
  if (decpt <=? -4) || (16 <? decpt) then
    match ds with
    | [] => []
    | [d] => d :: "e"%char :: exponent_text (decpt - 1)
    | d :: rest => d :: "."%char :: rest ++ "e"%char :: exponent_text (decpt - 1)
    end
  else if decpt <=? 0 then "0"%char :: "."%char :: zeros (- decpt) ++ ds
  else if decpt <? Z.of_nat (length ds)
  then firstn (Z.to_nat decpt) ds ++ "."%char :: skipn (Z.to_nat decpt) ds
  else ds ++ zeros (decpt - Z.of_nat (length ds)) ++ [ "."%char; "0"%char ].

(** [repr(x)], which is also [str(x)] *)
Definition repr_float (x : spec_float) : list ascii :=
  match x with
  | S754_zero s => (if s then ["-"%char] else []) ++ [ "0"%char; "."%char; "0"%char ]
  | S754_infinity s => (if s then ["-"%char] else []) ++ [ "i"%char; "n"%char; "f"%char ]
  | S754_nan => [ "n"%char; "a"%char; "n"%char ]
  | S754_finite s m e =>
      let '(n, d) := if 0 <=? e then (Z.pos m * 2 ^ e, 1) else (Z.pos m, 2 ^ (- e)) in
      let p := decimal_exponent n d in
      let '(c, q) := shortest m e n d p (map Z.of_nat (seq 1 16)) in
      let '(c', q') := strip_zeros 17 c q in
      let ds := decimal c' in
      (if s then ["-"%char] else []) ++ format_digits ds (q' + Z.of_nat (length ds))
  end.

(** *** [csv.writer] *)

(** A value given to [writerow]: a [str], an [int] or a [float]. *)
Inductive value : Type :=
| VStr (s : string)
| VInt (n : Z)
| VFloat (x : spec_float).

(** The text of a value: the writer applies [str] to what is no string. *)
Definition text_of (v : value) : result (list ascii) :=
  match v with
  | VStr s => Ok (chars s)
  | VInt n => str_of_Z n
  | VFloat x => Ok (repr_float x)
  end.

(** The texts of the values of a row, the first failure raised. *)
Fixpoint texts_of (row : list value) : result (list (list ascii)) :=
  match row with
  | [] => Ok []
  | v :: row' =>
      let* t := text_of v in
      let* ts := texts_of row' in
      Ok (t :: ts)
  end.

(** The characters that make the writer quote a field: the delimiter, the
    quote character and the characters of the line terminator. *)
Definition special (c : ascii) : bool :=
  ascii_eqb c COMMA || ascii_eqb c DQUOTE || ascii_eqb c CR || ascii_eqb c LF.

(** The characters of a field, every quote character doubled. *)
Fixpoint double_quotes (l : list ascii) : list ascii :=
  match l with
  | [] => []
  | c :: l' => if ascii_eqb c DQUOTE then c :: c :: double_quotes l' else c :: double_quotes l'
  end.

(** [join_append]: a field with a special character is put in quotes. *)
Definition join_field (l : list ascii) : list ascii :=
  if existsb special l then DQUOTE :: double_quotes l ++ [DQUOTE] else l.

Fixpoint join_fields (fs : list (list ascii)) : list ascii :=
  match fs with
  | [] => []
  | [f] => join_field f
  | f :: fs' => join_field f ++ COMMA :: join_fields fs'
  end.

(** The fields of a record, joined.  A record that would be empty although
    it has a field, a single empty field, is written as two quote
    characters. *)
Definition record_body (fs : list (list ascii)) : list ascii :=
  match fs with
  | [[]] => [DQUOTE; DQUOTE]
  | _ => join_fields fs
  end.

(** The text of a record: the line ends with CR LF. *)
Definition record_text (fs : list (list ascii)) : list ascii := record_body fs ++ [CR; LF].

(** [writer.writerow(row)]: the text written. *)
Definition writerow (row : list value) : result (list ascii) :=
  let* fs := texts_of row in
  Ok (record_text fs).

(** The rows written one after the other. *)
Fixpoint writerows (rows : list (list value)) : result (list ascii) :=
  match rows with
  | [] => Ok []
  | row :: rows' =>
      let* t := writerow row in
      let* ts := writerows rows' in
      Ok (t ++ ts)
  end.

(** ** [process_cashflow]: the output file *)

(** The rows written before the results, at the local time [now]. *)
Definition summary_rows (now : datetime) (st : parse_state) : list (list value) :=
  [ [VStr "Cashflow Calculation Results"];
    [VStr "Generated"; VStr (strftime now "%Y-%m-%d %H:%M:%S")];
    [];
    [VStr "Assumptions"];
    [VStr "valuation_date"; VStr (strftime (valuation_date st) "%Y-%m-%d")];
    [VStr "discount_rate"; VFloat (discount_rate st)];
    [VStr "salary_increase_rate"; VFloat (salary_increase_rate st)];
    [VStr "retirement_age"; VInt (retirement_age st)];
    [];
    [VStr "Calculation Results"];
    [VStr "emp_id"; VStr "emp_name"; VStr "age"; VStr "future_salary";
     VStr "survival_prob"; VStr "death_prob"; VStr "expected_death_outflow"] ].

Definition result_row (r : projection_row) : list value :=
  [ VStr (row_emp_id r); VStr (row_emp_name r); VInt (row_age r);
    VFloat (row_future_salary r); VFloat (row_survival_prob r);
    VFloat (row_death_prob r); VFloat (row_expected_death_outflow r) ].

(** All the rows written, in order. *)
Definition written_rows (now : datetime) (res : run_result) : list (list value) :=
  summary_rows now (final_state res) ++ map result_row (output_rows res).

(** [output.getvalue()] *)
Definition output_csv (now : datetime) (res : run_result) : result string :=
  let* t := writerows (written_rows now res) in
  Ok (string_of_list_ascii t).

(** The whole of [process_cashflow] on the text of the input file, with
    [now] the value of [datetime.now()]: the text of the output file and
    the two counts. *)
Definition process_cashflow_file (now : datetime) (content : string)
  : outcome (string * nat * nat) :=
  obind (csv_reader content) (fun rows =>
  obind (lift (process_cashflow rows)) (fun res =>
  obind (lift (output_csv now res)) (fun text =>
  Returns (text, input_row_count res, output_row_count res)))).

(** ** Notions used in the statements *)

Definition is_min_key {V : Type} (k : Z) (t : gmap Z V) : Prop :=
  is_Some (t !! k) /\ forall j, is_Some (t !! j) -> k <= j.

Definition is_max_key {V : Type} (k : Z) (t : gmap Z V) : Prop :=
  is_Some (t !! k) /\ forall j, is_Some (t !! j) -> j <= k.

(** The age formula as the specification words it:
    [floor(days / 365.25)], that is [floor(4 * days / 1461)]. *)
Definition floor_age (days : Z) : Z := (4 * days) / 1461.

(** The number of cells of a row that are not blank. *)
Definition nonblank_count (row : list string) : nat :=
  length (List.filter (fun c => negb (blank c)) row).

(** The salary conversion of an employee row: [float(cell.replace(',', ''))]. *)
Definition salary_of_cell (c : string) : result spec_float :=
  py_float (string_of_list_ascii (remove_commas (chars c))).

(** A malformed employee row: at least five cells, the first of which is no
    assumption key, and a birth date, a joining date or a salary that does
    not convert. *)
Definition malformed_employee_row (row : list string) : Prop :=
  exists c0 c1 c2 c3 c4 rest,
    row = c0 :: c1 :: c2 :: c3 :: c4 :: rest /\
    is_assumption_key c0 = false /\
    (is_ok (parse_date c2) = false \/ is_ok (parse_date c3) = false \/
     is_ok (salary_of_cell c4) = false).

(** The conversion that an assumption key asks of the value cell fails. *)
Definition conversion_fails (key value : string) : bool :=
  (key_is key "valuation_date" && negb (is_ok (parse_date value)))
  || (key_is key "discount_rate" && negb (is_ok (py_float value)))
  || (key_is key "salary_increase_rate" && negb (is_ok (py_float value)))
  || (key_is key "retirement_age" && negb (is_ok (py_int value))).

(** A malformed assumption row: at least two cells, a first cell that is an
    assumption key and a second cell that its conversion rejects. *)
Definition malformed_assumption_row (row : list string) : Prop :=
  exists key value rest,
    row = key :: value :: rest /\ conversion_fails key value = true.

(** The scenario of the specification. *)
Definition scenario_rows : list (list string) :=
  [ ["valuation_date"; "2024-12-31"];
    ["E1"; "Alice"; "1970-01-01"; "2000-01-01"; "50000"] ].

(** The employee of the scenario, and one already past retirement. *)
Definition alice : employee :=
  {| emp_id := "E1"; emp_name := "Alice";
     date_birth := mk_datetime 1970 1 1 0 0 0;
     date_joining := mk_datetime 2000 1 1 0 0 0;
     salary := F64.of_decimal false 50000 0 |}.

Definition walter : employee :=
  {| emp_id := "E9"; emp_name := "Walter";
     date_birth := mk_datetime 1950 6 15 0 0 0;
     date_joining := mk_datetime 1975 1 1 0 0 0;
     salary := F64.of_decimal false 72000 0 |}.

(** The closed form of the specification, in exact arithmetic on the
    values of the two floats: [salary * (1 + rate)^(k+1)]. *)
Definition closed_form (sal rate : spec_float) (k : nat) : Q :=
  (F64.to_Q sal * (1 + F64.to_Q rate) ^ (Z.of_nat k + 1))%Q.

(** The same closed form evaluated in binary64, [salary * (1 + rate) ** (k+1)],
    with a correctly rounded power. *)
Definition closed_form_float (sal rate : spec_float) (k : nat) : spec_float :=
  F64.mul sal (F64.pow (growth rate) (Pos.of_nat (S k))).

(** A shift record [mrs] locates the fraction [N / D] on the grid of step
    [2^k]: its mantissa is the quotient and its two bits tell where the
    remainder lies with respect to half a step. *)
Definition locates (N D k : Z) (mrs : shr_record) : Prop :=
  let T := D * 2 ^ k in
  let R := N - shr_m mrs * T in
  0 <= shr_m mrs /\ 0 <= R < T /\
  match shr_r mrs, shr_s mrs with
  | false, false => R = 0
  | false, true => 0 < 2 * R < T
  | true, false => 2 * R = T
  | true, true => T < 2 * R
  end.

(** The dates that the constructor of [datetime] accepts. *)
Definition valid_datetime (d : datetime) : Prop :=
  1 <= year d <= 9999 /\ 1 <= month d <= 12 /\
  1 <= day d <= days_in_month (year d) (month d) /\
  0 <= hour d <= 23 /\ 0 <= minute d <= 59 /\ 0 <= second d <= 59.

(** The dates of a state that the projection reads are valid. *)
Definition valid_state (st : parse_state) : Prop :=
  valid_datetime (valuation_date st) /\
  Forall (fun e => valid_datetime (date_birth e)) (employees st).

(** ** Further notions used in the statements *)

(** The state of a run in which the employees retire at 65. *)
Definition retire_at_65 : parse_state :=
  {| valuation_date := valuation_date initial_state;
     discount_rate := discount_rate initial_state;
     salary_increase_rate := salary_increase_rate initial_state;
     retirement_age := 65;
     employees := [alice];
     assumptions_found := true |}.

(** The cells of the scenario of the specification. *)
Definition scenario_cells : list (list (list ascii)) :=
  map (map chars) scenario_rows.

(** The instant of a date, in seconds since the start of day 0. *)
Definition timestamp (d : datetime) : Z := toordinal d * 86400 + seconds_of_day d.

(** The directives of a compiled format, in order. *)
Fixpoint directives (items : list fmt_item) : list directive :=
  match items with
  | IDir d :: items' => d :: directives items'
  | _ :: items' => directives items'
  | [] => []
  end.

(** Padding: spaces, tabs and the other whitespace that [float] and [int]
    skip as well. *)
Definition padding (l : list ascii) : Prop := Forall (fun c => isspace_num c = true) l.

(** [c'] is the cell [c] with padding before and after it. *)
Definition padded (c c' : string) : Prop :=
  exists l r, padding l /\ padding r /\ chars c' = l ++ chars c ++ r.

Definition all_digits (l : list ascii) : Prop := Forall (fun c => isdigit c = true) l.

Definition year_text_ok (y : Z) : bool :=
  match decimal y with
  | [a; b; c; e] =>
      isdigit a && isdigit b && isdigit c && isdigit e && (digits_value [a; b; c; e] =? y)
  | _ => false
  end.

Definition month_day_ok (md : Z * Z) : bool :=
  let '(m, d) := md in
  match match_items [ILit "-"; IDir dir_m; ILit "-"; IDir dir_d]
          ("-"%char :: pad2 m ++ "-"%char :: pad2 d) with
  | Some ([(dir_m, tm); (dir_d, td)], []) =>
      (digits_value (skip isspace tm) =? m) && (digits_value (skip isspace td) =? d)
      && negb (isspace (nth 1 (pad2 d) " "%char))
  | _ => false
  end.

(** What an iteration of the row loop does to the state, which the row
    alone determines. *)
Inductive row_effect : Type :=
| Skipped
| SetValuationDate (d : datetime)
| SetDiscountRate (x : spec_float)
| SetSalaryIncreaseRate (x : spec_float)
| SetRetirementAge (n : Z)
| AddEmployee (e : employee)
| Abort (e : exn).

Definition apply_effect (f : row_effect) (st : parse_state) : result parse_state :=
  match f with
  | Skipped => Ok st
  | SetValuationDate d =>
      Ok {| valuation_date := d;
            discount_rate := discount_rate st;
            salary_increase_rate := salary_increase_rate st;
            retirement_age := retirement_age st;
            employees := employees st;
            assumptions_found := true |}
  | SetDiscountRate x =>
      Ok {| valuation_date := valuation_date st;
            discount_rate := x;
            salary_increase_rate := salary_increase_rate st;
            retirement_age := retirement_age st;
            employees := employees st;
            assumptions_found := true |}
  | SetSalaryIncreaseRate x =>
      Ok {| valuation_date := valuation_date st;
            discount_rate := discount_rate st;
            salary_increase_rate := x;
            retirement_age := retirement_age st;
            employees := employees st;
            assumptions_found := true |}
  | SetRetirementAge n =>
      Ok {| valuation_date := valuation_date st;
            discount_rate := discount_rate st;
            salary_increase_rate := salary_increase_rate st;
            retirement_age := n;
            employees := employees st;
            assumptions_found := true |}
  | AddEmployee e => Ok (add_employee st e)
  | Abort e => Raise e
  end.

Definition effect_of_result {A : Type} (f : A -> row_effect) (r : result A) : row_effect :=
  match r with Ok a => f a | Raise e => Abort e end.

(** The effect of a row. *)
Definition row_effect_of (row : list string) : row_effect :=
  if blank_row row then Skipped
  else
    match row with
    | c0 :: c1 :: _ =>
        if key_is c0 "valuation_date" then effect_of_result SetValuationDate (parse_date c1)
        else if key_is c0 "discount_rate" then effect_of_result SetDiscountRate (py_float c1)
        else if key_is c0 "salary_increase_rate"
        then effect_of_result SetSalaryIncreaseRate (py_float c1)
        else if key_is c0 "retirement_age" then effect_of_result SetRetirementAge (py_int c1)
        else if (5 <=? length row)%nat then
          if is_header_key c0 then Skipped
          else
            match employee_row row with
            | Ok e => AddEmployee e
            | Raise ValueError | Raise IndexError => Skipped
            | Raise e => Abort e
            end
        else Skipped
    | _ => Skipped
    end.

(** A row that the loop reads as an assumption: at least two cells, the
    first of which is an assumption key. *)
Definition is_assumption_row (row : list string) : bool :=
  (2 <=? length row)%nat && is_assumption_key (hd "" row).

(** The projection rows of a run, without the rest of its result. *)
Definition projection (r : result run_result) : result (list projection_row) :=
  let* res := r in Ok (output_rows res).

(** What the projection reads of an employee, and of the state. *)
Definition same_employee_inputs (a b : employee) : Prop :=
  emp_id a = emp_id b /\ emp_name a = emp_name b /\
  date_birth a = date_birth b /\ salary a = salary b.

Definition same_inputs (a b : parse_state) : Prop :=
  valuation_date a = valuation_date b /\
  salary_increase_rate a = salary_increase_rate b /\
  retirement_age a = retirement_age b /\
  Forall2 same_employee_inputs (employees a) (employees b).


(** The employee that a row records, if it records one. *)
Definition recorded_employee (row : list string) : option employee :=
  if is_assumption_row row || (length row <? 5)%nat || is_header_key (hd "" row) then None
  else match employee_row row with Ok e => Some e | Raise _ => None end.

(** The three columns of a projection row that identify it. *)
Definition row_key (r : projection_row) : string * string * Z :=
  (row_emp_id r, row_emp_name r, row_age r).

(** The keys of the rows of one employee whose current age is [a]. *)
Definition employee_block (st : parse_state) (e : employee) (a : Z) : list (string * string * Z) :=
  map (fun age => (emp_id e, emp_name e, age)) (py_range a (retirement_age st)).

(** What the reader does at the end of the input. *)
Definition at_end (r : reader) : outcome (list (list string)) := read_records r [].

(** The end of a line: a record is complete when the parser is back at the
    start of a record. *)
Definition end_of_line (r : reader) (k : reader -> outcome (list (list string)))
  : outcome (list (list string)) :=
  obind (parse_process_char r None) (fun r' =>
    if in_start_record r'
    then obind (k parse_reset) (fun rows => Returns (rd_fields r' :: rows))
    else k r').

(** The reader on the characters of the input, [mid] telling whether the
    current line has a character already. *)
Fixpoint read_chars (mid : bool) (r : reader) (s : list ascii) : outcome (list (list string)) :=
  match s with
  | [] => if mid then end_of_line r at_end else at_end r
  | c :: s' =>
      obind (parse_process_char r (Some c)) (fun r' =>
        if ascii_eqb c LF then end_of_line r' (fun r'' => read_chars false r'' s')
        else read_chars true r' s')
  end.

(** Every carriage return is followed by a line feed, or ends the text. *)
Fixpoint cr_before_lf (s : list ascii) : bool :=
  match s with
  | [] => true
  | c :: s' =>
      (if ascii_eqb c CR then match s' with x :: _ => ascii_eqb x LF | [] => true end else true)
      && cr_before_lf s'
  end.

Definition plain (c : ascii) : Prop := special c = false.

(** The reader is at the start of a field. *)
Definition at_field_start (r : reader) : Prop :=
  (rd_state r = START_RECORD \/ rd_state r = START_FIELD) /\ rd_field r = [].

(** The reader after the text of a field, before the delimiter or the end
    of the line. *)
Definition after_field (r : reader) (f : list ascii) : reader :=
  if existsb special f
  then {| rd_state := QUOTE_IN_QUOTED_FIELD; rd_fields := rd_fields r; rd_field := rev f |}
  else
    match f with
    | [] => r
    | _ => {| rd_state := IN_FIELD; rd_fields := rd_fields r; rd_field := rev f |}
    end.

Definition within_limit (f : list ascii) : Prop := Z.of_nat (length f) <= field_limit.

(** The end of a record: a line feed, or a carriage return and a line
    feed. *)
Definition line_end (eol : list ascii) : Prop := eol = [LF] \/ eol = [CR; LF].

(** The cells of the rows given to the writer, as texts. *)
Fixpoint cells_of (rows : list (list value)) : result (list (list (list ascii))) :=
  match rows with
  | [] => Ok []
  | row :: rows' =>
      let* ts := texts_of row in
      let* rest := cells_of rows' in
      Ok (ts :: rest)
  end.

(** The text of the records of a file whose lines end with [eol]. *)
Definition csv_text (eol : list ascii) (cells : list (list (list ascii))) : string :=
  string_of_list_ascii (concat (map (fun fs => record_body fs ++ eol) cells)).

(** Text without quote characters and without carriage returns. *)
Definition unquoted_lf_text (s : list ascii) : Prop :=
  Forall (fun c => ascii_eqb c DQUOTE = false /\ ascii_eqb c CR = false) s.

Definition not_quoted (r : reader) : Prop :=
  rd_state r = START_RECORD \/ rd_state r = START_FIELD \/ rd_state r = IN_FIELD.

(** * Properties *)

(** ** The probability table *)

Lemma foldr_min_spec (k : Z) (ks : list Z) :
  foldr Z.min k ks ∈ k :: ks /\ forall j, j ∈ k :: ks -> foldr Z.min k ks <= j.
Proof.
  induction ks as [|a ks [Hin Hle]]; simpl.
  - split; [left|]. intros j Hj. apply list_elem_of_singleton in Hj. lia.
  - split.
    + destruct (Z.min_spec a (foldr Z.min k ks)) as [[_ ->]|[_ ->]].
      * right; left.
      * apply elem_of_cons in Hin as [->|Hin]; [left | right; right; exact Hin].
    + intros j Hj.
      assert (Hj' : j = a \/ j ∈ k :: ks).
      { apply elem_of_cons in Hj as [->|Hj]; [right; left|].
        apply elem_of_cons in Hj as [->|Hj]; [left; reflexivity | right; right; exact Hj]. }
      destruct Hj' as [->|Hj']; [lia|]. specialize (Hle _ Hj'). lia.
Qed.

Lemma foldr_max_spec (k : Z) (ks : list Z) :
  foldr Z.max k ks ∈ k :: ks /\ forall j, j ∈ k :: ks -> j <= foldr Z.max k ks.
Proof.
  induction ks as [|a ks [Hin Hle]]; simpl.
  - split; [left|]. intros j Hj. apply list_elem_of_singleton in Hj. lia.
  - split.
    + destruct (Z.max_spec a (foldr Z.max k ks)) as [[_ ->]|[_ ->]].
      * apply elem_of_cons in Hin as [->|Hin]; [left | right; right; exact Hin].
      * right; left.
    + intros j Hj.
      assert (Hj' : j = a \/ j ∈ k :: ks).
      { apply elem_of_cons in Hj as [->|Hj]; [right; left|].
        apply elem_of_cons in Hj as [->|Hj]; [left; reflexivity | right; right; exact Hj]. }
      destruct Hj' as [->|Hj']; [lia|]. specialize (Hle _ Hj'). lia.
Qed.

Lemma key_in_list {V : Type} (t : gmap Z V) (j : Z) :
  is_Some (t !! j) <-> j ∈ map fst (map_to_list t).
Proof.
  split.
  - intros [v Hv]. apply elem_of_map_to_list in Hv.
    apply list_elem_of_fmap. exists (j, v). split; [reflexivity | exact Hv].
  - intros Hj. apply list_elem_of_fmap in Hj as [[j' v] [-> Hv]].
    apply elem_of_map_to_list in Hv. exists v. exact Hv.
Qed.

Lemma min_key_spec {V : Type} (t : gmap Z V) :
  t ≠ ∅ -> exists k, min_key t = Ok k /\ is_min_key k t.
Proof.
  intros Hne. unfold min_key, is_min_key.
  pose proof (key_in_list t) as Hkeys.
  destruct (map fst (map_to_list t)) as [|k ks] eqn:E.
  - exfalso. apply Hne. apply map_to_list_empty_iff.
    destruct (map_to_list t); [reflexivity | discriminate].
  - exists (foldr Z.min k ks). split; [reflexivity|].
    destruct (foldr_min_spec k ks) as [Hin Hle]. split.
    + apply Hkeys, Hin.
    + intros j Hj. apply Hle, Hkeys, Hj.
Qed.

Lemma max_key_spec {V : Type} (t : gmap Z V) :
  t ≠ ∅ -> exists k, max_key t = Ok k /\ is_max_key k t.
Proof.
  intros Hne. unfold max_key, is_max_key.
  pose proof (key_in_list t) as Hkeys.
  destruct (map fst (map_to_list t)) as [|k ks] eqn:E.
  - exfalso. apply Hne. apply map_to_list_empty_iff.
    destruct (map_to_list t); [reflexivity | discriminate].
  - exists (foldr Z.max k ks). split; [reflexivity|].
    destruct (foldr_max_spec k ks) as [Hin Hle]. split.
    + apply Hkeys, Hin.
    + intros j Hj. apply Hle, Hkeys, Hj.
Qed.

Lemma is_min_key_unique {V : Type} (t : gmap Z V) (a b : Z) :
  is_min_key a t -> is_min_key b t -> a = b.
Proof. intros [Ha Hla] [Hb Hlb]. specialize (Hla _ Hb). specialize (Hlb _ Ha). lia. Qed.

Lemma is_max_key_unique {V : Type} (t : gmap Z V) (a b : Z) :
  is_max_key a t -> is_max_key b t -> a = b.
Proof. intros [Ha Hla] [Hb Hlb]. specialize (Hla _ Hb). specialize (Hlb _ Ha). lia. Qed.

Lemma subscript_key {V : Type} (t : gmap Z V) (k : Z) :
  is_Some (t !! k) -> exists v, subscript t k = Ok v /\ t !! k = Some v.
Proof. intros [v Hv]. exists v. unfold subscript. rewrite Hv. split; reflexivity. Qed.

(** Lookup never fails on a table with at least one key. *)
Lemma get_probability_total (age : Z) (t : gmap Z (spec_float * spec_float)) :
  t ≠ ∅ -> exists p, get_probability age t = Ok p.
Proof.
  intros Hne. unfold get_probability.
  destruct (t !! age) as [v|]; [exists v; reflexivity|].
  destruct (min_key_spec t Hne) as (lo & -> & [Hlo _]). simpl.
  destruct (age <? lo).
  - destruct (subscript_key t lo Hlo) as (v & -> & _). exists v; reflexivity.
  - destruct (max_key_spec t Hne) as (hi & -> & [Hhi _]). simpl.
    destruct (subscript_key t hi Hhi) as (v & -> & _). exists v; reflexivity.
Qed.

(** C3: on a non-empty table the lookup succeeds for every integer age; it
    returns the pair stored under the age when the age is a key, the pair of
    the minimum key when the age is below it, and the pair of the maximum
    key when the age is above it. *)
Theorem get_probability_clamps (age : Z) (t : gmap Z (spec_float * spec_float)) :
  t ≠ ∅ ->
  exists p, get_probability age t = Ok p /\
    (forall v, t !! age = Some v -> p = v) /\
    (forall lo, is_min_key lo t -> age < lo -> t !! lo = Some p) /\
    (forall hi, is_max_key hi t -> hi < age -> t !! hi = Some p).
Proof.
  intros Hne. unfold get_probability.
  destruct (t !! age) as [v|] eqn:Hage.
  - exists v. split; [reflexivity|]. split; [intros w Hw; congruence|]. split.
    + intros lo [_ Hlo] Hlt. assert (lo <= age) by (apply Hlo; eauto). lia.
    + intros hi [_ Hhi] Hlt. assert (age <= hi) by (apply Hhi; eauto). lia.
  - destruct (min_key_spec t Hne) as (lo0 & -> & Hmin). simpl.
    destruct (max_key_spec t Hne) as (hi0 & Hmaxeq & Hmax).
    destruct (age <? lo0) eqn:Hlt.
    + apply Z.ltb_lt in Hlt.
      destruct (subscript_key t lo0 (proj1 Hmin)) as (v & -> & Hv).
      exists v. split; [reflexivity|]. split; [intros w Hw; discriminate|]. split.
      * intros lo Hlo _. rewrite (is_min_key_unique t lo lo0 Hlo Hmin). exact Hv.
      * intros hi [Hhi _] Hgt. assert (lo0 <= hi) by (apply (proj2 Hmin), Hhi). lia.
    + apply Z.ltb_ge in Hlt. rewrite Hmaxeq. simpl.
      destruct (subscript_key t hi0 (proj1 Hmax)) as (v & -> & Hv).
      exists v. split; [reflexivity|]. split; [intros w Hw; discriminate|]. split.
      * intros lo Hlo Hlt'. rewrite (is_min_key_unique t lo lo0 Hlo Hmin) in Hlt'. lia.
      * intros hi Hhi _. rewrite (is_max_key_unique t hi hi0 Hhi Hmax). exact Hv.
Qed.

Lemma default_table_nonempty : DEFAULT_PROBABILITY_TABLE ≠ ∅.
Proof.
  intros H.
  assert (Hl : DEFAULT_PROBABILITY_TABLE !! 20 = None) by (rewrite H; apply lookup_empty).
  vm_compute in Hl. discriminate.
Qed.

Lemma get_probability_clamps_witness :
  exists p, get_probability 10 DEFAULT_PROBABILITY_TABLE = Ok p /\
    (forall v, DEFAULT_PROBABILITY_TABLE !! 10 = Some v -> p = v) /\
    (forall lo, is_min_key lo DEFAULT_PROBABILITY_TABLE -> 10 < lo ->
                DEFAULT_PROBABILITY_TABLE !! lo = Some p) /\
    (forall hi, is_max_key hi DEFAULT_PROBABILITY_TABLE -> hi < 10 ->
                DEFAULT_PROBABILITY_TABLE !! hi = Some p).
Proof.
  apply (get_probability_clamps 10 DEFAULT_PROBABILITY_TABLE).
  intros H.
  assert (Hl : DEFAULT_PROBABILITY_TABLE !! 20 = None) by (rewrite H; apply lookup_empty).
  vm_compute in Hl. discriminate.
Defined.

(** The default table: an age of the table, an age below it and an age
    above it. *)
Example default_table_lookups :
  get_probability 52 DEFAULT_PROBABILITY_TABLE = Ok (micro 7059, micro 992941) /\
  get_probability 3 DEFAULT_PROBABILITY_TABLE = Ok (micro 1152, micro 998848) /\
  get_probability 90 DEFAULT_PROBABILITY_TABLE = Ok (micro 0, micro 1000000).
Proof. vm_compute. repeat split. Qed.

(** ** The date parser *)

Lemma strptime_raises_only_ValueError (s : list ascii) (fmt : string) (e : exn) :
  strptime s fmt = Raise e -> e = ValueError.
Proof.
  unfold strptime, datetime_new.
  destruct (compile_format false (chars fmt)) as [items|]; [|congruence].
  destruct (match_items items s) as [[fs [|c r]]|]; try congruence.
  match goal with |- context [if ?b then _ else _] => destruct b end; congruence.
Qed.

(** The loop returns the parse of the first format that succeeds. *)
Lemma try_formats_Ok (fmts : list string) (s : list ascii) (d : datetime) :
  try_formats fmts s = Ok d <->
  exists pre fmt post,
    fmts = pre ++ fmt :: post /\ strptime s fmt = Ok d /\
    Forall (fun f => strptime s f = Raise ValueError) pre.
Proof.
  induction fmts as [|f fmts IH]; simpl.
  - split; [discriminate|]. intros (pre & fmt & post & Heq & _).
    destruct pre; discriminate.
  - destruct (strptime s f) as [d'|e] eqn:Hf.
    + split.
      * intros [= ->]. exists [], f, fmts. repeat split; [exact Hf | constructor].
      * intros (pre & fmt & post & Heq & Hok & Hpre).
        destruct pre as [|f' pre]; simpl in Heq; injection Heq as -> ->.
        -- congruence.
        -- apply Forall_cons in Hpre as [Hbad _]. congruence.
    + pose proof (strptime_raises_only_ValueError _ _ _ Hf) as ->.
      rewrite IH. split.
      * intros (pre & fmt & post & -> & Hok & Hpre).
        exists (f :: pre), fmt, post. repeat split; [exact Hok|].
        constructor; assumption.
      * intros (pre & fmt & post & Heq & Hok & Hpre).
        destruct pre as [|f' pre]; simpl in Heq; injection Heq as -> ->.
        -- congruence.
        -- apply Forall_cons in Hpre as [_ Hpre]. exists pre, fmt, post. auto.
Qed.

(** The loop fails, with a [ValueError], exactly when every format fails. *)
Lemma try_formats_Raise (fmts : list string) (s : list ascii) (e : exn) :
  try_formats fmts s = Raise e <->
  e = ValueError /\ Forall (fun f => strptime s f = Raise ValueError) fmts.
Proof.
  induction fmts as [|f fmts IH]; simpl.
  - split; [intros [= <-]; split; [reflexivity | constructor] | intros [-> _]; reflexivity].
  - destruct (strptime s f) as [d'|e'] eqn:Hf.
    + split; [discriminate|]. intros [_ H]. apply Forall_cons in H as [H _]. congruence.
    + pose proof (strptime_raises_only_ValueError _ _ _ Hf) as ->.
      rewrite IH. split.
      * intros [-> H]. split; [reflexivity | constructor; assumption].
      * intros [-> H]. apply Forall_cons in H as [_ H]. split; [reflexivity | exact H].
Qed.

(** C9: the parser tries ISO date, ISO date and time, day/month/year,
    month/day/year and dash-separated day-month-year in that order and
    returns the first successful parse; the string 05/06/2024, which both
    slash formats accept, parses as 5 June 2024; when no format matches the
    parser raises an error. *)
Theorem parse_date_first_match :
  formats = ["%Y-%m-%d"; "%Y-%m-%d %H:%M:%S"; "%d/%m/%Y"; "%m/%d/%Y"; "%d-%m-%Y"] /\
  (forall (s : string) (d : datetime),
     parse_date s = Ok d <->
     exists pre fmt post,
       formats = pre ++ fmt :: post /\
       strptime (strip (chars s)) fmt = Ok d /\
       Forall (fun f => strptime (strip (chars s)) f = Raise ValueError) pre) /\
  (forall (s : string) (e : exn),
     parse_date s = Raise e <->
     e = ValueError /\
     Forall (fun f => strptime (strip (chars s)) f = Raise ValueError) formats) /\
  strptime (chars "05/06/2024") "%d/%m/%Y" = Ok (mk_datetime 2024 6 5 0 0 0) /\
  strptime (chars "05/06/2024") "%m/%d/%Y" = Ok (mk_datetime 2024 5 6 0 0 0) /\
  parse_date "05/06/2024" = Ok (mk_datetime 2024 6 5 0 0 0).
Proof.
  split; [reflexivity|].
  split; [intros s d; apply try_formats_Ok|].
  split; [intros s e; apply try_formats_Raise|].
  repeat split; vm_compute; reflexivity.
Qed.

(** Each format on a string of its own, and a string that none accepts. *)
Example parse_date_examples :
  parse_date "2024-12-31" = Ok (mk_datetime 2024 12 31 0 0 0) /\
  parse_date " 2024-12-31 08:30:00 " = Ok (mk_datetime 2024 12 31 8 30 0) /\
  parse_date "31/12/2024" = Ok (mk_datetime 2024 12 31 0 0 0) /\
  parse_date "12/31/2024" = Ok (mk_datetime 2024 12 31 0 0 0) /\
  parse_date "31-12-2024" = Ok (mk_datetime 2024 12 31 0 0 0) /\
  parse_date "30/02/2024" = Raise ValueError /\
  parse_date "next year" = Raise ValueError.
Proof. vm_compute. repeat split. Qed.

(** ** The age *)

(** The day count behind an age: [(valuation_date - birth_date).days + 1]. *)
Lemma calculate_age_unfold (b v : datetime) :
  calculate_age b v
  = F64.trunc (F64.div (F64.of_Z (timedelta_days v b + 1)) days_per_year).
Proof. reflexivity. Qed.

(** C1: an employee born two days after the valuation date.  The day count
    plus one is [-1]; the code truncates [-1 / 365.25] towards zero and
    answers [0], the floor of the specification is [-1].  The run then
    emits sixty rows, for the ages 0 to 59. *)
Theorem calculate_age_truncates_toward_zero :
  let birth := mk_datetime 2025 1 2 0 0 0 in
  let valuation := mk_datetime 2024 12 31 0 0 0 in
  timedelta_days valuation birth + 1 = -1 /\
  calculate_age birth valuation = Ok 0 /\
  floor_age (timedelta_days valuation birth + 1) = -1 /\
  (exists res,
     process_cashflow [["E7"; "Bob"; "2025-01-02"; "2025-01-02"; "1000"]] = Ok res /\
     map row_age (output_rows res) = py_range 0 60).
Proof.
  repeat split; try (vm_compute; reflexivity).
  eexists. split; [vm_compute; reflexivity|]. vm_compute. reflexivity.
Qed.

(** On the valuation date itself and one day after it the two agree: the
    day count plus one is 1 and 0. *)
Example calculate_age_at_valuation_date :
  calculate_age (mk_datetime 2024 12 31 0 0 0) (mk_datetime 2024 12 31 0 0 0) = Ok 0 /\
  floor_age 1 = 0 /\
  calculate_age (mk_datetime 2025 1 1 0 0 0) (mk_datetime 2024 12 31 0 0 0) = Ok 0 /\
  floor_age 0 = 0.
Proof. vm_compute. repeat split. Qed.

(** ** The scenario of the specification *)

(** C2, as stated, fails: the run on the scenario rows computes the
    current age 55 and emits five rows; it does not give the current age 52
    with eight rows for the ages 52 to 59. *)
Lemma scenario_not_age_52 :
  (exists res emp,
     process_cashflow scenario_rows = Ok res /\
     employees (final_state res) = [emp] /\
     calculate_age (date_birth emp) (valuation_date (final_state res)) = Ok 55 /\
     length (output_rows res) = 5%nat) /\
  ~ (exists res emp,
       process_cashflow scenario_rows = Ok res /\
       employees (final_state res) = [emp] /\
       calculate_age (date_birth emp) (valuation_date (final_state res)) = Ok 52 /\
       map row_age (output_rows res) = [52; 53; 54; 55; 56; 57; 58; 59] /\
       (exists r0, head (output_rows res) = Some r0 /\
          row_future_salary r0 = F64.of_decimal false 5250000 (-2) /\
          row_expected_death_outflow r0 =
            F64.round (F64.mul (F64.mul (F64.of_decimal false 52500 0) (micro 992941))
                               (micro 7059)) 6)).
Proof.
  split.
  - eexists. eexists. split; [vm_compute; reflexivity|]. repeat split.
  - intros (res & emp & Hrun & _ & _ & Hages & _).
    vm_compute in Hrun. injection Hrun as <-.
    vm_compute in Hages. discriminate.
Qed.

(** C2, amended: from 1 January 1970 to 31 December 2024 there are 20088
    days, so the current age is [int(20089 / 365.25) = 55]; the run emits
    exactly five rows, for the ages 55 to 59; the first row's future salary
    is [50000 * 1.05 = 52500.00] and its expected death outflow is
    [52500 * 0.989714 * 0.010286] rounded to six places, [534.460406]. *)
Theorem scenario_age_55_five_rows :
  exists res emp r0,
    process_cashflow scenario_rows = Ok res /\
    employees (final_state res) = [emp] /\
    timedelta_days (valuation_date (final_state res)) (date_birth emp) = 20088 /\
    calculate_age (date_birth emp) (valuation_date (final_state res)) = Ok 55 /\
    map row_age (output_rows res) = [55; 56; 57; 58; 59] /\
    output_row_count res = 5%nat /\
    head (output_rows res) = Some r0 /\
    F64.mul (F64.of_decimal false 50000 0) (F64.of_decimal false 105 (-2))
      = F64.of_decimal false 5250000 (-2) /\
    row_future_salary r0 = F64.of_decimal false 5250000 (-2) /\
    row_expected_death_outflow r0 =
      F64.round (F64.mul (F64.mul (F64.of_decimal false 52500 0) (micro 989714))
                         (micro 10286)) 6 /\
    row_expected_death_outflow r0 = micro 534460406.
Proof.
  eexists. eexists. eexists.
  split; [vm_compute; reflexivity|].
  repeat split; vm_compute; reflexivity.
Qed.

(** ** The projection loop *)

Section Projection.

Variable probability_table : gmap Z (spec_float * spec_float).

Lemma py_range_elem (a b x : Z) : x ∈ py_range a b <-> a <= x <= b - 1.
Proof.
  unfold py_range. rewrite list_elem_of_fmap. split.
  - intros (i & -> & Hi). apply elem_of_seq in Hi. lia.
  - intros Hx. exists (Z.to_nat (x - a)). split; [lia|]. apply elem_of_seq. lia.
Qed.

Lemma py_range_empty (a b : Z) : b <= a -> py_range a b = [].
Proof.
  intros H. unfold py_range. replace (Z.to_nat (b - a)) with O by lia. reflexivity.
Qed.

(** The rows of the inner loop carry the ages of the range, in order. *)
Lemma project_ages_ages (rate : spec_float) (emp : employee) (ages : list Z) :
  forall fs rows,
    project_ages probability_table rate emp ages fs = Ok rows ->
    map row_age rows = ages.
Proof.
  induction ages as [|age ages IH]; intros fs rows H; simpl in H.
  - injection H as <-. reflexivity.
  - destruct (get_probability age probability_table) as [[qx px]|e]; simpl in H; [|discriminate].
    destruct (project_ages probability_table rate emp ages _) as [rest|e] eqn:Hrest;
      simpl in H; [|discriminate].
    injection H as <-. simpl. f_equal. eapply IH, Hrest.
Qed.

(** The loop succeeds whenever every lookup does. *)
Lemma project_ages_total (rate : spec_float) (emp : employee) (ages : list Z) :
  probability_table ≠ ∅ ->
  forall fs, exists rows, project_ages probability_table rate emp ages fs = Ok rows.
Proof.
  intros Hne. induction ages as [|age ages IH]; intros fs; simpl.
  - exists []. reflexivity.
  - destruct (get_probability_total age probability_table Hne) as [[qx px] ->]. simpl.
    destruct (IH (F64.mul fs (growth rate))) as [rest ->]. simpl.
    eexists. reflexivity.
Qed.

(** Row [k] of the inner loop is computed from the value that the loop
    variable has at iteration [k]. *)
Lemma project_ages_row (rate : spec_float) (emp : employee) (ages : list Z) :
  forall fs rows k r,
    project_ages probability_table rate emp ages fs = Ok rows ->
    rows !! k = Some r ->
    exists age qx px,
      ages !! k = Some age /\
      get_probability age probability_table = Ok (qx, px) /\
      r = {| row_emp_id := emp_id emp;
             row_emp_name := emp_name emp;
             row_age := age;
             row_future_salary := F64.round (future_salary_at rate fs k) 2;
             row_survival_prob := px;
             row_death_prob := qx;
             row_expected_death_outflow :=
               F64.round (F64.mul (F64.mul (future_salary_at rate fs k) px) qx) 6 |}.
Proof.
  induction ages as [|age ages IH]; intros fs rows k r H Hk; simpl in H.
  - injection H as <-. destruct k; discriminate.
  - destruct (get_probability age probability_table) as [[qx px]|e] eqn:Hp; simpl in H;
      [|discriminate].
    destruct (project_ages probability_table rate emp ages _) as [rest|e] eqn:Hrest;
      simpl in H; [|discriminate].
    injection H as <-. destruct k as [|k]; simpl in Hk.
    + injection Hk as <-. exists age, qx, px. repeat split. exact Hp.
    + destruct (IH _ _ _ _ Hrest Hk) as (a & q & p & Ha & Hq & ->).
      exists a, q, p. repeat split; assumption.
Qed.

(** The ages of an employee's rows are the range from the current age to
    the retirement age. *)
Lemma project_employee_ages (st : parse_state) (emp : employee) (current_age : Z)
    (rows : list projection_row) :
  calculate_age (date_birth emp) (valuation_date st) = Ok current_age ->
  project_employee probability_table st emp = Ok rows ->
  map row_age rows = py_range current_age (retirement_age st) /\
  forall r, r ∈ rows -> current_age <= row_age r <= retirement_age st - 1.
Proof.
  intros Hage. unfold project_employee. rewrite Hage. simpl.
  intros H. pose proof (project_ages_ages _ _ _ _ _ H) as Hages.
  split; [exact Hages|]. intros r Hr. apply py_range_elem.
  rewrite <- Hages. apply list_elem_of_fmap. exists r. split; [reflexivity | exact Hr].
Qed.

(** C4: for every employee, the rows that the employee contributes carry
    exactly the ages from the current age up to the retirement age minus
    one, so every row's age lies in that interval; an employee whose
    current age has reached the retirement age contributes no row, and the
    projection of that employee returns normally. *)
Theorem projection_ages_in_range (st : parse_state) (emp : employee) (current_age : Z) :
  calculate_age (date_birth emp) (valuation_date st) = Ok current_age ->
  (forall rows,
     project_employee probability_table st emp = Ok rows ->
     map row_age rows = py_range current_age (retirement_age st) /\
     forall r, r ∈ rows -> current_age <= row_age r <= retirement_age st - 1) /\
  (retirement_age st <= current_age ->
   project_employee probability_table st emp = Ok []).
Proof.
  intros Hage. split.
  - intros rows. apply project_employee_ages, Hage.
  - intros Hret. unfold project_employee. rewrite Hage. simpl.
    rewrite (py_range_empty _ _ Hret). reflexivity.
Qed.

(** The rows of a run are the rows of its employees, one employee after the
    other. *)
Lemma project_all_elem (st : parse_state) (emps : list employee) :
  forall out r,
    project_all probability_table st emps = Ok out -> r ∈ out ->
    exists emp rows,
      emp ∈ emps /\ project_employee probability_table st emp = Ok rows /\ r ∈ rows.
Proof.
  induction emps as [|emp emps IH]; intros out r H Hr; simpl in H.
  - injection H as <-. inversion Hr.
  - destruct (project_employee probability_table st emp) as [rows|e] eqn:He; simpl in H;
      [|discriminate].
    destruct (project_all probability_table st emps) as [rest|e] eqn:Hrest; simpl in H;
      [|discriminate].
    injection H as <-. apply elem_of_app in Hr as [Hr|Hr].
    + exists emp, rows. split; [left|]. split; [exact He | exact Hr].
    + destruct (IH _ _ eq_refl Hr) as (emp' & rows' & Hin & Hp & Hr').
      exists emp', rows'. split; [right; exact Hin|]. split; assumption.
Qed.

End Projection.

(** Every row that a run emits belongs to an employee of the run and has an
    age between that employee's current age and the retirement age minus
    one. *)
Lemma output_rows_in_range (rows : list (list string)) (res : run_result) :
  process_cashflow rows = Ok res ->
  forall r, r ∈ output_rows res ->
    exists emp current_age,
      emp ∈ employees (final_state res) /\
      calculate_age (date_birth emp) (valuation_date (final_state res)) = Ok current_age /\
      current_age <= row_age r <= retirement_age (final_state res) - 1.
Proof.
  unfold process_cashflow. intros H r Hr.
  destruct (process_rows initial_state rows) as [st|e]; simpl in H; [|discriminate].
  destruct (project_all DEFAULT_PROBABILITY_TABLE st (employees st)) as [out|e] eqn:Hout;
    simpl in H; [|discriminate].
  injection H as <-. simpl in *.
  destruct (project_all_elem _ _ _ _ _ Hout Hr) as (emp & rows_e & Hin & Hp & Hre).
  destruct (calculate_age (date_birth emp) (valuation_date st)) as [c|e] eqn:Hage.
  - exists emp, c. split; [exact Hin|]. split; [exact Hage|].
    apply (project_employee_ages DEFAULT_PROBABILITY_TABLE st emp c rows_e Hage Hp), Hre.
  - unfold project_employee in Hp. rewrite Hage in Hp. discriminate.
Qed.

Lemma projection_ages_in_range_witness :
  (forall rows,
     project_employee DEFAULT_PROBABILITY_TABLE initial_state walter = Ok rows ->
     map row_age rows = py_range 74 (retirement_age initial_state) /\
     forall r, r ∈ rows -> 74 <= row_age r <= retirement_age initial_state - 1) /\
  (retirement_age initial_state <= 74 ->
   project_employee DEFAULT_PROBABILITY_TABLE initial_state walter = Ok []).
Proof.
  apply (projection_ages_in_range DEFAULT_PROBABILITY_TABLE initial_state walter 74).
  vm_compute. reflexivity.
Defined.

(** A run with an employee past retirement and one before it: the first
    contributes nothing, the run succeeds with the rows of the second. *)
Example retired_employee_contributes_nothing :
  exists res,
    process_cashflow
      [ ["E9"; "Walter"; "1950-06-15"; "1975-01-01"; "72,000"];
        ["E1"; "Alice"; "1970-01-01"; "2000-01-01"; "50000"] ] = Ok res /\
    employees (final_state res) = [walter; alice] /\
    map row_emp_id (output_rows res) = ["E1"; "E1"; "E1"; "E1"; "E1"] /\
    map row_age (output_rows res) = [55; 56; 57; 58; 59].
Proof. eexists. split; [vm_compute; reflexivity|]. repeat split. Qed.

(** ** Rounding is for display only *)

Lemma future_salary_at_succ (rate fs : spec_float) (k : nat) :
  future_salary_at rate fs (S k) = F64.mul (future_salary_at rate fs k) (growth rate).
Proof.
  revert fs. induction k as [|k IH]; intros fs; [reflexivity|].
  change (future_salary_at rate fs (S (S k)))
    with (future_salary_at rate (F64.mul fs (growth rate)) (S k)).
  rewrite IH. reflexivity.
Qed.

(** C8: in every emitted row the expected death outflow is the un-rounded
    future salary times px times qx, rounded to six places, and the future
    salary field is the un-rounded future salary rounded to two places; the
    next iteration continues from the un-rounded value. *)
Theorem outflow_uses_unrounded_salary
    (probability_table : gmap Z (spec_float * spec_float))
    (st : parse_state) (emp : employee) (rows : list projection_row)
    (k : nat) (r : projection_row) :
  project_employee probability_table st emp = Ok rows ->
  rows !! k = Some r ->
  let rate := salary_increase_rate st in
  let future_salary := unrounded_future_salary (salary emp) rate k in
  get_probability (row_age r) probability_table
    = Ok (row_death_prob r, row_survival_prob r) /\
  row_future_salary r = F64.round future_salary 2 /\
  row_expected_death_outflow r
    = F64.round (F64.mul (F64.mul future_salary (row_survival_prob r)) (row_death_prob r)) 6 /\
  unrounded_future_salary (salary emp) rate (S k) = F64.mul future_salary (growth rate).
Proof.
  unfold project_employee. intros H Hk.
  destruct (calculate_age (date_birth emp) (valuation_date st)) as [c|e]; simpl in H;
    [|discriminate].
  destruct (project_ages_row _ _ _ _ _ _ _ _ H Hk) as (age & qx & px & _ & Hp & ->).
  simpl. repeat split.
  - exact Hp.
  - unfold unrounded_future_salary. apply future_salary_at_succ.
Qed.

Lemma outflow_uses_unrounded_salary_witness :
  exists r,
    let future_salary :=
      unrounded_future_salary (salary alice) (salary_increase_rate initial_state) 3 in
    get_probability (row_age r) DEFAULT_PROBABILITY_TABLE
      = Ok (row_death_prob r, row_survival_prob r) /\
    row_future_salary r = F64.round future_salary 2 /\
    row_expected_death_outflow r
      = F64.round (F64.mul (F64.mul future_salary (row_survival_prob r)) (row_death_prob r)) 6 /\
    unrounded_future_salary (salary alice) (salary_increase_rate initial_state) 4
      = F64.mul future_salary (growth (salary_increase_rate initial_state)).
Proof.
  eexists.
  eapply (outflow_uses_unrounded_salary DEFAULT_PROBABILITY_TABLE initial_state alice _ 3%nat).
  - vm_compute. reflexivity.
  - reflexivity.
Defined.

(** The fourth row of the scenario: the un-rounded salary is 60775.3125,
    the displayed one 60775.31, and the outflow that the row carries,
    [618.704727], is not the one that the displayed salary would give,
    [618.704702]. *)
Example display_rounding_does_not_feed_back :
  let fs := unrounded_future_salary (salary alice) (salary_increase_rate initial_state) 3 in
  let px := micro 989714 in
  let qx := micro 10286 in
  fs = F64.of_decimal false 607753125 (-4) /\
  F64.round fs 2 = F64.of_decimal false 6077531 (-2) /\
  F64.round (F64.mul (F64.mul fs px) qx) 6 = micro 618704727 /\
  F64.round (F64.mul (F64.mul (F64.round fs 2) px) qx) 6 = micro 618704702.
Proof. vm_compute. repeat split. Qed.

(** ** Reading the rows *)

Lemma is_ok_false {A : Type} (r : result A) : is_ok r = false -> exists e, r = Raise e.
Proof. destruct r as [a|e]; [discriminate | eauto]. Qed.

Lemma parse_date_cases (s : string) :
  (exists d, parse_date s = Ok d) \/ parse_date s = Raise ValueError.
Proof.
  destruct (parse_date s) as [d|e] eqn:H; [left; eauto|].
  apply try_formats_Raise in H as [-> _]. right; reflexivity.
Qed.

Lemma py_float_raises_only_ValueError (s : string) (e : exn) :
  py_float s = Raise e -> e = ValueError.
Proof. unfold py_float. intros H. repeat case_match; congruence. Qed.

Lemma py_int_raises_only_ValueError (s : string) (e : exn) :
  py_int s = Raise e -> e = ValueError.
Proof. unfold py_int. intros H. repeat case_match; congruence. Qed.

Lemma ascii_eqb_eq (a b : ascii) : ascii_eqb a b = true -> a = b.
Proof.
  unfold ascii_eqb, code. intros H. apply Z.eqb_eq, N2Z.inj in H.
  rewrite <- (ascii_N_embedding a), <- (ascii_N_embedding b), H. reflexivity.
Qed.

Lemma chars_eqb_eq (a b : list ascii) : chars_eqb a b = true -> a = b.
Proof.
  revert b. induction a as [|x a IH]; intros [|y b] H; simpl in H; try discriminate.
  - reflexivity.
  - apply andb_true_iff in H as [Hx Ha]. f_equal; [apply ascii_eqb_eq, Hx | apply IH, Ha].
Qed.

(** A cell answers to at most one key. *)
Lemma key_is_exclusive (s k1 k2 : string) :
  key_is s k1 = true -> chars k1 <> chars k2 -> key_is s k2 = false.
Proof.
  unfold key_is. intros H1 Hne. destruct (chars_eqb _ (chars k2)) eqn:H2; [|reflexivity].
  apply chars_eqb_eq in H1, H2. congruence.
Qed.

Lemma key_is_not_blank (s k : string) : key_is s k = true -> chars k <> [] -> blank s = false.
Proof.
  unfold key_is, blank. intros H Hne. apply chars_eqb_eq in H.
  destruct (strip (chars s)); [|reflexivity]. simpl in H. congruence.
Qed.

Lemma assumption_key_not_blank (s : string) : is_assumption_key s = true -> blank s = false.
Proof.
  unfold is_assumption_key. intros H.
  repeat (apply orb_true_iff in H as [H|H]);
    (eapply key_is_not_blank; [exact H | discriminate]).
Qed.

Lemma process_rows_app (st : parse_state) (a b : list (list string)) :
  process_rows st (a ++ b) = let* st' := process_rows st a in process_rows st' b.
Proof.
  revert st. induction a as [|row a IH]; intros st; simpl; [reflexivity|].
  destruct (process_row st row) as [st'|e]; simpl; [apply IH | reflexivity].
Qed.

(** A row that leaves every state as it is can be taken out of the input. *)
Lemma process_rows_skip (row : list string) (pre post : list (list string)) :
  (forall st, process_row st row = Ok st) ->
  forall st, process_rows st (pre ++ row :: post) = process_rows st (pre ++ post).
Proof.
  intros Hrow st. rewrite !process_rows_app.
  destruct (process_rows st pre) as [st'|e]; simpl; [|reflexivity].
  rewrite Hrow. reflexivity.
Qed.

(** A row that raises in every state makes every input that holds it fail. *)
Lemma process_rows_abort (row : list string) (pre post : list (list string)) (e : exn) :
  (forall st, process_row st row = Raise e) ->
  forall st, is_ok (process_rows st (pre ++ row :: post)) = false /\
             (is_ok (process_rows st pre) = true ->
              process_rows st (pre ++ row :: post) = Raise e).
Proof.
  intros Hrow st. rewrite process_rows_app.
  destruct (process_rows st pre) as [st'|e']; simpl.
  - rewrite Hrow. simpl. split; [reflexivity | intros _; reflexivity].
  - split; [reflexivity | discriminate].
Qed.

Lemma employee_row_malformed (c0 c1 c2 c3 c4 : string) (rest : list string) :
  is_ok (parse_date c2) = false \/ is_ok (parse_date c3) = false \/
  is_ok (salary_of_cell c4) = false ->
  employee_row (c0 :: c1 :: c2 :: c3 :: c4 :: rest) = Raise ValueError.
Proof.
  intros H. unfold employee_row. simpl.
  destruct (parse_date_cases c2) as [[d2 H2]| ->]; [|reflexivity].
  rewrite H2 in *. simpl.
  destruct (parse_date_cases c3) as [[d3 H3]| ->]; [|reflexivity].
  rewrite H3 in *. simpl.
  destruct H as [H|[H|H]]; try discriminate.
  apply is_ok_false in H as [e He]. unfold salary_of_cell in He. rewrite He. simpl.
  rewrite (py_float_raises_only_ValueError _ _ He). reflexivity.
Qed.

Lemma assumption_row_not_key (st : parse_state) (c0 : string) (rest : list string) :
  is_assumption_key c0 = false -> assumption_row st (c0 :: rest) = Ok None.
Proof.
  unfold is_assumption_key. intros H.
  repeat (apply orb_false_iff in H as [H ?]).
  unfold assumption_row. destruct (2 <=? length (c0 :: rest))%nat; [|reflexivity].
  simpl. repeat match goal with Hk : key_is _ _ = false |- _ => rewrite Hk; clear Hk end.
  reflexivity.
Qed.

Lemma process_row_malformed_employee (st : parse_state) (row : list string) :
  malformed_employee_row row -> process_row st row = Ok st.
Proof.
  intros (c0 & c1 & c2 & c3 & c4 & rest & -> & Hkey & Hbad).
  unfold process_row. destruct (blank_row _); [reflexivity|].
  rewrite (assumption_row_not_key _ _ _ Hkey). simpl.
  destruct (is_header_key c0); [reflexivity|].
  rewrite (employee_row_malformed _ _ _ _ _ _ Hbad). reflexivity.
Qed.

Lemma process_row_malformed_assumption (st : parse_state) (row : list string) :
  malformed_assumption_row row -> process_row st row = Raise ValueError.
Proof.
  intros (key & value & rest & -> & Hfail).
  assert (Hblank : blank_row (key :: value :: rest) = false).
  { simpl. rewrite (assumption_key_not_blank key); [reflexivity|].
    unfold conversion_fails in Hfail. unfold is_assumption_key.
    repeat (apply orb_true_iff in Hfail as [Hfail|Hfail]);
      apply andb_true_iff in Hfail as [-> _]; rewrite ?orb_true_r; reflexivity. }
  unfold process_row. rewrite Hblank.
  unfold conversion_fails in Hfail. unfold assumption_row. simpl.
  repeat (apply orb_true_iff in Hfail as [Hfail|Hfail]);
    apply andb_true_iff in Hfail as [Hk Hconv]; apply negb_true_iff, is_ok_false in Hconv as [e He].
  - rewrite Hk. destruct (parse_date_cases value) as [[d Hd]|Hd]; rewrite Hd in He; [discriminate|].
    rewrite Hd. reflexivity.
  - rewrite (key_is_exclusive key _ "valuation_date" Hk) by discriminate.
    rewrite Hk, He. simpl. rewrite (py_float_raises_only_ValueError _ _ He). reflexivity.
  - rewrite (key_is_exclusive key _ "valuation_date" Hk) by discriminate.
    rewrite (key_is_exclusive key _ "discount_rate" Hk) by discriminate.
    rewrite Hk, He. simpl. rewrite (py_float_raises_only_ValueError _ _ He). reflexivity.
  - rewrite (key_is_exclusive key _ "valuation_date" Hk) by discriminate.
    rewrite (key_is_exclusive key _ "discount_rate" Hk) by discriminate.
    rewrite (key_is_exclusive key _ "salary_increase_rate" Hk) by discriminate.
    rewrite Hk, He. simpl. rewrite (py_int_raises_only_ValueError _ _ He). reflexivity.
Qed.

Lemma process_cashflow_rows_eq (a b : list (list string)) :
  process_rows initial_state a = process_rows initial_state b ->
  process_cashflow a = process_cashflow b.
Proof. unfold process_cashflow. intros ->. reflexivity. Qed.

(** C6: a malformed employee row is dropped: it changes no state, adds no
    employee record, and the run is the run of the input without it; a
    malformed assumption row raises, and every run whose input holds it
    aborts. *)
Theorem malformed_rows_drop_or_abort
    (emp_row asm_row : list string) (pre post : list (list string)) :
  malformed_employee_row emp_row ->
  malformed_assumption_row asm_row ->
  (forall st, process_row st emp_row = Ok st) /\
  process_cashflow (pre ++ emp_row :: post) = process_cashflow (pre ++ post) /\
  (forall st, process_row st asm_row = Raise ValueError) /\
  is_ok (process_cashflow (pre ++ asm_row :: post)) = false /\
  (is_ok (process_rows initial_state pre) = true ->
   process_cashflow (pre ++ asm_row :: post) = Raise ValueError).
Proof.
  intros Hemp Hasm.
  assert (He : forall st, process_row st emp_row = Ok st)
    by (intros st; apply process_row_malformed_employee, Hemp).
  assert (Ha : forall st, process_row st asm_row = Raise ValueError)
    by (intros st; apply process_row_malformed_assumption, Hasm).
  split; [exact He|]. split.
  { apply process_cashflow_rows_eq, process_rows_skip, He. }
  split; [exact Ha|].
  destruct (process_rows_abort asm_row pre post ValueError Ha initial_state) as [Hnot Hval].
  unfold process_cashflow. split.
  - destruct (process_rows initial_state (pre ++ asm_row :: post)); [discriminate | reflexivity].
  - intros Hpre. rewrite (Hval Hpre). reflexivity.
Qed.

Lemma malformed_rows_drop_or_abort_witness :
  let emp_row := ["E2"; "Bob"; "31/02/1980"; "2001-05-01"; "40000"] in
  let asm_row := ["retirement_age"; "sixty"] in
  (forall st, process_row st emp_row = Ok st) /\
  process_cashflow (scenario_rows ++ emp_row :: [["E1"; "Alice"; "1970-01-01"; "2000-01-01"; "1"]])
    = process_cashflow (scenario_rows ++ [["E1"; "Alice"; "1970-01-01"; "2000-01-01"; "1"]]) /\
  (forall st, process_row st asm_row = Raise ValueError) /\
  is_ok (process_cashflow
           (scenario_rows ++ asm_row :: [["E1"; "Alice"; "1970-01-01"; "2000-01-01"; "1"]])) = false /\
  (is_ok (process_rows initial_state scenario_rows) = true ->
   process_cashflow
     (scenario_rows ++ asm_row :: [["E1"; "Alice"; "1970-01-01"; "2000-01-01"; "1"]])
   = Raise ValueError).
Proof.
  apply (malformed_rows_drop_or_abort
           ["E2"; "Bob"; "31/02/1980"; "2001-05-01"; "40000"]
           ["retirement_age"; "sixty"]
           scenario_rows
           [["E1"; "Alice"; "1970-01-01"; "2000-01-01"; "1"]]).
  - do 6 eexists. split; [reflexivity|]. split; [vm_compute; reflexivity|].
    left. vm_compute. reflexivity.
  - do 3 eexists. split; [reflexivity|]. vm_compute. reflexivity.
Defined.

(** The three ways of an employee row to be malformed, and the four
    assumption keys with a value that does not convert. *)
Example malformed_row_examples :
  process_cashflow [["E2"; "Bob"; "1980-13-01"; "2001-05-01"; "40000"]]
    = process_cashflow [] /\
  process_cashflow [["E2"; "Bob"; "1980-01-01"; "yesterday"; "40000"]]
    = process_cashflow [] /\
  process_cashflow [["E2"; "Bob"; "1980-01-01"; "2001-05-01"; "forty thousand"]]
    = process_cashflow [] /\
  process_cashflow [["Valuation_Date"; "2024-31-12"]] = Raise ValueError /\
  process_cashflow [["discount_rate"; "5%"]] = Raise ValueError /\
  process_cashflow [["salary_increase_rate"; "0,05"]] = Raise ValueError /\
  process_cashflow [["retirement_age"; "60.0"]] = Raise ValueError.
Proof. vm_compute. repeat split. Qed.

(** *** Blank cells *)

Lemma skip_head (p : ascii -> bool) (l : list ascii) (c : ascii) (t : list ascii) :
  skip p l = c :: t -> p c = false.
Proof.
  induction l as [|x l IH]; simpl; [discriminate|].
  destruct (p x) eqn:Hx; [exact IH|]. intros [= <- _]. exact Hx.
Qed.

Lemma skip_Forall (P : ascii -> Prop) (p : ascii -> bool) (l : list ascii) :
  Forall P l -> Forall P (skip p l).
Proof.
  induction 1 as [|x l Hx Hl IH]; simpl; [constructor|].
  destruct (p x); [exact IH | constructor; assumption].
Qed.

Lemma skip_nil_Forall (p : ascii -> bool) (l : list ascii) :
  skip p l = [] -> Forall (fun c => p c = true) l.
Proof.
  induction l as [|x l IH]; simpl; [constructor|].
  destruct (p x) eqn:Hx; [|discriminate]. intros H. constructor; [exact Hx | apply IH, H].
Qed.

Lemma strip_with_Forall (P : ascii -> Prop) (p : ascii -> bool) (l : list ascii) :
  Forall P l -> Forall P (strip_with p l).
Proof.
  intros H. unfold strip_with.
  apply Forall_rev, skip_Forall, Forall_rev, skip_Forall, H.
Qed.

Lemma strip_with_nil (p : ascii -> bool) (l : list ascii) :
  strip_with p l = [] -> Forall (fun c => p c = true) l.
Proof.
  unfold strip_with. intros H.
  assert (H1 : skip p (rev (skip p l)) = []).
  { destruct (skip p (rev (skip p l))) as [|a t]; [reflexivity|].
    simpl in H. destruct (rev t); discriminate. }
  apply skip_nil_Forall, Forall_rev in H1. rewrite rev_involutive in H1.
  destruct (skip p l) as [|c t] eqn:Hs.
  - apply skip_nil_Forall, Hs.
  - apply skip_head in Hs. apply Forall_cons in H1 as [Hc _]. congruence.
Qed.

Lemma blank_strip (c : string) : blank c = true -> strip (chars c) = [].
Proof. unfold blank. destruct (strip (chars c)); [reflexivity | discriminate]. Qed.

Lemma space_char (c : ascii) :
  isspace c = true ->
  isdigit c = false /\ ascii_eqb c "_" = false /\ ascii_eqb c "-" = false /\
  ascii_eqb c "+" = false /\ ascii_eqb c "." = false /\
  ascii_eqb (lower_char c) "i" = false /\ ascii_eqb (lower_char c) "n" = false.
Proof.
  destruct c as [[] [] [] [] [] [] [] []]; intros H; vm_compute in H; try discriminate H;
    vm_compute; repeat split.
Qed.

Lemma drop_underscores_spaces (l : list ascii) :
  Forall (fun c => isspace c = true) l ->
  forall prev,
    match prev with Some p => isspace p = true | None => True end ->
    drop_underscores prev l = Some l.
Proof.
  induction 1 as [|c l Hc Hl IH]; intros prev Hprev; simpl.
  - destruct prev as [p|]; [|reflexivity].
    destruct (space_char p Hprev) as (_ & -> & _). reflexivity.
  - destruct (space_char c Hc) as (_ & -> & _).
    assert (Hus : match prev with Some p => ascii_eqb p "_" | None => false end = false).
    { destruct prev as [p|]; [|reflexivity]. destruct (space_char p Hprev) as (_ & -> & _).
      reflexivity. }
    rewrite Hus. simpl. rewrite (IH (Some c) Hc). reflexivity.
Qed.

(** What [float] and [int] see of a blank cell: nothing, or text that
    starts with a whitespace character that they do not skip. *)
Lemma blank_numeral_text (c : string) :
  blank c = true ->
  drop_underscores None (strip_with isspace_num (chars c)) = Some [] \/
  exists x t,
    drop_underscores None (strip_with isspace_num (chars c)) = Some (x :: t) /\
    isspace x = true.
Proof.
  intros H. apply blank_strip, strip_with_nil in H.
  apply (strip_with_Forall _ isspace_num) in H.
  rewrite (drop_underscores_spaces _ H None I).
  destruct (strip_with isspace_num (chars c)) as [|x t]; [left; reflexivity|].
  right. exists x, t. split; [reflexivity|]. apply Forall_cons in H as [Hx _]. exact Hx.
Qed.

Lemma py_float_blank (c : string) : blank c = true -> py_float c = Raise ValueError.
Proof.
  intros H. unfold py_float.
  destruct (blank_numeral_text c H) as [-> | (x & t & -> & Hx)]; [reflexivity|].
  destruct (space_char x Hx) as (Hd & _ & Hm & Hp & Hdot & Hi & Hn).
  unfold take_sign. rewrite Hm, Hp. simpl. rewrite Hi, Hn. simpl.
  rewrite Hd, Hdot. reflexivity.
Qed.

Lemma py_int_blank (c : string) : blank c = true -> py_int c = Raise ValueError.
Proof.
  intros H. unfold py_int.
  destruct (blank_numeral_text c H) as [-> | (x & t & -> & Hx)]; [reflexivity|].
  destruct (space_char x Hx) as (Hd & _ & Hm & Hp & _).
  unfold take_sign. rewrite Hm, Hp. simpl. rewrite Hd. reflexivity.
Qed.

Lemma parse_date_blank (c : string) : blank c = true -> parse_date c = Raise ValueError.
Proof. intros H. unfold parse_date. rewrite (blank_strip c H). reflexivity. Qed.

Lemma conversion_fails_blank (key value : string) :
  is_assumption_key key = true -> blank value = true -> conversion_fails key value = true.
Proof.
  unfold is_assumption_key, conversion_fails. intros Hk Hb.
  rewrite (parse_date_blank _ Hb), (py_float_blank _ Hb), (py_int_blank _ Hb). simpl.
  rewrite !andb_true_r. exact Hk.
Qed.

Lemma assumption_row_short (st : parse_state) (row : list string) :
  (length row < 2)%nat -> assumption_row st row = Ok None.
Proof.
  intros H. unfold assumption_row.
  destruct (2 <=? length row)%nat eqn:Hl; [|reflexivity].
  apply Nat.leb_le in Hl. lia.
Qed.

(** With fewer than two cells that are not blank, the birth date or the
    joining date of a row of five cells is blank. *)
Lemma sparse_row_blank_date (c0 c1 c2 c3 c4 : string) (rest : list string) :
  (nonblank_count (c0 :: c1 :: c2 :: c3 :: c4 :: rest) < 2)%nat ->
  blank c2 = true \/ blank c3 = true.
Proof.
  unfold nonblank_count. simpl.
  destruct (blank c0), (blank c1), (blank c2), (blank c3); simpl; auto; lia.
Qed.

(** C7, as stated, fails: the row [valuation_date] followed by an empty
    cell has one cell that is not blank, and it raises. *)
Lemma blank_assumption_value_raises :
  nonblank_count ["valuation_date"; ""] = 1%nat /\
  process_row initial_state ["valuation_date"; ""] = Raise ValueError /\
  process_cashflow [["valuation_date"; ""]] = Raise ValueError.
Proof. vm_compute. repeat split. Qed.

(** C7, amended: a row with fewer than two cells that are not blank, an
    all-blank row included, is skipped (no employee record, no assumption
    changed, no error) unless it has at least two cells and its first cell
    is an assumption key; in that case its second cell is blank, the
    conversion fails and the row raises. *)
Theorem sparse_row_skipped_unless_assumption_key (st : parse_state) (row : list string) :
  (nonblank_count row < 2)%nat ->
  ((length row < 2)%nat \/ is_assumption_key (hd "" row) = false ->
   process_row st row = Ok st) /\
  ((2 <= length row)%nat -> is_assumption_key (hd "" row) = true ->
   process_row st row = Raise ValueError).
Proof.
  intros Hcount. split.
  - intros Hcase. unfold process_row. destruct (blank_row row) eqn:Hb; [reflexivity|].
    assert (Ha : assumption_row st row = Ok None).
    { destruct Hcase as [Hl|Hk]; [apply assumption_row_short, Hl|].
      destruct row as [|c0 rest]; [reflexivity|]. apply assumption_row_not_key, Hk. }
    rewrite Ha. simpl.
    destruct row as [|c0 [|c1 [|c2 [|c3 [|c4 rest]]]]]; try reflexivity.
    simpl. destruct (is_header_key c0); [reflexivity|].
    rewrite employee_row_malformed; [reflexivity|].
    destruct (sparse_row_blank_date _ _ _ _ _ _ Hcount) as [H|H].
    + left. rewrite (parse_date_blank _ H). reflexivity.
    + right; left. rewrite (parse_date_blank _ H). reflexivity.
  - intros Hlen Hkey. apply process_row_malformed_assumption.
    destruct row as [|key [|value rest]]; simpl in Hlen; try lia.
    simpl in Hkey. exists key, value, rest. split; [reflexivity|].
    apply conversion_fails_blank; [exact Hkey|].
    pose proof (assumption_key_not_blank key Hkey) as Hnb.
    unfold nonblank_count in Hcount. simpl in Hcount. rewrite Hnb in Hcount. simpl in Hcount.
    destruct (blank value); [reflexivity|]. simpl in Hcount. lia.
Qed.

Lemma sparse_row_skipped_unless_assumption_key_witness :
  ((length ["E5"; " "; ""; ""; ""; ""] < 2)%nat \/
   is_assumption_key (hd "" ["E5"; " "; ""; ""; ""; ""]) = false ->
   process_row initial_state ["E5"; " "; ""; ""; ""; ""] = Ok initial_state) /\
  ((2 <= length ["E5"; " "; ""; ""; ""; ""])%nat ->
   is_assumption_key (hd "" ["E5"; " "; ""; ""; ""; ""]) = true ->
   process_row initial_state ["E5"; " "; ""; ""; ""; ""] = Raise ValueError).
Proof.
  apply (sparse_row_skipped_unless_assumption_key initial_state ["E5"; " "; ""; ""; ""; ""]).
  vm_compute. lia.
Defined.

(** Rows that are skipped, and the rows with an assumption key and a blank
    value, which are not. *)
Example sparse_row_examples :
  process_cashflow [[]; [""; "  "; ""]; ["E5"]; [""; "Bob"; ""; ""; ""]; ["retirement_age"]]
    = process_cashflow [] /\
  process_cashflow [["discount_rate"; " "]] = Raise ValueError /\
  process_cashflow [["SALARY_INCREASE_RATE"; ""; ""]] = Raise ValueError /\
  process_cashflow [[" retirement_age "; ""]] = Raise ValueError.
Proof. vm_compute. repeat split. Qed.

(** ** Rounding in binary64 *)

Lemma digits2_pos_bounds (p : positive) :
  2 ^ (Z.pos (digits2_pos p) - 1) <= Z.pos p < 2 ^ Z.pos (digits2_pos p).
Proof.
  induction p as [p IH|p IH|]; simpl digits2_pos.
  - rewrite Pos2Z.inj_succ.
    replace (Z.succ (Z.pos (digits2_pos p)) - 1) with (Z.succ (Z.pos (digits2_pos p) - 1)) by lia.
    rewrite !Z.pow_succ_r by lia. lia.
  - rewrite Pos2Z.inj_succ.
    replace (Z.succ (Z.pos (digits2_pos p)) - 1) with (Z.succ (Z.pos (digits2_pos p) - 1)) by lia.
    rewrite !Z.pow_succ_r by lia. lia.
  - simpl. lia.
Qed.

Lemma digits2_pos_unique (p : positive) (d : Z) :
  2 ^ (d - 1) <= Z.pos p < 2 ^ d -> Z.pos (digits2_pos p) = d.
Proof.
  intros [Hlo Hhi]. destruct (digits2_pos_bounds p) as [Blo Bhi].
  assert (0 < d).
  { destruct (Z_lt_le_dec 0 d) as [?|Hd]; [assumption|].
    assert (2 ^ d <= 2 ^ 0) by (apply Z.pow_le_mono_r; lia). simpl in *. lia. }
  destruct (Z.lt_trichotomy (Z.pos (digits2_pos p)) d) as [Hlt|[Heq|Hgt]]; [|exact Heq|].
  - assert (2 ^ Z.pos (digits2_pos p) <= 2 ^ (d - 1)) by (apply Z.pow_le_mono_r; lia). lia.
  - assert (2 ^ d <= 2 ^ (Z.pos (digits2_pos p) - 1)) by (apply Z.pow_le_mono_r; lia). lia.
Qed.

Lemma shr_m_of_loc (m : Z) (l : location) : shr_m (shr_record_of_loc m l) = m.
Proof. destruct l as [|[]]; reflexivity. Qed.

(** One right shift keeps the fraction located, on the grid twice as
    coarse. *)
Lemma locates_shr_1 (N D k : Z) (mrs : shr_record) :
  0 < D -> 0 <= k -> locates N D k mrs -> locates N D (k + 1) (shr_1 mrs).
Proof.
  intros HD Hk. unfold locates. destruct mrs as [m r s]. simpl shr_m. simpl shr_r. simpl shr_s.
  rewrite Z.pow_add_r by lia. change (2 ^ 1) with 2.
  pose proof (Z.pow_pos_nonneg 2 k ltac:(lia) Hk) as HT.
  assert (HDT : 0 < D * 2 ^ k) by (apply Z.mul_pos_pos; assumption).
  replace (D * (2 ^ k * 2)) with (2 * (D * 2 ^ k)) by ring.
  set (T := D * 2 ^ k) in *. clearbody T.
  intros (Hm & HR & Hloc).
  destruct m as [|[p|p|]|p]; try lia; destruct r, s; simpl; lia.
Qed.

(** And so do [n] of them. *)
Lemma locates_iter (N D : Z) (n : positive) :
  0 < D ->
  forall k mrs, 0 <= k -> locates N D k mrs ->
    locates N D (k + Z.pos n) (SpecFloat.iter_pos shr_1 n mrs).
Proof.
  intros HD. induction n as [n IH|n IH|]; intros k mrs Hk H; simpl SpecFloat.iter_pos.
  - replace (k + Z.pos n~1) with (k + 1 + Z.pos n + Z.pos n) by lia.
    apply IH; [lia|]. apply IH; [lia|]. apply locates_shr_1; assumption.
  - replace (k + Z.pos n~0) with (k + Z.pos n + Z.pos n) by lia.
    apply IH; [lia|]. apply IH; assumption.
  - apply locates_shr_1; assumption.
Qed.

(** Rounding to nearest even moves at most half a step away. *)
Lemma round_nearest_even_locates (N D k : Z) (mrs : shr_record) :
  locates N D k mrs ->
  let m' := round_nearest_even (shr_m mrs) (loc_of_shr_record mrs) in
  (m' = shr_m mrs \/ m' = shr_m mrs + 1) /\
  2 * Z.abs (m' * (D * 2 ^ k) - N) <= D * 2 ^ k.
Proof.
  unfold locates. destruct mrs as [m r s]. simpl.
  set (T := D * 2 ^ k). clearbody T. intros (Hm & HR & Hloc).
  destruct r, s; simpl; try (destruct (Z.even m)); lia.
Qed.

Lemma fexp64 (x : Z) : fexp 53 1024 x = Z.max (x - 53) (-1074).
Proof. reflexivity. Qed.

(** Rounding a located fraction whose quotient has at least 53 bits, in
    the normal range. *)
Lemma binary_round_aux_locates (sx : bool) (q : positive) (e : Z) (l : location) (N D : Z) :
  let d := Z.pos (digits2_pos q) in
  0 < D -> locates N D 0 (shr_record_of_loc (Z.pos q) l) ->
  53 <= d -> -1074 <= e + d - 53 ->
  exists m3 e3,
    binary_round_aux 53 1024 sx (Z.pos q) e l
      = (if e3 <=? 971 then S754_finite sx m3 e3 else S754_infinity sx) /\
    2 ^ 52 <= Z.pos m3 < 2 ^ 53 /\
    (e3 = e + d - 53 \/ e3 = e + d - 52) /\
    2 * Z.abs (Z.pos m3 * 2 ^ (e3 - e) * D - N) <= D * 2 ^ (d - 53).
Proof.
  intros d HD Hstart Hd He.
  destruct (digits2_pos_bounds q) as [Plo Phi]. fold d in Plo, Phi.
  unfold binary_round_aux.
  unfold shr_fexp at 1. simpl Zdigits2. fold d. rewrite fexp64.
  replace (Z.max (d + e - 53) (-1074) - e) with (d - 53) by lia.
  assert (Hfirst : exists mrs1,
             shr (shr_record_of_loc (Z.pos q) l) e (d - 53) = (mrs1, e + (d - 53)) /\
             locates N D (d - 53) mrs1).
  { destruct (d - 53) as [|n|n] eqn:Hn; try lia.
    - exists (shr_record_of_loc (Z.pos q) l). split; [unfold shr; f_equal; lia | exact Hstart].
    - exists (SpecFloat.iter_pos shr_1 n (shr_record_of_loc (Z.pos q) l)). split; [reflexivity|].
      pose proof (locates_iter N D n HD 0 _ ltac:(lia) Hstart) as H. rewrite Z.add_0_l in H.
      exact H. }
  destruct Hfirst as (mrs1 & -> & Hloc).
  destruct (round_nearest_even_locates _ _ _ _ Hloc) as [Hm2 Herr].
  set (m2 := round_nearest_even (shr_m mrs1) (loc_of_shr_record mrs1)) in *. clearbody m2.
  assert (Hn0 : 0 <= d - 53) by lia.
  assert (HT : 0 < 2 ^ (d - 53)) by (apply Z.pow_pos_nonneg; lia).
  assert (Hpd : 2 ^ d = 2 ^ 53 * 2 ^ (d - 53)).
  { replace d with (53 + (d - 53)) at 1 by lia. apply Z.pow_add_r; lia. }
  assert (Hpd1 : 2 ^ (d - 1) = 2 ^ 52 * 2 ^ (d - 53)).
  { replace (d - 1) with (52 + (d - 53)) by lia. apply Z.pow_add_r; lia. }
  set (T := 2 ^ (d - 53)) in *.
  assert (HDT : 0 < D * T) by (apply Z.mul_pos_pos; assumption).
  assert (Hm1b : 2 ^ 52 <= shr_m mrs1 < 2 ^ 53).
  { unfold locates in Hstart, Hloc. fold T in Hloc.
    destruct Hstart as (_ & Hs & _). destruct Hloc as (Hm1 & Hl & _).
    rewrite shr_m_of_loc in Hs. change (2 ^ 0) with 1 in Hs. rewrite Z.mul_1_r in Hs.
    assert (HA : shr_m mrs1 * T <= Z.pos q).
    { destruct (Z_lt_le_dec (Z.pos q) (shr_m mrs1 * T)) as [Hlt|?]; [|assumption].
      assert ((Z.pos q + 1) * D <= shr_m mrs1 * T * D)
        by (apply Z.mul_le_mono_nonneg_r; lia).
      lia. }
    assert (HB : Z.pos q < (shr_m mrs1 + 1) * T).
    { destruct (Z_lt_le_dec (Z.pos q) ((shr_m mrs1 + 1) * T)) as [?|Hge]; [assumption|].
      assert ((shr_m mrs1 + 1) * T * D <= Z.pos q * D)
        by (apply Z.mul_le_mono_nonneg_r; lia).
      lia. }
    split.
    - destruct (Z_lt_le_dec (shr_m mrs1) (2 ^ 52)) as [Hlt|?]; [|assumption].
      assert ((shr_m mrs1 + 1) * T <= 2 ^ 52 * T) by (apply Z.mul_le_mono_nonneg_r; lia).
      lia.
    - destruct (Z_lt_le_dec (shr_m mrs1) (2 ^ 53)) as [?|Hge]; [assumption|].
      assert (2 ^ 53 * T <= shr_m mrs1 * T) by (apply Z.mul_le_mono_nonneg_r; lia).
      lia. }
  assert (Hm2b : 2 ^ 52 <= m2 <= 2 ^ 53) by lia.
  destruct m2 as [|p|p]; try lia.
  unfold shr_fexp. simpl Zdigits2. rewrite fexp64.
  destruct (Z.eq_dec (Z.pos p) (2 ^ 53)) as [Hp|Hp].
  - assert (p = 9007199254740992%positive) by (apply Pos2Z.inj; exact Hp). subst p.
    change (digits2_pos 9007199254740992) with 54%positive.
    replace (Z.max (54 + (e + (d - 53)) - 53) (-1074) - (e + (d - 53))) with 1 by lia.
    simpl. exists 4503599627370496%positive, (e + (d - 53) + 1).
    split; [reflexivity|]. split; [lia|]. split; [right; lia|].
    replace (e + (d - 53) + 1 - e) with ((d - 53) + 1) by lia.
    rewrite Z.pow_add_r by lia. fold T. change (2 ^ 1) with 2.
    replace (4503599627370496 * (T * 2) * D) with (9007199254740992 * (D * T)) by ring.
    exact Herr.
  - rewrite (digits2_pos_unique p 53) by (change (53 - 1) with 52; lia).
    replace (Z.max (53 + (e + (d - 53)) - 53) (-1074) - (e + (d - 53))) with 0 by lia.
    simpl. exists p, (e + (d - 53)).
    split; [reflexivity|]. split; [lia|]. split; [left; lia|].
    replace (e + (d - 53) - e) with (d - 53) by lia. fold T.
    replace (Z.pos p * T * D) with (Z.pos p * (D * T)) by ring.
    exact Herr.
Qed.

(** Rounding an integer of more than 53 bits, in the normal range. *)
Lemma binary_round_aux_normal (sx : bool) (P : positive) (e : Z) :
  let d := Z.pos (digits2_pos P) in
  53 < d -> -1074 <= e + d - 53 ->
  exists m3 e3,
    binary_round_aux 53 1024 sx (Z.pos P) e loc_Exact
      = (if e3 <=? 971 then S754_finite sx m3 e3 else S754_infinity sx) /\
    2 ^ 52 <= Z.pos m3 < 2 ^ 53 /\
    e + d - 53 <= e3 /\
    2 * Z.abs (Z.pos m3 * 2 ^ (e3 - e) - Z.pos P) <= 2 ^ (d - 53).
Proof.
  intros d Hd He.
  destruct (binary_round_aux_locates sx P e loc_Exact (Z.pos P) 1)
    as (m3 & e3 & Heq & Hm3 & He3 & Herr).
  { lia. }
  { unfold locates. simpl. lia. }
  { fold d. lia. }
  { fold d. lia. }
  fold d in He3, Herr. rewrite Z.mul_1_r, Z.mul_1_l in Herr.
  exists m3, e3. split; [exact Heq|]. split; [exact Hm3|]. split; [lia | exact Herr].
Qed.

Lemma pow2_split (a b : Z) : 0 <= a -> 0 <= b -> 2 ^ (a + b) = 2 ^ a * 2 ^ b.
Proof. intros. apply Z.pow_add_r; assumption. Qed.

(** The product of two normal numbers, the second at least 1. *)
Lemma mul_normal_spec (mx mg : positive) (ex eg : Z) :
  Z.pos (digits2_pos mx) = 53 -> Z.pos (digits2_pos mg) = 53 ->
  -1074 <= ex -> -52 <= eg ->
  exists m3 e3,
    SFmul 53 1024 (S754_finite false mx ex) (S754_finite false mg eg)
      = (if e3 <=? 971 then S754_finite false m3 e3 else S754_infinity false) /\
    2 ^ 52 <= Z.pos m3 < 2 ^ 53 /\
    ex + eg <= e3 /\ ex <= e3 /\
    (e3 = ex -> eg = -52 /\ Z.pos mx * Z.pos mg <= Z.pos m3 * 2 ^ 52 + 2 ^ 51) /\
    2 ^ 53 * Z.abs (Z.pos m3 * 2 ^ (e3 - (ex + eg)) - Z.pos mx * Z.pos mg)
      <= Z.pos mx * Z.pos mg.
Proof.
  intros Hdx Hdg Hex Heg.
  destruct (digits2_pos_bounds mx) as [Xlo Xhi]. rewrite Hdx in Xlo, Xhi.
  destruct (digits2_pos_bounds mg) as [Glo Ghi]. rewrite Hdg in Glo, Ghi.
  change (53 - 1) with 52 in *.
  assert (Plo : 2 ^ 104 <= Z.pos mx * Z.pos mg).
  { change (2 ^ 104) with (2 ^ 52 * 2 ^ 52). apply Z.mul_le_mono_nonneg; lia. }
  assert (Phi : Z.pos mx * Z.pos mg < 2 ^ 106).
  { change (2 ^ 106) with (2 ^ 53 * 2 ^ 53). apply Z.mul_lt_mono_nonneg; lia. }
  destruct (digits2_pos_bounds (mx * mg)) as [Dlo Dhi].
  rewrite Pos2Z.inj_mul in Dlo, Dhi.
  set (d := Z.pos (digits2_pos (mx * mg))) in *.
  assert (Hd : 105 <= d <= 106).
  { split.
    - destruct (Z_lt_le_dec d 105) as [Hlt|?]; [|assumption].
      assert (2 ^ d <= 2 ^ 104) by (apply Z.pow_le_mono_r; lia). lia.
    - destruct (Z_lt_le_dec 106 d) as [Hlt|?]; [|assumption].
      assert (2 ^ 106 <= 2 ^ (d - 1)) by (apply Z.pow_le_mono_r; lia). lia. }
  destruct (binary_round_aux_normal false (mx * mg) (ex + eg)) as (m3 & e3 & Heq & Hm3 & He3 & Herr).
  { fold d. lia. }
  { fold d. lia. }
  fold d in He3, Herr. rewrite Pos2Z.inj_mul in Herr.
  exists m3, e3. split; [exact Heq|]. split; [exact Hm3|].
  split; [lia|]. split; [lia|]. split.
  - intros ->. assert (eg = -52) by lia. subst eg. assert (d = 105) by lia.
    split; [reflexivity|].
    replace (ex - (ex + -52)) with 52 in Herr by lia.
    replace (d - 53) with 52 in Herr by lia. change (2 ^ 52) with (2 * 2 ^ 51) in Herr at 2.
    lia.
  - assert (Hd1 : 2 ^ (d - 1) = 2 ^ 52 * 2 ^ (d - 53)).
    { replace (d - 1) with (52 + (d - 53)) by lia. apply pow2_split; lia. }
    change (2 ^ 53) with (2 ^ 52 * 2). 
    set (E := Z.abs _) in *. clearbody E.
    assert (2 ^ 52 * (2 * E) <= 2 ^ 52 * 2 ^ (d - 53)) by (apply Z.mul_le_mono_nonneg_l; lia).
    lia.
Qed.

(** The shape of a positive normal number: 53 bits of mantissa. *)
Lemma positive_normal_inv (x : spec_float) :
  F64.positive_normal x = true ->
  exists m e, x = S754_finite false m e /\ Z.pos (digits2_pos m) = 53 /\ -1074 <= e <= 971.
Proof.
  unfold F64.positive_normal, F64.prec, F64.emax, valid_binary, SFclassify.
  destruct x as [[]|[]| |[] m e]; intros H; try discriminate H.
  - destruct (bounded 53 1024 m e), (Z.pos (digits2_pos m) =? 53); discriminate H.
  - apply andb_true_iff in H as [Hb Hc].
    destruct (Z.pos (digits2_pos m) =? 53) eqn:Hd; [|discriminate].
    apply Z.eqb_eq in Hd. exists m, e. split; [reflexivity|]. split; [exact Hd|].
    unfold bounded, canonical_mantissa in Hb. apply andb_true_iff in Hb as [Hcan Hmax].
    rewrite Hd, fexp64 in Hcan. apply Z.eqb_eq in Hcan. apply Z.leb_le in Hmax. lia.
Qed.









(** Aligning a mantissa to a smaller exponent multiplies it by a power of
    two. *)
Lemma pos_iter_xO (m d : positive) : Z.pos (Pos.iter xO m d) = Z.pos m * 2 ^ Z.pos d.
Proof.
  induction d as [|d IH] using Pos.peano_ind.
  - simpl. lia.
  - rewrite Pos.iter_succ, Pos2Z.inj_succ, Z.pow_succ_r by lia.
    rewrite Pos2Z.inj_xO, IH. lia.
Qed.

Lemma shl_align_fst (m : positive) (e e' : Z) :
  e' <= e -> Z.pos (fst (shl_align m e e')) = Z.pos m * 2 ^ (e - e').
Proof.
  intros H. unfold shl_align. destruct (e' - e) as [|d|d] eqn:Hd; try lia; simpl fst.
  - replace (e - e') with 0 by lia. simpl. lia.
  - rewrite pos_iter_xO. f_equal. f_equal. lia.
Qed.



Lemma mul_unfold (x y : spec_float) : F64.mul x y = SFmul 53 1024 x y.
Proof. reflexivity. Qed.


















(** A rate too small to move the sum [1 + rate] away from 1, and a salary
    below the normal range: in both cases the value stays where it is. *)
Example growth_needs_a_visible_rate :
  growth (F64.of_decimal false 1 (-17)) = F64.one /\
  unrounded_future_salary (F64.of_decimal false 50000 0) (F64.of_decimal false 1 (-17)) 1
    = F64.of_decimal false 50000 0 /\
  unrounded_future_salary (F64.of_decimal false 5 (-324)) (F64.of_decimal false 5 (-2)) 1
    = F64.of_decimal false 5 (-324).
Proof. vm_compute. repeat split. Qed.



(** With a rate whose sum and products are exact, here 0.5, the iterated
    product is the closed form. *)
Example exact_rate_meets_closed_form :
  let sal := F64.of_decimal false 50000 0 in
  let rate := F64.of_decimal false 5 (-1) in
  (F64.to_Q (unrounded_future_salary sal rate 3) == closed_form sal rate 3)%Q /\
  unrounded_future_salary sal rate 3 = closed_form_float sal rate 3 /\
  unrounded_future_salary sal rate 3 = F64.of_decimal false 253125 0.
Proof. vm_compute. repeat split. Qed.

(** ** The age, for every date *)

Lemma shl_align_snd (m : positive) (e e' : Z) : e' <= e -> snd (shl_align m e e') = e'.
Proof.
  intros H. unfold shl_align. destruct (e' - e) as [|d|d] eqn:Hd; try lia; simpl snd; lia.
Qed.

(** An integer below [2^53] converts exactly: the mantissa is the integer
    shifted to 53 bits. *)
Lemma binary_round_integer (s : bool) (p : positive) :
  let dd := Z.pos (digits2_pos p) in
  Z.pos p < 2 ^ 53 ->
  exists mz,
    binary_round 53 1024 s p 0 = S754_finite s mz (dd - 53) /\
    Z.pos mz = Z.pos p * 2 ^ (53 - dd) /\
    Z.pos (digits2_pos mz) = 53.
Proof.
  intros dd Hp. destruct (digits2_pos_bounds p) as [Plo Phi]. fold dd in Plo, Phi.
  assert (Hdd : 1 <= dd <= 53).
  { split; [unfold dd; lia|].
    destruct (Z_lt_le_dec 53 dd) as [Hlt|?]; [|assumption].
    assert (2 ^ 53 <= 2 ^ (dd - 1)) by (apply Z.pow_le_mono_r; lia). lia. }
  unfold binary_round. fold dd. rewrite fexp64.
  replace (Z.max (dd + 0 - 53) (-1074)) with (dd - 53) by lia.
  pose proof (shl_align_fst p 0 (dd - 53) ltac:(lia)) as Hfst.
  pose proof (shl_align_snd p 0 (dd - 53) ltac:(lia)) as Hsnd.
  destruct (shl_align p 0 (dd - 53)) as [mz ez]. simpl in Hfst, Hsnd. subst ez.
  replace (0 - (dd - 53)) with (53 - dd) in Hfst by lia.
  assert (HT : 0 < 2 ^ (53 - dd)) by (apply Z.pow_pos_nonneg; lia).
  assert (H53 : 2 ^ 53 = 2 ^ dd * 2 ^ (53 - dd)).
  { rewrite <- Z.pow_add_r by lia. f_equal. lia. }
  assert (H52 : 2 ^ 52 = 2 ^ (dd - 1) * 2 ^ (53 - dd)).
  { rewrite <- Z.pow_add_r by lia. f_equal. lia. }
  assert (Hmz : 2 ^ 52 <= Z.pos mz < 2 ^ 53).
  { rewrite Hfst, H52, H53. split.
    - apply Z.mul_le_mono_nonneg_r; lia.
    - apply Z.mul_lt_mono_pos_r; lia. }
  assert (Hdz : Z.pos (digits2_pos mz) = 53)
    by (apply digits2_pos_unique; change (53 - 1) with 52; exact Hmz).
  destruct (binary_round_aux_locates s mz (dd - 53) loc_Exact (Z.pos mz) 1)
    as (m3 & e3 & Heq & Hm3 & He3 & Herr).
  { lia. }
  { unfold locates. simpl. lia. }
  { lia. }
  { lia. }
  rewrite Hdz in He3, Herr. change (2 ^ (53 - 53)) with 1 in Herr.
  exists mz. split; [|split; assumption].
  rewrite Heq. destruct He3 as [He3|He3].
  - replace (e3 - (dd - 53)) with 0 in Herr by lia. change (2 ^ 0) with 1 in Herr.
    assert (m3 = mz) by lia. subst m3.
    replace e3 with (dd - 53) by lia.
    destruct (dd - 53 <=? 971) eqn:Hle; [reflexivity|]. apply Z.leb_gt in Hle. lia.
  - replace (e3 - (dd - 53)) with 1 in Herr by lia. change (2 ^ 1) with 2 in Herr. lia.
Qed.

(** The divisor [365.25] is [1461 * 2^42 * 2^-44]. *)
Lemma days_per_year_value :
  days_per_year = S754_finite false 6425545952722944 (-44) /\
  6425545952722944 = 1461 * 2 ^ 42.
Proof. split; reflexivity. Qed.

(** The integer division at the heart of the float division. *)
Lemma SFdiv_core_eq (m1 e1 m2 e2 : Z) :
  SFdiv_core_binary 53 1024 m1 e1 m2 e2 =
  let e' := Z.min (Z.max (Zdigits2 m1 + e1 - (Zdigits2 m2 + e2) - 53) (-1074)) (e1 - e2) in
  let s := e1 - e2 - e' in
  let m' := match s with Z.pos _ => Z.shiftl m1 s | 0 => m1 | Z.neg _ => 0 end in
  let '(q, r) := Z.div_eucl m' m2 in (q, e', new_location m2 r).
Proof. reflexivity. Qed.

(** A normal number divided by [365.25]. *)
Lemma div_days_per_year (s : bool) (mx : positive) (ex : Z) :
  Z.pos (digits2_pos mx) = 53 -> -1000 <= ex <= 900 ->
  exists m3 e3 w,
    F64.div (S754_finite s mx ex) days_per_year = S754_finite s m3 e3 /\
    2 ^ 52 <= Z.pos m3 < 2 ^ 53 /\
    e3 = ex - 9 + w /\ 0 <= w <= 2 /\
    2 * Z.abs (Z.pos m3 * 2 ^ w * (1461 * 2 ^ 42) - Z.pos mx * 2 ^ 53)
      <= 1461 * 2 ^ 42 * 2 ^ w.
Proof.
  intros Hdx Hex.
  destruct (digits2_pos_bounds mx) as [Xlo Xhi]. rewrite Hdx in Xlo, Xhi.
  change (53 - 1) with 52 in Xlo.
  change (F64.div (S754_finite s mx ex) days_per_year)
    with (SFdiv 53 1024 (S754_finite s mx ex) (S754_finite false 6425545952722944 (-44))).
  unfold SFdiv. rewrite SFdiv_core_eq.
  change (Zdigits2 (Z.pos mx)) with (Z.pos (digits2_pos mx)). rewrite Hdx.
  change (Zdigits2 6425545952722944) with 53.
  cbv zeta.
  replace (Z.min (Z.max (53 + ex - (53 + -44) - 53) (-1074)) (ex - -44)) with (ex - 9) by lia.
  replace (ex - -44 - (ex - 9)) with 53 by lia.
  rewrite Z.shiftl_mul_pow2 by lia.
  set (my := 6425545952722944) in *.
  pose proof (Z_div_mod (Z.pos mx * 2 ^ 53) my ltac:(unfold my; lia)) as Hdm.
  destruct (Z.div_eucl (Z.pos mx * 2 ^ 53) my) as [q r]. destruct Hdm as [Hdm Hr].
  assert (Hmy : 2 ^ 52 <= my < 2 ^ 53) by (unfold my; split; [discriminate | reflexivity]).
  assert (Hq : 2 ^ 52 <= q < 2 ^ 54).
  { split.
    - destruct (Z_lt_le_dec q (2 ^ 52)) as [Hlt|?]; [|assumption].
      assert (my * (q + 1) <= my * 2 ^ 52) by (apply Z.mul_le_mono_nonneg_l; lia).
      assert (2 ^ 52 * 2 ^ 53 <= Z.pos mx * 2 ^ 53) by (apply Z.mul_le_mono_nonneg_r; lia).
      assert (my * 2 ^ 52 < 2 ^ 53 * 2 ^ 52) by (apply Z.mul_lt_mono_pos_r; lia).
      lia.
    - destruct (Z_lt_le_dec q (2 ^ 54)) as [?|Hge]; [assumption|].
      assert (my * 2 ^ 54 <= my * q) by (apply Z.mul_le_mono_nonneg_l; lia).
      assert (2 ^ 52 * 2 ^ 54 <= my * 2 ^ 54) by (apply Z.mul_le_mono_nonneg_r; lia).
      assert (Z.pos mx * 2 ^ 53 < 2 ^ 53 * 2 ^ 53) by (apply Z.mul_lt_mono_pos_r; lia).
      change (2 ^ 52 * 2 ^ 54) with (2 ^ 53 * 2 ^ 53) in *. lia. }
  destruct q as [|q|q]; try lia.
  destruct (digits2_pos_bounds q) as [Qlo Qhi].
  set (dq := Z.pos (digits2_pos q)) in *.
  assert (Hdq : 53 <= dq <= 54).
  { split.
    - destruct (Z_lt_le_dec dq 53) as [Hlt|?]; [|assumption].
      assert (2 ^ dq <= 2 ^ 52) by (apply Z.pow_le_mono_r; lia). lia.
    - destruct (Z_lt_le_dec 54 dq) as [Hlt|?]; [|assumption].
      assert (2 ^ 54 <= 2 ^ (dq - 1)) by (apply Z.pow_le_mono_r; lia). lia. }
  destruct (binary_round_aux_locates (xorb s false) q (ex - 9) (new_location my r)
              (Z.pos mx * 2 ^ 53) my) as (m3 & e3 & Heq & Hm3 & He3 & Herr).
  { unfold my; lia. }
  { unfold locates. rewrite shr_m_of_loc. change (2 ^ 0) with 1. rewrite Z.mul_1_r.
    split; [lia|]. split; [lia|].
    unfold new_location. change (Z.even my) with true. unfold new_location_even.
    destruct (r =? 0) eqn:Hr0.
    - apply Z.eqb_eq in Hr0. cbv [shr_record_of_loc shr_r shr_s]. lia.
    - apply Z.eqb_neq in Hr0. destruct (2 * r ?= my) eqn:Hc; cbv [shr_record_of_loc shr_r shr_s].
      + apply Z.compare_eq in Hc. lia.
      + change (2 * r < my) in Hc. lia.
      + apply Z.compare_gt_iff in Hc. lia. }
  { fold dq. lia. }
  { fold dq. lia. }
  fold dq in He3, Herr. rewrite xorb_false_r in Heq |- *.
  exists m3. exists e3. exists (e3 - (ex - 9)).
  assert (He3' : (e3 <=? 971) = true) by (apply Z.leb_le; lia).
  rewrite He3' in Heq.
  split; [exact Heq|]. split; [exact Hm3|]. split; [lia|]. split; [lia|].
  change (1461 * 2 ^ 42) with my.
  assert (Hw : my * 2 ^ (dq - 53) <= my * 2 ^ (e3 - (ex - 9))).
  { apply Z.mul_le_mono_nonneg_l; [lia|]. apply Z.pow_le_mono_r; lia. }
  lia.
Qed.

(** [int(days / 365.25)] for a day count below [2^31] in magnitude: the
    quotient of [4 * days] by [1461], truncated towards zero. *)
Lemma trunc_div_days (s : bool) (p : positive) :
  Z.pos p < 2 ^ 31 ->
  F64.trunc (F64.div (binary_round 53 1024 s p 0) days_per_year)
  = Ok (if s then - (4 * Z.pos p / 1461) else 4 * Z.pos p / 1461).
Proof.
  intros Hp.
  destruct (digits2_pos_bounds p) as [Plo Phi].
  destruct (binary_round_integer s p) as (mz & -> & Hmz & Hdz).
  { assert (2 ^ 31 <= 2 ^ 53) by (apply Z.pow_le_mono_r; lia). lia. }
  set (dd := Z.pos (digits2_pos p)) in *.
  assert (Hdd : 1 <= dd <= 31).
  { split; [unfold dd; lia|].
    destruct (Z_lt_le_dec 31 dd) as [Hlt|?]; [|assumption].
    assert (2 ^ 31 <= 2 ^ (dd - 1)) by (apply Z.pow_le_mono_r; lia). lia. }
  destruct (div_days_per_year s mz (dd - 53) Hdz ltac:(lia))
    as (m3 & e3 & w & -> & Hm3 & He3 & Hw & Herr).
  unfold F64.trunc.
  assert (Hneg : (0 <=? e3) = false) by (apply Z.leb_gt; lia).
  rewrite Hneg.
  set (K := 2 ^ (- e3)).
  assert (HK : 2 ^ 29 <= K) by (apply Z.pow_le_mono_r; lia).
  set (A := 2 ^ (42 + w)).
  assert (HA : 0 < A) by (apply Z.pow_pos_nonneg; lia).
  assert (E1 : Z.pos mz * 2 ^ 53 = 4 * Z.pos p * K * A).
  { rewrite Hmz. unfold K, A. change 4 with (2 ^ 2).
    rewrite <- !Z.mul_assoc, <- !Z.pow_add_r by lia.
    rewrite (Z.mul_comm (2 ^ 2)), <- !Z.mul_assoc, <- !Z.pow_add_r by lia.
    f_equal. f_equal. lia. }
  assert (E2 : Z.pos m3 * 2 ^ w * (1461 * 2 ^ 42) = 1461 * Z.pos m3 * A).
  { unfold A. rewrite Z.pow_add_r by lia. ring. }
  assert (E3 : 1461 * 2 ^ 42 * 2 ^ w = 1461 * A).
  { unfold A. rewrite Z.pow_add_r by lia. ring. }
  rewrite E1, E2, E3 in Herr.
  replace (1461 * Z.pos m3 * A - 4 * Z.pos p * K * A)
    with ((1461 * Z.pos m3 - 4 * Z.pos p * K) * A) in Herr by ring.
  rewrite Z.abs_mul, (Z.abs_eq A), Z.mul_assoc in Herr by lia.
  apply Z.mul_le_mono_pos_r in Herr; [|exact HA].
  pose proof (Z_div_mod_eq_full (4 * Z.pos p) 1461) as Hdiv.
  pose proof (Z.mod_pos_bound (4 * Z.pos p) 1461 ltac:(lia)) as Hmod.
  set (n0 := 4 * Z.pos p / 1461) in *. set (rho := (4 * Z.pos p) mod 1461) in *.
  assert (E4 : 4 * Z.pos p * K = 1461 * (n0 * K) + rho * K) by (rewrite Hdiv; ring).
  assert (HY : 0 <= rho * K <= 1460 * K).
  { split; [apply Z.mul_nonneg_nonneg; lia | apply Z.mul_le_mono_nonneg_r; lia]. }
  assert (HY1 : rho = 0 \/ K <= rho * K).
  { destruct (Z.eq_dec rho 0) as [?|Hne]; [left; assumption | right].
    replace K with (1 * K) at 1 by ring. apply Z.mul_le_mono_nonneg_r; lia. }
  change (2 ^ 29) with 536870912 in HK.
  assert (Hq : Z.pos m3 / K = n0).
  { symmetry. apply Z.div_unique with (Z.pos m3 - n0 * K); [left | ring].
    rewrite E4 in Herr. set (X := n0 * K) in *. set (Y := rho * K) in *.
    destruct HY1 as [H0|H1].
    - assert (Y = 0) by (unfold Y; rewrite H0; ring). lia.
    - lia. }
  fold K. rewrite Hq. reflexivity.
Qed.

(** The age that the code computes is the quotient of [4 * days] by 1461,
    truncated towards zero. *)
Lemma calculate_age_truncation (birth_date valuation_date : datetime) :
  let days := timedelta_days valuation_date birth_date + 1 in
  - 2 ^ 31 < days < 2 ^ 31 ->
  calculate_age birth_date valuation_date = Ok (Z.quot (4 * days) 1461).
Proof.
  intros days Hd. rewrite calculate_age_unfold. fold days.
  destruct days as [|p|p].
  - reflexivity.
  - change (F64.of_Z (Z.pos p)) with (binary_round 53 1024 false p 0).
    rewrite trunc_div_days by lia.
    rewrite Z.quot_div_nonneg by lia. reflexivity.
  - change (F64.of_Z (Z.neg p)) with (binary_round 53 1024 true p 0).
    rewrite trunc_div_days by lia.
    change (Z.neg p) with (- Z.pos p).
    rewrite Z.mul_opp_r, Z.quot_opp_l by lia.
    rewrite Z.quot_div_nonneg by lia. reflexivity.
Qed.

(** From the valuation date backwards the truncation is the floor of the
    specification. *)
Lemma calculate_age_floor (birth_date valuation_date : datetime) :
  let days := timedelta_days valuation_date birth_date + 1 in
  0 <= days < 2 ^ 31 ->
  calculate_age birth_date valuation_date = Ok (floor_age days).
Proof.
  intros days Hd. unfold floor_age.
  rewrite <- Z.quot_div_nonneg by lia.
  apply calculate_age_truncation. fold days. lia.
Qed.

(** For a birth date after the valuation date it is one above the floor,
    unless the quotient is exact. *)
Lemma calculate_age_above_floor (birth_date valuation_date : datetime) :
  let days := timedelta_days valuation_date birth_date + 1 in
  - 2 ^ 31 < days < 0 -> (4 * days) mod 1461 <> 0 ->
  calculate_age birth_date valuation_date = Ok (floor_age days + 1).
Proof.
  intros days Hd Hmod. unfold floor_age.
  rewrite (calculate_age_truncation birth_date valuation_date) by (fold days; lia).
  fold days. f_equal.
  replace (4 * days) with (- (- (4 * days))) at 1 by lia.
  rewrite Z.quot_opp_l, Z.quot_div_nonneg by lia.
  Z.div_mod_to_equations. lia.
Qed.

Lemma datetime_new_valid (y m d H M S : Z) (dt : datetime) :
  datetime_new y m d H M S = Ok dt -> valid_datetime dt.
Proof.
  unfold datetime_new.
  match goal with |- context [if ?b then _ else _] => destruct b eqn:Hb end; [|discriminate].
  intros [= <-]. repeat (apply andb_true_iff in Hb as [Hb ?]).
  unfold valid_datetime. simpl.
  repeat match goal with Hx : (_ <=? _) = true |- _ => apply Z.leb_le in Hx end. lia.
Qed.

Lemma parse_date_valid (s : string) (dt : datetime) : parse_date s = Ok dt -> valid_datetime dt.
Proof.
  intros H. apply try_formats_Ok in H as (pre & fmt & post & _ & H & _).
  unfold strptime in H.
  destruct (compile_format false (chars fmt)) as [items|]; [|discriminate].
  destruct (match_items items (strip (chars s))) as [[fs [|c r]]|]; try discriminate.
  eapply datetime_new_valid, H.
Qed.

Lemma days_in_month_bounds (y m : Z) : 28 <= days_in_month y m <= 31.
Proof.
  unfold days_in_month. destruct (m =? 2); [destruct (is_leap y); lia|].
  destruct ((m =? 4) || (m =? 6) || (m =? 9) || (m =? 11)); lia.
Qed.

Lemma days_before_month_bounds (y m : Z) : 1 <= m <= 12 -> 0 <= days_before_month y m <= 341.
Proof.
  intros Hm. unfold days_before_month.
  assert (Hgen : forall l acc, 0 <= acc ->
            acc <= fold_left (fun a k => a + days_in_month y k) l acc
                <= acc + 31 * Z.of_nat (length l)).
  { induction l as [|k l IH]; intros acc Hacc; simpl fold_left; simpl length; [lia|].
    pose proof (days_in_month_bounds y k).
    specialize (IH (acc + days_in_month y k) ltac:(lia)). lia. }
  specialize (Hgen (map Z.of_nat (seq 1 (Z.to_nat (m - 1)))) 0 ltac:(lia)).
  rewrite length_map, length_seq in Hgen. lia.
Qed.

(** The ordinal of a valid date is far below [2^31]. *)
Lemma toordinal_bounds (d : datetime) : valid_datetime d -> 1 <= toordinal d <= 4000000.
Proof.
  intros (Hy & Hm & Hd & _). unfold toordinal, days_before_year.
  pose proof (days_before_month_bounds (year d) (month d) Hm).
  pose proof (days_in_month_bounds (year d) (month d)).
  Z.div_mod_to_equations. lia.
Qed.

Lemma timedelta_days_bounds (a b : datetime) :
  valid_datetime a -> valid_datetime b -> - 2 ^ 31 < timedelta_days a b + 1 < 2 ^ 31.
Proof.
  intros Ha Hb. pose proof (toordinal_bounds a Ha). pose proof (toordinal_bounds b Hb).
  destruct Ha as (_ & _ & _ & ? & ? & ?). destruct Hb as (_ & _ & _ & ? & ? & ?).
  unfold timedelta_days, seconds_of_day. change (2 ^ 31) with 2147483648.
  Z.div_mod_to_equations. lia.
Qed.

(** On dates that [datetime] accepts, the age is always computed. *)
Lemma calculate_age_total (birth_date valuation_date : datetime) :
  valid_datetime birth_date -> valid_datetime valuation_date ->
  calculate_age birth_date valuation_date
  = Ok (Z.quot (4 * (timedelta_days valuation_date birth_date + 1)) 1461).
Proof.
  intros Hb Hv. apply calculate_age_truncation, timedelta_days_bounds; assumption.
Qed.

(** Reading rows keeps the dates of the state valid. *)
Lemma process_row_valid (st st' : parse_state) (row : list string) :
  valid_state st -> process_row st row = Ok st' -> valid_state st'.
Proof.
  intros [Hv He]. unfold process_row.
  destruct (blank_row row); [intros [= <-]; split; assumption|].
  destruct (assumption_row st row) as [[sta|]|e] eqn:Ha; unfold rbind at 1; try discriminate.
  - intros [= <-]. unfold assumption_row in Ha.
    destruct (2 <=? length row)%nat; [|discriminate].
    destruct (cell row 0) as [c0|]; simpl in Ha; [|discriminate].
    destruct (key_is c0 "valuation_date").
    { destruct (cell row 1) as [c1|]; simpl in Ha; [|discriminate].
      destruct (parse_date c1) as [d|] eqn:Hd; simpl in Ha; [|discriminate].
      injection Ha as <-. split; [apply (parse_date_valid _ _ Hd) | exact He]. }
    destruct (key_is c0 "discount_rate").
    { destruct (cell row 1) as [c1|]; simpl in Ha; [|discriminate].
      destruct (py_float c1); simpl in Ha; [|discriminate].
      injection Ha as <-. split; assumption. }
    destruct (key_is c0 "salary_increase_rate").
    { destruct (cell row 1) as [c1|]; simpl in Ha; [|discriminate].
      destruct (py_float c1); simpl in Ha; [|discriminate].
      injection Ha as <-. split; assumption. }
    destruct (key_is c0 "retirement_age"); [|discriminate].
    destruct (cell row 1) as [c1|]; simpl in Ha; [|discriminate].
    destruct (py_int c1); simpl in Ha; [|discriminate].
    injection Ha as <-. split; assumption.
  - destruct (5 <=? length row)%nat; [|intros [= <-]; split; assumption].
    destruct (cell row 0) as [c0|]; simpl; [|discriminate].
    destruct (is_header_key c0); [intros [= <-]; split; assumption|].
    destruct (employee_row row) as [emp|e] eqn:Hemp.
    + intros [= <-]. split; [exact Hv|]. simpl. apply Forall_app. split; [exact He|].
      constructor; [|constructor].
      unfold employee_row in Hemp.
      destruct (cell row 0) as [x0|]; simpl in Hemp; [|discriminate].
      destruct (cell row 1) as [x1|]; simpl in Hemp; [|discriminate].
      destruct (cell row 2) as [x2|]; simpl in Hemp; [|discriminate].
      destruct (parse_date x2) as [birth|] eqn:Hb; simpl in Hemp; [|discriminate].
      destruct (cell row 3) as [x3|]; simpl in Hemp; [|discriminate].
      destruct (parse_date x3) as [joining|]; simpl in Hemp; [|discriminate].
      destruct (cell row 4) as [x4|]; simpl in Hemp; [|discriminate].
      destruct (py_float _) as [sal|]; simpl in Hemp; [|discriminate].
      injection Hemp as <-. simpl. apply (parse_date_valid _ _ Hb).
    + destruct e; intros [= <-] || discriminate; split; assumption.
Qed.

Lemma process_rows_valid (rows : list (list string)) :
  forall st st', valid_state st -> process_rows st rows = Ok st' -> valid_state st'.
Proof.
  induction rows as [|row rows IH]; intros st st' Hv; simpl.
  - intros [= <-]. exact Hv.
  - destruct (process_row st row) as [st1|e] eqn:H1; simpl; [|discriminate].
    apply IH. eapply process_row_valid; eassumption.
Qed.

Lemma initial_state_valid : valid_state initial_state.
Proof. split; [|constructor]. unfold valid_datetime. vm_compute. intuition discriminate. Qed.

Lemma project_all_total (probability_table : gmap Z (spec_float * spec_float))
    (st : parse_state) (emps : list employee) :
  probability_table ≠ ∅ ->
  valid_datetime (valuation_date st) ->
  Forall (fun e => valid_datetime (date_birth e)) emps ->
  exists out, project_all probability_table st emps = Ok out.
Proof.
  intros Hne Hv. induction 1 as [|emp emps Hemp _ IH]; simpl.
  - exists []. reflexivity.
  - unfold project_employee. rewrite (calculate_age_total _ _ Hemp Hv). simpl.
    destruct (project_ages_total probability_table (salary_increase_rate st) emp
                (py_range (Z.quot (4 * (timedelta_days (valuation_date st) (date_birth emp) + 1)) 1461)
                          (retirement_age st)) Hne
                (F64.mul (salary emp) (growth (salary_increase_rate st)))) as [rows ->].
    simpl. destruct IH as [rest ->]. simpl. eexists. reflexivity.
Qed.

(** A run raises only while it reads the rows: the projection always
    succeeds. *)
Lemma process_cashflow_raises_only_in_rows (rows : list (list string)) :
  (forall e, process_cashflow rows = Raise e <-> process_rows initial_state rows = Raise e) /\
  (is_ok (process_cashflow rows) = is_ok (process_rows initial_state rows)).
Proof.
  unfold process_cashflow.
  destruct (process_rows initial_state rows) as [st|e0] eqn:Hrows; simpl.
  - destruct (process_rows_valid rows _ _ initial_state_valid Hrows) as [Hv He].
    destruct (project_all_total DEFAULT_PROBABILITY_TABLE st (employees st)
                default_table_nonempty Hv He) as [out ->].
    simpl. split; [intros e; split; discriminate | reflexivity].
  - split; [intros e; split; intros [= ->]; reflexivity | reflexivity].
Qed.

(** * Further properties *)

(** ** The age, its exactness and its order *)

Ltac valid_dates :=
  repeat match goal with
         | |- valid_datetime _ => unfold valid_datetime; vm_compute; intuition discriminate
         end.

Lemma seconds_of_day_bounds (d : datetime) : valid_datetime d -> 0 <= seconds_of_day d < 86400.
Proof. unfold valid_datetime, seconds_of_day. lia. Qed.

Lemma timedelta_days_timestamp (a b : datetime) :
  timedelta_days a b = (timestamp a - timestamp b) / 86400.
Proof.
  unfold timedelta_days, timestamp.
  replace (toordinal a * 86400 + seconds_of_day a - (toordinal b * 86400 + seconds_of_day b))
    with ((toordinal a - toordinal b) * 86400 + (seconds_of_day a - seconds_of_day b)) by lia.
  rewrite Z.div_add_l by lia. reflexivity.
Qed.

Lemma timedelta_days_time_of_day (a b : datetime) :
  valid_datetime a -> valid_datetime b ->
  timedelta_days a b
  = toordinal a - toordinal b - (if seconds_of_day a <? seconds_of_day b then 1 else 0).
Proof.
  intros Ha Hb. apply seconds_of_day_bounds in Ha, Hb. unfold timedelta_days.
  destruct (Z.ltb_spec (seconds_of_day a) (seconds_of_day b)).
  - replace ((seconds_of_day a - seconds_of_day b) / 86400) with (-1); [lia|].
    apply Z.div_unique with (r := seconds_of_day a - seconds_of_day b + 86400); lia.
  - rewrite Z.div_small by lia. lia.
Qed.

(** X1: for all dates that [datetime] accepts the age is computed (no
    exception) and is the number of whole periods of 365.25 days in the day
    count: the division in binary64 never moves an age across a boundary. *)
Theorem calculate_age_whole_periods (birth_date valuation_date : datetime) :
  valid_datetime birth_date -> valid_datetime valuation_date ->
  let days := timedelta_days valuation_date birth_date + 1 in
  exists age,
    calculate_age birth_date valuation_date = Ok age /\
    (0 <= days -> 1461 * age <= 4 * days < 1461 * (age + 1)) /\
    (days <= 0 -> 1461 * (age - 1) < 4 * days <= 1461 * age).
Proof.
  intros Hb Hv days. exists (Z.quot (4 * days) 1461). split.
  - apply calculate_age_total; assumption.
  - split; intros Hd.
    + rewrite Z.quot_div_nonneg by lia. Z.div_mod_to_equations. lia.
    + replace (4 * days) with (- (- (4 * days))) by lia.
      rewrite Z.quot_opp_l by lia. rewrite Z.quot_div_nonneg by lia.
      Z.div_mod_to_equations. lia.
Qed.

Lemma calculate_age_whole_periods_witness :
  exists age,
    calculate_age (mk_datetime 2000 2 29 0 0 0) (mk_datetime 2024 2 28 0 0 0) = Ok age /\
    (0 <= timedelta_days (mk_datetime 2024 2 28 0 0 0) (mk_datetime 2000 2 29 0 0 0) + 1 ->
     1461 * age
     <= 4 * (timedelta_days (mk_datetime 2024 2 28 0 0 0) (mk_datetime 2000 2 29 0 0 0) + 1)
     < 1461 * (age + 1)) /\
    (timedelta_days (mk_datetime 2024 2 28 0 0 0) (mk_datetime 2000 2 29 0 0 0) + 1 <= 0 ->
     1461 * (age - 1)
     < 4 * (timedelta_days (mk_datetime 2024 2 28 0 0 0) (mk_datetime 2000 2 29 0 0 0) + 1)
     <= 1461 * age).
Proof.
  apply (calculate_age_whole_periods (mk_datetime 2000 2 29 0 0 0) (mk_datetime 2024 2 28 0 0 0));
    unfold valid_datetime; vm_compute; intuition discriminate.
Defined.

(** X2: the age is monotone: an earlier birth never gives a smaller age, a
    later valuation date never gives a smaller age. *)
Theorem calculate_age_monotone (b1 b2 v1 v2 : datetime) :
  valid_datetime b1 -> valid_datetime b2 -> valid_datetime v1 -> valid_datetime v2 ->
  timestamp b1 <= timestamp b2 -> timestamp v1 <= timestamp v2 ->
  exists older younger later,
    calculate_age b1 v1 = Ok older /\
    calculate_age b2 v1 = Ok younger /\
    calculate_age b1 v2 = Ok later /\
    younger <= older <= later.
Proof.
  intros Hb1 Hb2 Hv1 Hv2 Hb Hv.
  do 3 eexists.
  rewrite !calculate_age_total by assumption.
  repeat split; try reflexivity.
  - apply Z.quot_le_mono; [lia|].
    rewrite !timedelta_days_timestamp.
    assert ((timestamp v1 - timestamp b2) / 86400 <= (timestamp v1 - timestamp b1) / 86400)
      by (apply Z.div_le_mono; lia).
    lia.
  - apply Z.quot_le_mono; [lia|].
    rewrite !timedelta_days_timestamp.
    assert ((timestamp v1 - timestamp b1) / 86400 <= (timestamp v2 - timestamp b1) / 86400)
      by (apply Z.div_le_mono; lia).
    lia.
Qed.

Lemma calculate_age_monotone_witness :
  exists older younger later,
    calculate_age (mk_datetime 1970 1 1 0 0 0) (mk_datetime 2024 12 31 0 0 0) = Ok older /\
    calculate_age (mk_datetime 1980 6 15 0 0 0) (mk_datetime 2024 12 31 0 0 0) = Ok younger /\
    calculate_age (mk_datetime 1970 1 1 0 0 0) (mk_datetime 2030 1 1 0 0 0) = Ok later /\
    younger <= older <= later.
Proof.
  apply (calculate_age_monotone (mk_datetime 1970 1 1 0 0 0) (mk_datetime 1980 6 15 0 0 0)
           (mk_datetime 2024 12 31 0 0 0) (mk_datetime 2030 1 1 0 0 0));
    valid_dates; vm_compute; discriminate.
Defined.

(** X3: the day count is the difference of the two day numbers, less one
    when the time of day of the valuation date is earlier than that of the
    birth date; the age is computed from it. *)
Theorem calculate_age_time_of_day (birth_date valuation_date : datetime) :
  valid_datetime birth_date -> valid_datetime valuation_date ->
  let whole_days :=
    toordinal valuation_date - toordinal birth_date
    - (if seconds_of_day valuation_date <? seconds_of_day birth_date then 1 else 0) in
  timedelta_days valuation_date birth_date = whole_days /\
  calculate_age birth_date valuation_date = Ok (Z.quot (4 * (whole_days + 1)) 1461).
Proof.
  intros Hb Hv whole_days.
  assert (E : timedelta_days valuation_date birth_date = whole_days)
    by (apply timedelta_days_time_of_day; assumption).
  split; [exact E|]. rewrite calculate_age_total by assumption. rewrite E. reflexivity.
Qed.

Lemma calculate_age_time_of_day_witness :
  let birth_date := mk_datetime 2023 12 31 12 0 0 in
  let valuation_date := mk_datetime 2024 12 30 0 0 0 in
  let whole_days :=
    toordinal valuation_date - toordinal birth_date
    - (if seconds_of_day valuation_date <? seconds_of_day birth_date then 1 else 0) in
  timedelta_days valuation_date birth_date = whole_days /\
  calculate_age birth_date valuation_date = Ok (Z.quot (4 * (whole_days + 1)) 1461).
Proof.
  apply (calculate_age_time_of_day (mk_datetime 2023 12 31 12 0 0) (mk_datetime 2024 12 30 0 0 0));
    valid_dates.
Defined.

(** ** The dates that the parser returns *)

Lemma first_some_Some {A B : Type} (f : A -> option B) (l : list A) (b : B) :
  first_some f l = Some b -> exists a, In a l /\ f a = Some b.
Proof.
  induction l as [|a l IH]; simpl; [discriminate|].
  destruct (f a) eqn:E.
  - intros [= ->]. exists a. auto.
  - intros H. destruct (IH H) as (a' & Hin & Ha'). exists a'. auto.
Qed.

Lemma match_items_directives (items : list fmt_item) :
  forall s fs r, match_items items s = Some (fs, r) -> map fst fs = directives items.
Proof.
  induction items as [|it items IH]; intros s fs r H.
  - simpl in H. injection H as <- <-. reflexivity.
  - destruct it as [d|c|]; simpl in H.
    + apply first_some_Some in H. destruct H as (ks & _ & H).
      destruct (match_classes ks s) as [[t r']|]; [|discriminate].
      destruct (match_items items r') as [[fs' rest]|] eqn:E; [|discriminate].
      injection H as <- <-. simpl. f_equal. eapply IH; eassumption.
    + destruct s as [|x s']; [discriminate|].
      destruct (ascii_eqb c x); [|discriminate]. simpl. eapply IH; eassumption.
    + apply first_some_Some in H. destruct H as (s' & _ & H). simpl. eapply IH; eassumption.
Qed.

Lemma field_absent (d : directive) (default : Z) (fs : list (directive * list ascii)) :
  ~ In d (map fst fs) -> field d default fs = default.
Proof.
  intros Hn. unfold field.
  destruct (find (fun p => directive_eqb (fst p) d) fs) as [[d' t]|] eqn:E; [|reflexivity].
  apply find_some in E. destruct E as [Hin Heq]. simpl in Heq.
  exfalso. apply Hn. apply in_map_iff. exists (d', t). split; [|exact Hin].
  simpl. destruct d', d; simpl in Heq; congruence.
Qed.

Lemma strptime_date_only (s : list ascii) (fmt : string) (items : list fmt_item) (d : datetime) :
  compile_format false (chars fmt) = Some items ->
  ~ In dir_H (directives items) -> ~ In dir_M (directives items) ->
  ~ In dir_S (directives items) ->
  strptime s fmt = Ok d -> hour d = 0 /\ minute d = 0 /\ second d = 0.
Proof.
  intros Hc HH HM HS. unfold strptime. rewrite Hc.
  destruct (match_items items s) as [[fs [|x r]]|] eqn:E; try discriminate.
  apply match_items_directives in E.
  rewrite (field_absent dir_H), (field_absent dir_M), (field_absent dir_S) by (rewrite E; assumption).
  unfold datetime_new. case_match; [|discriminate]. intros [= <-]. auto.
Qed.

(** X4: a date that [parse_date] returns is a date of the calendar, and its
    time of day is midnight unless the format with a time parsed it. *)
Theorem parse_date_calendar_date (date_str : string) (d : datetime) :
  parse_date date_str = Ok d ->
  valid_datetime d /\
  (strptime (strip (chars date_str)) "%Y-%m-%d %H:%M:%S" = Ok d \/
   (hour d = 0 /\ minute d = 0 /\ second d = 0)).
Proof.
  intros H. split; [eapply parse_date_valid; eassumption|].
  unfold parse_date in H. apply try_formats_Ok in H.
  destruct H as (pre & fmt & post & Hf & Hs & _).
  assert (Hin : In fmt formats) by (rewrite Hf; apply in_or_app; right; left; reflexivity).
  unfold formats in Hin. simpl in Hin.
  destruct Hin as [<-|[<-|[<-|[<-|[<-|[]]]]]].
  all: try (right;
            match type of Hs with
            | strptime ?s ?f = _ =>
                eapply (strptime_date_only s f); [vm_compute; reflexivity| | | |exact Hs];
                simpl; intuition discriminate
            end).
  left. exact Hs.
Qed.

Lemma parse_date_calendar_date_witness :
  valid_datetime (mk_datetime 2024 2 29 18 30 0) /\
  (strptime (strip (chars " 2024-02-29 18:30:00")) "%Y-%m-%d %H:%M:%S"
     = Ok (mk_datetime 2024 2 29 18 30 0) \/
   (hour (mk_datetime 2024 2 29 18 30 0) = 0 /\ minute (mk_datetime 2024 2 29 18 30 0) = 0 /\
    second (mk_datetime 2024 2 29 18 30 0) = 0)).
Proof.
  apply (parse_date_calendar_date " 2024-02-29 18:30:00"). vm_compute. reflexivity.
Defined.

(** ** Numerals *)

Lemma digit_char (c : ascii) :
  isdigit c = true ->
  isspace_num c = false /\ ascii_eqb c "_" = false /\ ascii_eqb c "-" = false /\
  ascii_eqb c "+" = false /\ ascii_eqb c "," = false /\ ascii_eqb c "." = false /\
  lower_char c = c /\ ascii_eqb c "i" = false /\ ascii_eqb c "n" = false.
Proof.
  unfold isdigit, isspace_num, ascii_eqb, lower_char. intros H.
  apply andb_true_iff in H as [H1 H2]. apply Z.leb_le in H1, H2.
  change (code "_") with 95. change (code "-") with 45. change (code "+") with 43.
  change (code ",") with 44. change (code ".") with 46.
  change (code "i") with 105. change (code "n") with 110.
  repeat split; try (apply Z.eqb_neq; lia).
  - apply orb_false_iff. split; [apply andb_false_iff; right; apply Z.leb_gt; lia|].
    apply Z.eqb_neq; lia.
  - replace (65 <=? code c) with false by (symmetry; apply Z.leb_gt; lia). reflexivity.
Qed.

Lemma strip_with_ends (p : ascii -> bool) (a b : ascii) (l : list ascii) :
  p a = false -> p b = false -> strip_with p (a :: l ++ [b]) = a :: l ++ [b].
Proof.
  intros Ha Hb. unfold strip_with. cbn [skip]. rewrite Ha.
  change (a :: l ++ [b]) with ((a :: l) ++ [b]). rewrite rev_app_distr. cbn [rev app skip].
  rewrite Hb. change (b :: rev l ++ [a]) with ([b] ++ rev (a :: l)).
  rewrite rev_app_distr, rev_involutive. reflexivity.
Qed.

Lemma strip_with_single (p : ascii -> bool) (a : ascii) :
  p a = false -> strip_with p [a] = [a].
Proof. intros Ha. unfold strip_with. cbn. rewrite Ha. cbn. rewrite Ha. reflexivity. Qed.

Lemma strip_with_keeps (p : ascii -> bool) (l : list ascii) :
  match l with [] => True | a :: _ => p a = false end ->
  match rev l with [] => True | b :: _ => p b = false end ->
  strip_with p l = l.
Proof.
  intros Ha Hb. unfold strip_with.
  assert (E : skip p l = l) by (destruct l as [|a l]; [reflexivity|cbn; rewrite Ha; reflexivity]).
  rewrite E.
  assert (E' : skip p (rev l) = rev l)
    by (destruct (rev l) as [|b t]; [reflexivity|cbn; rewrite Hb; reflexivity]).
  rewrite E'. apply rev_involutive.
Qed.

Lemma drop_underscores_none (l : list ascii) :
  Forall (fun c => ascii_eqb c "_" = false) l ->
  forall prev,
    match prev with Some p => ascii_eqb p "_" = false | None => True end ->
    drop_underscores prev l = Some l.
Proof.
  induction 1 as [|c l Hc _ IH]; intros prev Hp.
  - simpl. destruct prev as [p|]; [rewrite Hp|]; reflexivity.
  - cbn [drop_underscores]. rewrite Hc.
    replace (match prev with Some p => ascii_eqb p "_" | None => false end) with false
      by (destruct prev; [rewrite Hp|]; reflexivity).
    cbn [andb]. rewrite (IH (Some c) Hc). reflexivity.
Qed.

Lemma span_digits_app (ds rest : list ascii) :
  all_digits ds ->
  match rest with [] => True | c :: _ => isdigit c = false end ->
  span_digits (ds ++ rest) = (ds, rest).
Proof.
  intros Hd Hr. induction Hd as [|c ds Hc _ IH].
  - destruct rest as [|c r]; [reflexivity|]. cbn. rewrite Hr. reflexivity.
  - cbn. rewrite Hc, IH. reflexivity.
Qed.

Lemma span_digits_all (ds : list ascii) : all_digits ds -> span_digits ds = (ds, []).
Proof.
  intros H. pose proof (span_digits_app ds [] H I) as E. rewrite app_nil_r in E. exact E.
Qed.

Lemma lower_digits (l : list ascii) : all_digits l -> lower l = l.
Proof.
  induction 1 as [|c l Hc _ IH]; [reflexivity|].
  cbn. fold (lower l). rewrite IH. f_equal. apply digit_char, Hc.
Qed.

(** [float] on an unsigned decimal numeral: digits, and optionally a point
    and more digits. *)
Lemma py_float_numeral (ip fp : list ascii) (point : bool) :
  ip <> [] -> all_digits ip -> all_digits fp ->
  py_float (string_of_list_ascii (ip ++ (if point then "."%char :: fp else fp)))
  = Ok (F64.of_decimal false (digits_value (ip ++ fp))
          (if point then - Z.of_nat (length fp) else 0)).
Proof.
  intros Hne Hi Hf. unfold py_float.
  set (tail := if point then "."%char :: fp else fp).
  replace (chars (string_of_list_ascii (ip ++ tail))) with (ip ++ tail)
    by (unfold chars; rewrite list_ascii_of_string_of_list_ascii; reflexivity).
  assert (Hall : Forall (fun c => isspace_num c = false /\ ascii_eqb c "_" = false)
                   (ip ++ tail)).
  { apply Forall_app. split.
    - eapply List.Forall_impl; [|exact Hi]. intros c Hc. split; apply digit_char, Hc.
    - assert (Forall (fun c => isspace_num c = false /\ ascii_eqb c "_" = false) fp)
        by (eapply List.Forall_impl; [|exact Hf]; intros c Hc; split; apply digit_char, Hc).
      unfold tail. destruct point; [constructor; [split; reflexivity|]|]; assumption. }
  assert (Hstrip : strip_with isspace_num (ip ++ tail) = ip ++ tail).
  { apply strip_with_keeps.
    - destruct ip as [|a ip]; [contradiction|]. cbn. inversion Hi; subst.
      apply digit_char. assumption.
    - apply List.Forall_rev in Hall. destruct (rev (ip ++ tail)) as [|b t]; [exact I|].
      inversion Hall as [|? ? [Hb _] _]; subst. exact Hb. }
  rewrite Hstrip.
  assert (Hus : Forall (fun c => ascii_eqb c "_" = false) (ip ++ tail))
    by (eapply List.Forall_impl; [|exact Hall]; intros c [_ Hc]; exact Hc).
  rewrite (drop_underscores_none _ Hus None I).
  destruct ip as [|a ip]; [contradiction|]. inversion Hi as [|? ? Ha Hi']; subst.
  pose proof (digit_char a Ha) as (_ & _ & Hm & Hp & _ & _ & Hl & Hin & Hn).
  unfold take_sign. cbn [app]. rewrite Hm, Hp. cbv zeta.
  assert (Hw : forall w, chars_eqb (lower (a :: ip ++ tail)) (chars w) = true ->
                         exists x t, chars w = x :: t /\ ascii_eqb a x = true).
  { intros w Hw. cbn [lower map] in Hw. rewrite Hl in Hw.
    destruct (chars w) as [|x t]; [discriminate|]. cbn in Hw.
    apply andb_true_iff in Hw as [Hw _]. eauto. }
  assert (Hcode : forall x, ascii_eqb a x = true -> code x <> 105 /\ code x <> 110).
  { intros x Hx. unfold ascii_eqb in Hx, Hin, Hn. apply Z.eqb_eq in Hx.
    apply Z.eqb_neq in Hin, Hn. change (code "i") with 105 in Hin.
    change (code "n") with 110 in Hn. lia. }
  destruct (chars_eqb (lower (a :: ip ++ tail)) (chars "inf")) eqn:E1.
  { destruct (Hw _ E1) as (x & t & [= <- <-] & Hx). apply Hcode in Hx. destruct Hx as [X1 X2]. vm_compute in X1, X2. congruence. }
  destruct (chars_eqb (lower (a :: ip ++ tail)) (chars "infinity")) eqn:E2.
  { destruct (Hw _ E2) as (x & t & [= <- <-] & Hx). apply Hcode in Hx. destruct Hx as [X1 X2]. vm_compute in X1, X2. congruence. }
  destruct (chars_eqb (lower (a :: ip ++ tail)) (chars "nan")) eqn:E3.
  { destruct (Hw _ E3) as (x & t & [= <- <-] & Hx). apply Hcode in Hx. destruct Hx as [X1 X2]. vm_compute in X1, X2. congruence. }
  cbn [orb].
  change (a :: ip ++ tail) with ((a :: ip) ++ tail).
  unfold tail. destruct point.
  - rewrite (span_digits_app (a :: ip) ("."%char :: fp)) by (try exact Hi; reflexivity).
    change (ascii_eqb "." ".") with true. cbv iota.
    rewrite (span_digits_all fp Hf).
    cbn [app parse_exponent]. rewrite Z.sub_0_l. reflexivity.
  - assert (Hd : all_digits ((a :: ip) ++ fp)) by (apply Forall_app; split; assumption).
    rewrite (span_digits_all _ Hd). cbn [app parse_exponent].
    rewrite app_nil_r. cbn [length]. rewrite Z.sub_0_r. reflexivity.
Qed.

(** X6: the salary conversion deletes commas: digits, a comma and digits are
    read as the integer of all the digits, whereas with a point they are
    read as the decimal. *)
Theorem decimal_comma_is_deleted (ip fp : list ascii) :
  ip <> [] -> all_digits ip -> all_digits fp ->
  salary_of_cell (string_of_list_ascii (ip ++ ","%char :: fp))
    = Ok (F64.of_decimal false (digits_value (ip ++ fp)) 0) /\
  salary_of_cell (string_of_list_ascii (ip ++ "."%char :: fp))
    = Ok (F64.of_decimal false (digits_value (ip ++ fp)) (- Z.of_nat (length fp))).
Proof.
  intros Hne Hi Hf.
  assert (Hrm : forall l, all_digits l -> remove_commas l = l).
  { induction 1 as [|c l Hc _ IH]; [reflexivity|]. unfold remove_commas in *. cbn.
    replace (ascii_eqb c ",") with false by (symmetry; apply digit_char, Hc).
    cbn. rewrite IH. reflexivity. }
  unfold salary_of_cell, chars. rewrite !list_ascii_of_string_of_list_ascii. split.
  - unfold remove_commas. rewrite List.filter_app. cbn [List.filter].
    change (ascii_eqb "," ",") with true. cbn [negb].
    fold (remove_commas ip). fold (remove_commas fp). rewrite (Hrm ip Hi), (Hrm fp Hf).
    apply (py_float_numeral ip fp false); assumption.
  - unfold remove_commas. rewrite List.filter_app. cbn [List.filter].
    change (ascii_eqb "." ",") with false. cbn [negb].
    fold (remove_commas ip). fold (remove_commas fp). rewrite (Hrm ip Hi), (Hrm fp Hf).
    apply (py_float_numeral ip fp true); assumption.
Qed.

Lemma decimal_comma_is_deleted_witness :
  salary_of_cell (string_of_list_ascii (chars "50000" ++ ","%char :: chars "00"))
    = Ok (F64.of_decimal false (digits_value (chars "50000" ++ chars "00")) 0) /\
  salary_of_cell (string_of_list_ascii (chars "50000" ++ "."%char :: chars "00"))
    = Ok (F64.of_decimal false (digits_value (chars "50000" ++ chars "00"))
            (- Z.of_nat (length (chars "00")))).
Proof.
  apply (decimal_comma_is_deleted (chars "50000") (chars "00"));
    [discriminate|repeat constructor|repeat constructor].
Defined.

Lemma digits_value_app (a b : list ascii) :
  digits_value (a ++ b) = digits_value a * 10 ^ Z.of_nat (length b) + digits_value b.
Proof.
  unfold digits_value.
  assert (G : forall l x y, fold_left (fun acc c => 10 * acc + digit_value c) l (x + y)
                            = x * 10 ^ Z.of_nat (length l)
                              + fold_left (fun acc c => 10 * acc + digit_value c) l y).
  { induction l as [|c l IH]; intros x y; cbn [fold_left length].
    - change (Z.of_nat 0) with 0. rewrite Z.pow_0_r. lia.
    - replace (10 * (x + y) + digit_value c) with (10 * x + (10 * y + digit_value c)) by lia.
      rewrite IH. rewrite Nat2Z.inj_succ, Z.pow_succ_r by lia. lia. }
  rewrite fold_left_app.
  replace (fold_left (fun acc c => 10 * acc + digit_value c) a 0)
    with (fold_left (fun acc c => 10 * acc + digit_value c) a 0 + 0) by lia.
  rewrite G. cbn [fold_left]. lia.
Qed.

Lemma digit_of_digit (d : Z) :
  0 <= d <= 9 -> isdigit (digit_of d) = true /\ digit_value (digit_of d) = d.
Proof.
  intros H. assert (E : code (digit_of d) = 48 + d).
  { unfold code, digit_of. rewrite N_ascii_embedding; lia. }
  unfold isdigit, digit_value. rewrite E. split; [|lia].
  apply andb_true_iff. split; apply Z.leb_le; lia.
Qed.

Lemma decimal_digits_spec (fuel : nat) :
  forall n acc,
    (0 < fuel)%nat -> 0 <= n < 2 ^ Z.of_nat fuel -> all_digits acc ->
    all_digits (decimal_digits fuel n acc) /\
    decimal_digits fuel n acc <> [] /\
    digits_value (decimal_digits fuel n acc) = n * 10 ^ Z.of_nat (length acc) + digits_value acc.
Proof.
  induction fuel as [|fuel IH]; intros n acc Hf Hn Ha; [lia|].
  cbn [decimal_digits]. destruct (Z.ltb_spec n 10) as [Hlt|Hge].
  - destruct (digit_of_digit n) as [Hd Hv]; [lia|].
    split; [constructor; assumption|]. split; [discriminate|].
    change (digit_of n :: acc) with ([digit_of n] ++ acc). rewrite digits_value_app.
    unfold digits_value at 1. cbn [fold_left]. lia.
  - destruct (digit_of_digit (n mod 10)) as [Hd Hv];
      [pose proof (Z.mod_pos_bound n 10); lia|].
    rewrite Nat2Z.inj_succ, Z.pow_succ_r in Hn by lia.
    assert (Hq : 1 <= n / 10 < 2 ^ Z.of_nat fuel).
    { split; [apply Z.div_le_lower_bound; lia|].
      apply Z.div_lt_upper_bound; lia. }
    assert (Hf' : (0 < fuel)%nat).
    { destruct fuel; [|lia]. change (Z.of_nat 0) with 0 in Hq. rewrite Z.pow_0_r in Hq. lia. }
    destruct (IH (n / 10) (digit_of (n mod 10) :: acc) Hf') as (H1 & H2 & H3);
      [lia|constructor; assumption|].
    split; [exact H1|]. split; [exact H2|]. rewrite H3.
    cbn [length]. rewrite Nat2Z.inj_succ, Z.pow_succ_r by lia.
    assert (E : digits_value (digit_of (n mod 10) :: acc)
                = n mod 10 * 10 ^ Z.of_nat (length acc) + digits_value acc).
    { change (digit_of (n mod 10) :: acc) with ([digit_of (n mod 10)] ++ acc).
      rewrite digits_value_app. unfold digits_value at 1. cbn [fold_left]. lia. }
    rewrite E. pose proof (Z.div_mod n 10). lia.
Qed.

Lemma decimal_spec (n : Z) :
  0 <= n ->
  all_digits (decimal n) /\ decimal n <> [] /\ digits_value (decimal n) = n.
Proof.
  intros Hn. unfold decimal.
  destruct (decimal_digits_spec (S (Z.to_nat (Z.log2 n))) n []) as (H1 & H2 & H3).
  - lia.
  - split; [exact Hn|]. rewrite Nat2Z.inj_succ, Z2Nat.id by apply Z.log2_nonneg.
    destruct (Z.eq_dec n 0) as [-> |]; [reflexivity|]. apply Z.log2_spec. lia.
  - constructor.
  - split; [exact H1|]. split; [exact H2|]. rewrite H3. cbn [length].
    unfold digits_value. cbn [fold_left]. lia.
Qed.

Lemma py_int_digits (neg : bool) (ds : list ascii) :
  ds <> [] -> all_digits ds ->
  py_int (string_of_list_ascii (if neg then "-"%char :: ds else ds))
  = Ok (if neg then - digits_value ds else digits_value ds).
Proof.
  intros Hne Hd. unfold py_int, chars. rewrite list_ascii_of_string_of_list_ascii.
  set (t := if neg then "-"%char :: ds else ds).
  assert (Hall : Forall (fun c => isspace_num c = false /\ ascii_eqb c "_" = false) t).
  { assert (Forall (fun c => isspace_num c = false /\ ascii_eqb c "_" = false) ds)
      by (eapply List.Forall_impl; [|exact Hd]; intros c Hc; split; apply digit_char, Hc).
    unfold t. destruct neg; [constructor; [split; reflexivity|]|]; assumption. }
  assert (Hstrip : strip_with isspace_num t = t).
  { apply strip_with_keeps.
    - destruct t as [|a t']; [exact I|]. inversion Hall as [|? ? [Ha _] _]. exact Ha.
    - apply List.Forall_rev in Hall. destruct (rev t) as [|b t']; [exact I|].
      inversion Hall as [|? ? [Hb _] _]. exact Hb. }
  rewrite Hstrip.
  assert (Hus : Forall (fun c => ascii_eqb c "_" = false) t)
    by (eapply List.Forall_impl; [|exact Hall]; intros c [_ Hc]; exact Hc).
  rewrite (drop_underscores_none _ Hus None I). unfold t.
  destruct ds as [|d ds]; [contradiction|].
  inversion Hd as [|? ? Hd0 Hd']; subst.
  pose proof (digit_char d Hd0) as (_ & _ & Hm & Hp & _).
  destruct neg.
  - unfold take_sign. change (ascii_eqb "-" "-") with true. cbv iota.
    rewrite (span_digits_all (d :: ds) Hd). reflexivity.
  - unfold take_sign. rewrite Hm, Hp. rewrite (span_digits_all (d :: ds) Hd). reflexivity.
Qed.

(** X5: when [str(n)] succeeds, [int] reads the printed text back as [n]. *)
Theorem printed_int_parses_back (n : Z) (text : list ascii) :
  str_of_Z n = Ok text -> py_int (string_of_list_ascii text) = Ok n.
Proof.
  unfold str_of_Z. destruct (_ <? _); [discriminate|]. intros [= <-].
  destruct (decimal_spec (Z.abs n)) as (Hd & Hne & Hv); [lia|].
  rewrite (py_int_digits (n <? 0) _ Hne Hd), Hv.
  destruct (Z.ltb_spec n 0); f_equal; lia.
Qed.

Lemma printed_int_parses_back_witness :
  py_int (string_of_list_ascii (chars "-60")) = Ok (-60).
Proof.
  apply (printed_int_parses_back (-60) (chars "-60")). vm_compute. reflexivity.
Defined.

(** ** The date that the output prints *)

Lemma year_text (y : Z) :
  1000 <= y <= 9999 ->
  exists a b c e,
    decimal y = [a; b; c; e] /\
    isdigit a = true /\ isdigit b = true /\ isdigit c = true /\ isdigit e = true /\
    digits_value [a; b; c; e] = y.
Proof.
  intros Hy.
  assert (H : forallb year_text_ok (map (fun i => 1000 + Z.of_nat i) (seq 0 (Z.to_nat 9000))) = true)
    by (vm_compute; reflexivity).
  rewrite forallb_forall in H. specialize (H y).
  assert (Hin : In y (map (fun i => 1000 + Z.of_nat i) (seq 0 (Z.to_nat 9000)))).
  { apply in_map_iff. exists (Z.to_nat (y - 1000)). split; [lia|]. apply in_seq. lia. }
  specialize (H Hin). unfold year_text_ok in H.
  destruct (decimal y) as [|a [|b [|c [|e [|]]]]]; try discriminate.
  apply andb_true_iff in H as [H Hv]. apply andb_true_iff in H as [H He].
  apply andb_true_iff in H as [H Hc]. apply andb_true_iff in H as [Ha Hb].
  exists a, b, c, e. repeat split; try assumption. apply Z.eqb_eq. assumption.
Qed.

Lemma month_day_text (m d : Z) :
  1 <= m <= 12 -> 1 <= d <= 31 ->
  exists tm td,
    match_items [ILit "-"; IDir dir_m; ILit "-"; IDir dir_d]
      ("-"%char :: pad2 m ++ "-"%char :: pad2 d) = Some ([(dir_m, tm); (dir_d, td)], []) /\
    digits_value (skip isspace tm) = m /\ digits_value (skip isspace td) = d /\
    isspace (nth 1 (pad2 d) " "%char) = false.
Proof.
  intros Hm Hd.
  assert (H : forallb month_day_ok
                (list_prod (map Z.of_nat (seq 1 12)) (map Z.of_nat (seq 1 31))) = true)
    by (vm_compute; reflexivity).
  rewrite forallb_forall in H. specialize (H (m, d)).
  assert (Hin : In (m, d) (list_prod (map Z.of_nat (seq 1 12)) (map Z.of_nat (seq 1 31)))).
  { apply in_prod; apply in_map_iff.
    - exists (Z.to_nat m). split; [lia|]. apply in_seq. lia.
    - exists (Z.to_nat d). split; [lia|]. apply in_seq. lia. }
  specialize (H Hin). unfold month_day_ok in H.
  destruct (match_items _ _) as [[[|[[] tm] [|[[] td] [|]]] [|]]|]; try discriminate.
  apply andb_true_iff in H as [H H3]. apply andb_true_iff in H as [H1 H2].
  exists tm, td. repeat split; try (apply Z.eqb_eq; assumption).
  apply negb_true_iff. assumption.
Qed.

Lemma digit_not_space (c : ascii) : isdigit c = true -> isspace c = false.
Proof.
  unfold isdigit, isspace. intros H. apply andb_true_iff in H as [H1 H2].
  apply Z.leb_le in H1, H2. apply orb_false_iff.
  split; apply andb_false_iff; right; apply Z.leb_gt; lia.
Qed.

Lemma match_year (a b c e : ascii) (items : list fmt_item) (tail : list ascii) :
  isdigit a = true -> isdigit b = true -> isdigit c = true -> isdigit e = true ->
  match_items (IDir dir_Y :: items) (a :: b :: c :: e :: tail)
  = match match_items items tail with
    | Some (fs, rest) => Some ((dir_Y, [a; b; c; e]) :: fs, rest)
    | None => None
    end.
Proof.
  intros Ha Hb Hc He. cbn [match_items alternatives first_some match_classes].
  change (in_class cdigit a) with (isdigit a). change (in_class cdigit b) with (isdigit b).
  change (in_class cdigit c) with (isdigit c). change (in_class cdigit e) with (isdigit e).
  rewrite Ha, Hb, Hc, He. destruct (match_items items tail) as [[fs rest]|]; reflexivity.
Qed.

(** X7: the text that [strftime] prints for a valid date at midnight, from
    the year 1000 on, is parsed back to the same date. *)
Theorem printed_date_parses_back (d : datetime) :
  valid_datetime d -> 1000 <= year d ->
  hour d = 0 -> minute d = 0 -> second d = 0 ->
  parse_date (strftime d "%Y-%m-%d") = Ok d.
Proof.
  intros (Hy & Hm & Hd & _) Hy' HH HM HS.
  destruct (year_text (year d)) as (a & b & c & e & Ey & Ha & Hb & Hc & He & Vy); [lia|].
  pose proof (days_in_month_bounds (year d) (month d)) as Hdim.
  destruct (month_day_text (month d) (day d)) as (tm & td & Em & Vm & Vd & Hl); [lia|lia|].
  assert (Et : chars (strftime d "%Y-%m-%d")
               = a :: b :: c :: e :: "-"%char :: pad2 (month d) ++ "-"%char :: pad2 (day d)).
  { unfold strftime, chars. rewrite list_ascii_of_string_of_list_ascii.
    change (strftime_chars d (list_ascii_of_string "%Y-%m-%d"))
      with (decimal (year d) ++ "-"%char :: pad2 (month d) ++ "-"%char :: pad2 (day d)).
    rewrite Ey. reflexivity. }
  unfold parse_date. rewrite Et.
  assert (Es : strip (a :: b :: c :: e :: "-"%char :: pad2 (month d) ++ "-"%char :: pad2 (day d))
               = a :: b :: c :: e :: "-"%char :: pad2 (month d) ++ "-"%char :: pad2 (day d)).
  { apply strip_with_keeps; [exact (digit_not_space a Ha)|].
    unfold pad2 in *. cbn in Hl |- *. exact Hl. }
  rewrite Es.
  assert (E1 : strptime (a :: b :: c :: e :: "-"%char :: pad2 (month d)
                           ++ "-"%char :: pad2 (day d)) "%Y-%m-%d" = Ok d).
  { unfold strptime.
    change (compile_format false (chars "%Y-%m-%d"))
      with (Some [IDir dir_Y; ILit "-"%char; IDir dir_m; ILit "-"%char; IDir dir_d]).
    cbv iota beta.
    rewrite (match_year a b c e _ _ Ha Hb Hc He), Em.
    unfold field. cbn [find fst directive_eqb]. cbn [skip]. rewrite (digit_not_space a Ha).
    rewrite Vy, Vm, Vd. unfold datetime_new.
    replace (_ && _) with true.
    - destruct d; simpl in *; subst; reflexivity.
    - symmetry. repeat (apply andb_true_iff; split); apply Z.leb_le; lia. }
  unfold formats. cbn [try_formats]. rewrite E1. reflexivity.
Qed.

Lemma printed_date_parses_back_witness :
  parse_date (strftime (mk_datetime 2024 12 31 0 0 0) "%Y-%m-%d")
  = Ok (mk_datetime 2024 12 31 0 0 0).
Proof.
  apply (printed_date_parses_back (mk_datetime 2024 12 31 0 0 0));
    valid_dates; first [reflexivity | cbn; lia].
Defined.

(** ** The table of the program *)

Lemma default_table_keys :
  map fst (map_to_list DEFAULT_PROBABILITY_TABLE) ≡ₚ map Z.of_nat (seq 20 54).
Proof.
  apply NoDup_Permutation.
  - apply NoDup_fst_map_to_list.
  - apply NoDup_fmap_2; [intros a b; lia|]. apply NoDup_ListNoDup, seq_NoDup.
  - intros k. rewrite <- key_in_list. split.
    + intros [p Hp]. unfold DEFAULT_PROBABILITY_TABLE in Hp.
      apply elem_of_list_to_map_2 in Hp.
      repeat (apply elem_of_cons in Hp as [Hp|Hp];
              [injection Hp as -> _; vm_compute; set_solver|]).
      by apply elem_of_nil in Hp.
    + intros Hk. vm_compute in Hk.
      repeat (apply elem_of_cons in Hk as [->|Hk]; [vm_compute; eauto|]).
      by apply elem_of_nil in Hk.
Qed.

Lemma default_table_domain (k : Z) :
  is_Some (DEFAULT_PROBABILITY_TABLE !! k) <-> 20 <= k <= 73.
Proof.
  rewrite key_in_list, default_table_keys. change (map Z.of_nat (seq 20 54)) with (Z.of_nat <$> seq 20 54). rewrite list_elem_of_fmap.
  split.
  - intros (n & -> & Hn). apply elem_of_seq in Hn. lia.
  - intros Hk. exists (Z.to_nat k). split; [lia|]. apply elem_of_seq. lia.
Qed.

Lemma default_table_min : is_min_key 20 DEFAULT_PROBABILITY_TABLE.
Proof.
  split; [apply default_table_domain; lia|].
  intros j Hj. apply default_table_domain in Hj. lia.
Qed.

Lemma default_table_max : is_max_key 73 DEFAULT_PROBABILITY_TABLE.
Proof.
  split; [apply default_table_domain; lia|].
  intros j Hj. apply default_table_domain in Hj. lia.
Qed.

Lemma default_table_clamp (age : Z) :
  exists qx px,
    get_probability age DEFAULT_PROBABILITY_TABLE = Ok (qx, px) /\
    DEFAULT_PROBABILITY_TABLE !! (Z.max 20 (Z.min age 73)) = Some (qx, px).
Proof.
  destruct (DEFAULT_PROBABILITY_TABLE !! age) as [[qx px]|] eqn:E.
  - exists qx, px. unfold get_probability. rewrite E. split; [reflexivity|].
    assert (20 <= age <= 73) by (apply default_table_domain; eauto).
    replace (Z.max 20 (Z.min age 73)) with age by lia. exact E.
  - assert (Hout : ~ 20 <= age <= 73).
    { intros H. apply default_table_domain in H. rewrite E in H. by destruct H. }
    destruct (min_key_spec DEFAULT_PROBABILITY_TABLE default_table_nonempty) as (lo & Hlo & Hmin).
    destruct (max_key_spec DEFAULT_PROBABILITY_TABLE default_table_nonempty) as (hi & Hhi & Hmax).
    assert (lo = 20) as -> by (eapply is_min_key_unique; [exact Hmin|apply default_table_min]).
    assert (hi = 73) as -> by (eapply is_max_key_unique; [exact Hmax|apply default_table_max]).
    unfold get_probability. rewrite E, Hlo. unfold rbind at 1.
    destruct (Z.ltb_spec age 20).
    + replace (Z.max 20 (Z.min age 73)) with 20 by lia.
      exists (micro 1152), (micro 998848). split; reflexivity.
    + rewrite Hhi. unfold rbind.
      replace (Z.max 20 (Z.min age 73)) with 73 by lia.
      exists (micro 0), (micro 1000000). split; reflexivity.
Qed.

(** X8: on the table of the program the lookup succeeds for every age and
    gives the pair stored under the age clamped to 20..73, so the pair of 20
    below 20 and the pair of 73 above 73. *)
Theorem default_table_lookup_clamps (age : Z) :
  exists qx px,
    get_probability age DEFAULT_PROBABILITY_TABLE = Ok (qx, px) /\
    DEFAULT_PROBABILITY_TABLE !! (Z.max 20 (Z.min age 73)) = Some (qx, px) /\
    (age < 20 -> (qx, px) = (micro 1152, micro 998848)) /\
    (73 < age -> (qx, px) = (micro 0, micro 1000000)).
Proof.
  destruct (default_table_clamp age) as (qx & px & Hg & Hl).
  exists qx, px. split; [exact Hg|]. split; [exact Hl|]. split; intros Ha.
  - replace (Z.max 20 (Z.min age 73)) with 20 in Hl by lia. vm_compute in Hl. injection Hl as <- <-. vm_compute. reflexivity.
  - replace (Z.max 20 (Z.min age 73)) with 73 in Hl by lia. vm_compute in Hl. injection Hl as <- <-. vm_compute. reflexivity.
Qed.

Lemma mul_one (x : spec_float) : F64.positive_normal x = true -> F64.mul x F64.one = x.
Proof.
  intros Hx. destruct (positive_normal_inv x Hx) as (mx & ex & -> & Hd & He).
  rewrite mul_unfold. unfold F64.one.
  destruct (mul_normal_spec mx 4503599627370496 ex (-52) Hd) as
    (m3 & e3 & -> & Hm3 & _ & Hle & _ & Hb); [reflexivity|lia|lia|].
  pose proof (digits2_pos_bounds mx) as Hmx. rewrite Hd in Hmx.
  change (2 ^ (53 - 1)) with 4503599627370496 in Hmx.
  change (2 ^ 53) with 9007199254740992 in Hmx, Hm3, Hb.
  change (2 ^ 52) with 4503599627370496 in Hm3.
  replace (e3 - (ex + -52)) with ((e3 - ex) + 52) in Hb by lia.
  rewrite pow2_split in Hb by lia. change (2 ^ 52) with 4503599627370496 in Hb.
  assert (Hk : e3 = ex).
  { destruct (Z.eq_dec e3 ex) as [|Hne]; [assumption|exfalso].
    assert (2 <= 2 ^ (e3 - ex)).
    { change 2 with (2 ^ 1) at 1. apply Z.pow_le_mono_r; lia. }
    assert (Z.pos m3 * 2 <= Z.pos m3 * 2 ^ (e3 - ex)) by (apply Z.mul_le_mono_nonneg_l; lia).
    lia. }
  subst e3. rewrite Z.sub_diag, Z.pow_0_r in Hb.
  assert (Z.pos m3 = Z.pos mx) by lia.
  replace (ex <=? 971) with true by (symmetry; apply Z.leb_le; lia).
  f_equal. congruence.
Qed.

Lemma default_table_from_60 (age : Z) :
  60 <= age -> get_probability age DEFAULT_PROBABILITY_TABLE = Ok (S754_zero false, F64.one).
Proof.
  intros Ha. destruct (default_table_clamp age) as (qx & px & -> & Hl). f_equal.
  assert (Hk : 60 <= Z.max 20 (Z.min age 73) <= 73) by lia.
  remember (Z.max 20 (Z.min age 73)) as k eqn:Ek. clear Ek.
  assert (Hc : In k (map Z.of_nat (seq 60 14))).
  { apply in_map_iff. exists (Z.to_nat k). split; [lia|]. apply in_seq. lia. }
  cbn in Hc.
  repeat (destruct Hc as [<- |Hc]; [vm_compute in Hl; injection Hl as <- <-; reflexivity|]).
  contradiction.
Qed.

(** X9: with the table of the program a row at age 60 or above has death
    probability 0.0 and survival probability 1.0; its outflow is 0.0 when
    the future salary is a positive normal float and NaN when it has
    overflowed to infinity. *)
Theorem no_outflow_from_age_60 (st : parse_state) (emp : employee)
    (rows : list projection_row) (k : nat) (r : projection_row) :
  project_employee DEFAULT_PROBABILITY_TABLE st emp = Ok rows ->
  rows !! k = Some r -> 60 <= row_age r ->
  let future_salary := unrounded_future_salary (salary emp) (salary_increase_rate st) k in
  row_death_prob r = S754_zero false /\
  row_survival_prob r = F64.one /\
  (F64.positive_normal future_salary = true ->
   row_expected_death_outflow r = S754_zero false) /\
  (future_salary = S754_infinity false -> row_expected_death_outflow r = S754_nan).
Proof.
  unfold project_employee. intros H Hk Ha.
  destruct (calculate_age (date_birth emp) (valuation_date st)) as [c|e]; simpl in H;
    [|discriminate].
  destruct (project_ages_row _ _ _ _ _ _ _ _ H Hk) as (age & qx & px & _ & Hp & ->).
  cbn [row_age] in Ha. rewrite (default_table_from_60 age Ha) in Hp.
  injection Hp as <- <-. cbn [row_death_prob row_survival_prob row_expected_death_outflow].
  fold (unrounded_future_salary (salary emp) (salary_increase_rate st) k).
  repeat split.
  - intros Hn. rewrite (mul_one _ Hn).
    destruct (positive_normal_inv _ Hn) as (m & e & -> & _). reflexivity.
  - intros ->. reflexivity.
Qed.

Lemma no_outflow_from_age_60_witness :
  exists r,
    let future_salary :=
      unrounded_future_salary (salary alice) (salary_increase_rate retire_at_65) 6 in
    row_death_prob r = S754_zero false /\
    row_survival_prob r = F64.one /\
    (F64.positive_normal future_salary = true ->
     row_expected_death_outflow r = S754_zero false) /\
    (future_salary = S754_infinity false -> row_expected_death_outflow r = S754_nan).
Proof.
  eexists.
  eapply (no_outflow_from_age_60 retire_at_65 alice _ 6%nat).
  - vm_compute. reflexivity.
  - reflexivity.
  - vm_compute. discriminate.
Defined.

(** ** Whitespace around cells *)

Lemma skip_app_Forall (p : ascii -> bool) (l x : list ascii) :
  Forall (fun c => p c = true) l -> skip p (l ++ x) = skip p x.
Proof. induction 1 as [|c l Hc _ IH]; simpl; [reflexivity|]. rewrite Hc. exact IH. Qed.

Lemma skip_app_cases (p : ascii -> bool) (x r : list ascii) :
  skip p (x ++ r) = match skip p x with [] => skip p r | _ => skip p x ++ r end.
Proof.
  induction x as [|c x IH]; simpl.
  - destruct (skip p r); reflexivity.
  - destruct (p c); [exact IH|reflexivity].
Qed.

Lemma strip_with_padded (p : ascii -> bool) (l x r : list ascii) :
  Forall (fun c => p c = true) l -> Forall (fun c => p c = true) r ->
  strip_with p (l ++ x ++ r) = strip_with p x.
Proof.
  intros Hl Hr. unfold strip_with. rewrite skip_app_Forall by assumption.
  rewrite skip_app_cases. destruct (skip p x) as [|c t] eqn:E.
  - rewrite <- (app_nil_r r), skip_app_Forall by assumption. reflexivity.
  - rewrite rev_app_distr. rewrite skip_app_Forall; [reflexivity|].
    apply List.Forall_rev. exact Hr.
Qed.

Lemma isspace_num_isspace (c : ascii) : isspace_num c = true -> isspace c = true.
Proof.
  unfold isspace_num, isspace. intros H.
  apply orb_true_iff in H. apply orb_true_iff. destruct H as [H|H]; [left; exact H|right].
  apply Z.eqb_eq in H. rewrite H. reflexivity.
Qed.

Lemma padding_isspace (l : list ascii) : padding l -> Forall (fun c => isspace c = true) l.
Proof. intros H. eapply List.Forall_impl; [|exact H]. intros c. apply isspace_num_isspace. Qed.

Lemma padded_strip (c c' : string) : padded c c' -> strip (chars c') = strip (chars c).
Proof.
  intros (l & r & Hl & Hr & E). rewrite E. unfold strip.
  apply strip_with_padded; apply padding_isspace; assumption.
Qed.

Lemma padded_strip_num (c c' : string) :
  padded c c' -> strip_with isspace_num (chars c') = strip_with isspace_num (chars c).
Proof. intros (l & r & Hl & Hr & E). rewrite E. apply strip_with_padded; assumption. Qed.

Lemma padded_blank (c c' : string) : padded c c' -> blank c' = blank c.
Proof. intros H. unfold blank. rewrite (padded_strip _ _ H). reflexivity. Qed.

Lemma padded_key_is (c c' k : string) : padded c c' -> key_is c' k = key_is c k.
Proof. intros H. unfold key_is. rewrite (padded_strip _ _ H). reflexivity. Qed.

Lemma padded_stripped (c c' : string) : padded c c' -> stripped c' = stripped c.
Proof. intros H. unfold stripped. rewrite (padded_strip _ _ H). reflexivity. Qed.

Lemma padded_parse_date (c c' : string) : padded c c' -> parse_date c' = parse_date c.
Proof. intros H. unfold parse_date. rewrite (padded_strip _ _ H). reflexivity. Qed.

Lemma padded_py_float (c c' : string) : padded c c' -> py_float c' = py_float c.
Proof. intros H. unfold py_float. rewrite (padded_strip_num _ _ H). reflexivity. Qed.

Lemma padded_py_int (c c' : string) : padded c c' -> py_int c' = py_int c.
Proof. intros H. unfold py_int. rewrite (padded_strip_num _ _ H). reflexivity. Qed.

Lemma padding_no_comma (l : list ascii) : padding l -> remove_commas l = l.
Proof.
  induction 1 as [|c l Hc _ IH]; [reflexivity|].
  unfold remove_commas in *. simpl.
  replace (ascii_eqb c ",") with false; [simpl; f_equal; exact IH|].
  symmetry. unfold isspace_num in Hc. unfold ascii_eqb.
  apply Z.eqb_neq. change (code ",") with 44. lia.
Qed.

Lemma padded_remove_commas (c c' : string) :
  padded c c' ->
  padded (string_of_list_ascii (remove_commas (chars c)))
         (string_of_list_ascii (remove_commas (chars c'))).
Proof.
  intros (l & r & Hl & Hr & E). exists l, r. split; [exact Hl|]. split; [exact Hr|].
  unfold chars in *. rewrite !list_ascii_of_string_of_list_ascii. rewrite E.
  unfold remove_commas. rewrite !List.filter_app.
  fold (remove_commas l). fold (remove_commas r).
  rewrite (padding_no_comma l), (padding_no_comma r) by assumption. reflexivity.
Qed.

Lemma padded_blank_row (row row' : list string) :
  Forall2 padded row row' -> blank_row row' = blank_row row.
Proof.
  induction 1 as [|c c' row row' Hc _ IH]; [reflexivity|].
  unfold blank_row in *. simpl. rewrite (padded_blank _ _ Hc), IH. reflexivity.
Qed.

Lemma padded_length (row row' : list string) :
  Forall2 padded row row' -> length row' = length row.
Proof. intros H. symmetry. eapply Forall2_length; eassumption. Qed.

Lemma padded_assumption_row (st : parse_state) (row row' : list string) :
  Forall2 padded row row' -> assumption_row st row' = assumption_row st row.
Proof.
  intros H. unfold assumption_row. rewrite (padded_length _ _ H).
  destruct H as [|c0 c0' row row' H0 H]; [reflexivity|].
  destruct H as [|c1 c1' row row' H1 H]; [reflexivity|].
  unfold cell, rbind; simpl.
  rewrite !(padded_key_is _ _ _ H0).
  rewrite (padded_parse_date _ _ H1), (padded_py_float _ _ H1), (padded_py_int _ _ H1).
  reflexivity.
Qed.

Lemma padded_employee_row (row row' : list string) :
  Forall2 padded row row' -> employee_row row' = employee_row row.
Proof.
  intros H. unfold employee_row.
  destruct H as [|c0 c0' row row' H0 H]; [reflexivity|].
  destruct H as [|c1 c1' row row' H1 H]; [reflexivity|].
  destruct H as [|c2 c2' row row' H2 H]; [reflexivity|].
  destruct H as [|c3 c3' row row' H3 H];
    [unfold cell, rbind; simpl; rewrite (padded_parse_date _ _ H2); reflexivity|].
  destruct H as [|c4 c4' row row' H4 H];
    [unfold cell, rbind; simpl;
     rewrite (padded_parse_date _ _ H2), (padded_parse_date _ _ H3); reflexivity|].
  unfold cell, rbind; simpl.
  rewrite (padded_parse_date _ _ H2), (padded_parse_date _ _ H3).
  rewrite (padded_py_float _ _ (padded_remove_commas _ _ H4)).
  rewrite (padded_stripped _ _ H0), (padded_stripped _ _ H1). reflexivity.
Qed.

Lemma padded_left (c : string) : padded c (String " " c).
Proof. exists [" "%char], []. repeat split; try repeat constructor. cbn. rewrite app_nil_r. reflexivity. Qed.

Lemma padded_refl (c : string) : padded c c.
Proof. exists [], []. repeat split; try constructor. cbn. rewrite app_nil_r. reflexivity. Qed.

(** X10: whitespace around the cells of a row changes nothing: the padded
    row and the row have the same effect on every state. *)
Theorem cell_padding_is_insignificant (st : parse_state) (row row' : list string) :
  Forall2 padded row row' -> process_row st row' = process_row st row.
Proof.
  intros H. unfold process_row.
  rewrite (padded_blank_row _ _ H), (padded_assumption_row st _ _ H),
    (padded_length _ _ H), (padded_employee_row _ _ H).
  destruct H as [|c0 c0' row row' H0 H]; [reflexivity|].
  unfold cell, rbind, is_header_key; simpl.
  rewrite !(padded_key_is _ _ _ H0). reflexivity.
Qed.

Lemma cell_padding_is_insignificant_witness :
  process_row initial_state [" E1"; " Alice"; " 1970-01-01"; "2000-01-01"; " 50000"]
  = process_row initial_state ["E1"; "Alice"; "1970-01-01"; "2000-01-01"; "50000"].
Proof.
  apply (cell_padding_is_insignificant initial_state
           ["E1"; "Alice"; "1970-01-01"; "2000-01-01"; "50000"]
           [" E1"; " Alice"; " 1970-01-01"; "2000-01-01"; " 50000"]).
  repeat (constructor 2; [first [apply padded_left | apply padded_refl]|]). constructor 1.
Defined.

(** ** The effect of a row *)

Lemma process_row_effect (st : parse_state) (row : list string) :
  process_row st row = apply_effect (row_effect_of row) st.
Proof.
  unfold process_row, row_effect_of.
  destruct (blank_row row); [reflexivity|].
  destruct row as [|c0 [|c1 rest]]; [reflexivity|reflexivity|].
  unfold assumption_row.
  change (2 <=? length (c0 :: c1 :: rest))%nat with true. cbv iota.
  unfold cell at 1. simpl nth_error. unfold rbind at 2.
  destruct (key_is c0 "valuation_date").
  { unfold cell, rbind; simpl. destruct (parse_date c1); reflexivity. }
  destruct (key_is c0 "discount_rate").
  { unfold cell, rbind; simpl. destruct (py_float c1); reflexivity. }
  destruct (key_is c0 "salary_increase_rate").
  { unfold cell, rbind; simpl. destruct (py_float c1); reflexivity. }
  destruct (key_is c0 "retirement_age").
  { unfold cell, rbind; simpl. destruct (py_int c1); reflexivity. }
  unfold rbind at 1.
  destruct (5 <=? length (c0 :: c1 :: rest))%nat; [|reflexivity].
  unfold cell, rbind at 1; simpl nth_error. cbv iota beta.
  destruct (is_header_key c0); [reflexivity|].
  destruct (employee_row (c0 :: c1 :: rest)) as [e|[]]; reflexivity.
Qed.

Lemma employee_row_exn (row : list string) (e : exn) :
  employee_row row = Raise e -> e = ValueError \/ e = IndexError.
Proof.
  unfold employee_row, cell, rbind.
  repeat match goal with
         | |- context [nth_error ?r ?i] => destruct (nth_error r i); [|intros [= <-]; auto]
         | |- context [parse_date ?c] =>
             destruct (parse_date_cases c) as [[? ->]| ->]; [|intros [= <-]; auto]
         end.
  match goal with
  | |- context [py_float ?c] => destruct (py_float c) eqn:E; [discriminate|]
  end.
  intros [= <-]. left. eapply py_float_raises_only_ValueError; eassumption.
Qed.

Lemma key_is_assumption_key (c k : string) :
  In k ["valuation_date"; "discount_rate"; "salary_increase_rate"; "retirement_age"] ->
  key_is c k = true -> is_assumption_key c = true.
Proof.
  unfold is_assumption_key. simpl.
  intros [<-|[<-|[<-|[<-|[]]]]] ->; rewrite ?orb_true_r; reflexivity.
Qed.

Lemma row_effect_not_assumption (row : list string) :
  is_assumption_row row = false ->
  row_effect_of row = Skipped \/ exists e, row_effect_of row = AddEmployee e /\ employee_row row = Ok e.
Proof.
  unfold is_assumption_row, row_effect_of. intros H.
  destruct (blank_row row); [auto|].
  destruct row as [|c0 [|c1 rest]]; [auto|auto|].
  change (2 <=? length (c0 :: c1 :: rest))%nat with true in H. simpl in H.
  unfold is_assumption_key in H.
  apply orb_false_iff in H as [H H4]. apply orb_false_iff in H as [H H3].
  apply orb_false_iff in H as [H1 H2]. rewrite H1, H2, H3, H4.
  destruct (5 <=? length (c0 :: c1 :: rest))%nat; [|auto].
  destruct (is_header_key c0); [auto|].
  destruct (employee_row (c0 :: c1 :: rest)) as [e|x] eqn:E; [right; eauto|].
  destruct (employee_row_exn _ _ E) as [-> | ->]; auto.
Qed.

Lemma row_effect_assumption (row : list string) :
  is_assumption_row row = true ->
  exists c0 c1 rest, row = c0 :: c1 :: rest /\
    ((key_is c0 "valuation_date" = true /\
      row_effect_of row = effect_of_result SetValuationDate (parse_date c1)) \/
     (key_is c0 "discount_rate" = true /\
      row_effect_of row = effect_of_result SetDiscountRate (py_float c1)) \/
     (key_is c0 "salary_increase_rate" = true /\
      row_effect_of row = effect_of_result SetSalaryIncreaseRate (py_float c1)) \/
     (key_is c0 "retirement_age" = true /\
      row_effect_of row = effect_of_result SetRetirementAge (py_int c1))).
Proof.
  unfold is_assumption_row. intros H. apply andb_true_iff in H as [Hlen Hkey].
  destruct row as [|c0 [|c1 rest]]; try discriminate.
  exists c0, c1, rest. split; [reflexivity|]. simpl in Hkey.
  unfold row_effect_of.
  assert (Hb : blank_row (c0 :: c1 :: rest) = false).
  { unfold blank_row. simpl. rewrite (assumption_key_not_blank _ Hkey). reflexivity. }
  rewrite Hb. unfold is_assumption_key in Hkey.
  destruct (key_is c0 "valuation_date"); [auto|].
  destruct (key_is c0 "discount_rate"); [auto|].
  destruct (key_is c0 "salary_increase_rate"); [auto 6|].
  destruct (key_is c0 "retirement_age"); [auto 6|]. discriminate.
Qed.

Lemma process_row_raises (st : parse_state) (row : list string) (e : exn) :
  process_row st row = Raise e -> e = ValueError /\ malformed_assumption_row row.
Proof.
  rewrite process_row_effect.
  destruct (is_assumption_row row) eqn:A.
  - destruct (row_effect_assumption row A) as (c0 & c1 & rest & -> & H).
    unfold malformed_assumption_row, conversion_fails.
    destruct H as [[K ->]|[[K ->]|[[K ->]|[K ->]]]].
    + destruct (parse_date c1) eqn:E; simpl; [discriminate|]. intros [= ->].
      split; [destruct (parse_date_cases c1) as [[? ?]|?]; congruence|].
      exists c0, c1, rest. split; [reflexivity|]. rewrite K, E. reflexivity.
    + destruct (py_float c1) eqn:E; simpl; [discriminate|]. intros [= ->].
      split; [eapply py_float_raises_only_ValueError; eassumption|].
      exists c0, c1, rest. split; [reflexivity|]. rewrite K, E. simpl.
      rewrite orb_true_r. reflexivity.
    + destruct (py_float c1) eqn:E; simpl; [discriminate|]. intros [= ->].
      split; [eapply py_float_raises_only_ValueError; eassumption|].
      exists c0, c1, rest. split; [reflexivity|]. rewrite K, E. simpl.
      rewrite !orb_true_r. reflexivity.
    + destruct (py_int c1) eqn:E; simpl; [discriminate|]. intros [= ->].
      split; [eapply py_int_raises_only_ValueError; eassumption|].
      exists c0, c1, rest. split; [reflexivity|]. rewrite K, E. simpl.
      rewrite !orb_true_r. reflexivity.
  - destruct (row_effect_not_assumption row A) as [-> | (emp & -> & _)]; discriminate.
Qed.

Lemma process_rows_fail_iff (rows : list (list string)) :
  forall st,
    (forall e, process_rows st rows = Raise e -> e = ValueError) /\
    (is_ok (process_rows st rows) = false <-> Exists malformed_assumption_row rows).
Proof.
  induction rows as [|row rows IH]; intros st.
  - simpl. split; [discriminate|]. split; [discriminate|]. intros H. inversion H.
  - simpl. destruct (process_row st row) as [st'|x] eqn:E; unfold rbind.
    + destruct (IH st') as [IH1 IH2]. split; [exact IH1|].
      rewrite IH2. split; [intros H; right; exact H|].
      intros H. inversion H as [? ? Hm|? ? Hm]; subst; [|exact Hm].
      rewrite (process_row_malformed_assumption st row Hm) in E. discriminate.
    + apply process_row_raises in E as [-> Hm].
      split; [intros e [= <-]; reflexivity|].
      split; [intros _; left; exact Hm|reflexivity].
Qed.

Lemma process_cashflow_exn (rows : list (list string)) (e : exn) :
  process_cashflow rows = Raise e -> e = ValueError.
Proof.
  intros He. apply (proj1 (process_cashflow_raises_only_in_rows rows)) in He.
  apply (proj1 (process_rows_fail_iff rows initial_state)) in He. exact He.
Qed.


(** ** What the projection reads *)

Lemma same_employee_inputs_refl (e : employee) : same_employee_inputs e e.
Proof. repeat split. Qed.

Lemma same_inputs_refl (st : parse_state) : same_inputs st st.
Proof.
  repeat split. apply Forall_Forall2_diag. apply Forall_forall. intros e _.
  apply same_employee_inputs_refl.
Qed.

Lemma project_ages_same_inputs (t : gmap Z (spec_float * spec_float)) (rate : spec_float)
    (a b : employee) (ages : list Z) :
  same_employee_inputs a b ->
  forall fs, project_ages t rate a ages fs = project_ages t rate b ages fs.
Proof.
  intros (Hid & Hname & _ & _). induction ages as [|age ages IH]; intros fs; [reflexivity|].
  simpl. rewrite Hid, Hname. destruct (get_probability age t) as [[qx px]|]; [|reflexivity].
  unfold rbind. rewrite IH. reflexivity.
Qed.

Lemma project_all_same_inputs (t : gmap Z (spec_float * spec_float)) (st st' : parse_state)
    (emps emps' : list employee) :
  valuation_date st = valuation_date st' ->
  salary_increase_rate st = salary_increase_rate st' ->
  retirement_age st = retirement_age st' ->
  Forall2 same_employee_inputs emps emps' ->
  project_all t st emps = project_all t st' emps'.
Proof.
  intros Hv Hr Ha. induction 1 as [|a b emps emps' Hab _ IH]; [reflexivity|].
  simpl. rewrite IH. f_equal. unfold project_employee.
  destruct Hab as (Hid & Hname & Hbirth & Hsal).
  rewrite Hbirth, Hsal, Hv, Hr, Ha.
  destruct (calculate_age (date_birth b) (valuation_date st')); [|reflexivity].
  unfold rbind. apply project_ages_same_inputs. repeat split; assumption.
Qed.

Lemma apply_effect_same_inputs (f : row_effect) (st st' : parse_state) :
  same_inputs st st' ->
  match apply_effect f st, apply_effect f st' with
  | Ok s, Ok s' => same_inputs s s'
  | Raise e, Raise e' => e = e'
  | _, _ => False
  end.
Proof.
  intros (Hv & Hr & Ha & He).
  destruct f; simpl; try (repeat split; simpl; assumption); try reflexivity.
  repeat split; simpl; try assumption.
  apply Forall2_app; [assumption|]. constructor; [apply same_employee_inputs_refl|constructor].
Qed.

Lemma process_rows_same_inputs (rows : list (list string)) :
  forall st st', same_inputs st st' ->
    match process_rows st rows, process_rows st' rows with
    | Ok s, Ok s' => same_inputs s s'
    | Raise e, Raise e' => e = e'
    | _, _ => False
    end.
Proof.
  induction rows as [|row rows IH]; intros st st' H; [exact H|].
  simpl. rewrite !process_row_effect.
  pose proof (apply_effect_same_inputs (row_effect_of row) st st' H) as Hs.
  destruct (apply_effect (row_effect_of row) st), (apply_effect (row_effect_of row) st');
    try contradiction; unfold rbind; [apply IH; exact Hs|exact Hs].
Qed.

Lemma projection_same_inputs (a b : list (list string)) :
  match process_rows initial_state a, process_rows initial_state b with
  | Ok s, Ok s' => same_inputs s s'
  | Raise e, Raise e' => e = e'
  | _, _ => False
  end ->
  projection (process_cashflow a) = projection (process_cashflow b).
Proof.
  unfold process_cashflow, projection.
  destruct (process_rows initial_state a) as [s|e], (process_rows initial_state b) as [s'|e'];
    try contradiction.
  - intros (Hv & Hr & Ha & He). cbn [rbind].
    rewrite (project_all_same_inputs DEFAULT_PROBABILITY_TABLE s s' _ _ Hv Hr Ha He).
    destruct (project_all DEFAULT_PROBABILITY_TABLE s' (employees s')); reflexivity.
  - intros ->. reflexivity.
Qed.

Lemma process_rows_related (pre post mid mid' : list (list string)) :
  (forall st,
     match process_rows st mid, process_rows st mid' with
     | Ok s, Ok s' => same_inputs s s'
     | Raise e, Raise e' => e = e'
     | _, _ => False
     end) ->
  match process_rows initial_state (pre ++ mid ++ post),
        process_rows initial_state (pre ++ mid' ++ post) with
  | Ok s, Ok s' => same_inputs s s'
  | Raise e, Raise e' => e = e'
  | _, _ => False
  end.
Proof.
  intros H.
  rewrite (process_rows_app initial_state pre (mid ++ post)),
    (process_rows_app initial_state pre (mid' ++ post)).
  destruct (process_rows initial_state pre) as [st|e]; cbn [rbind]; [|reflexivity].
  rewrite (process_rows_app st mid post), (process_rows_app st mid' post).
  specialize (H st).
  destruct (process_rows st mid) as [s|e], (process_rows st mid') as [s'|e'];
    try contradiction; cbn [rbind]; [|exact H].
  apply process_rows_same_inputs. exact H.
Qed.

(** X12: a discount rate row whose value converts changes no projection row.
    *)
Theorem discount_rate_is_never_used (key value : string) (rest : list string)
    (pre post : list (list string)) :
  key_is key "discount_rate" = true -> is_ok (py_float value) = true ->
  projection (process_cashflow (pre ++ (key :: value :: rest) :: post))
  = projection (process_cashflow (pre ++ post)).
Proof.
  intros K V. apply projection_same_inputs.
  apply (process_rows_related pre post [key :: value :: rest] []).
  intros st. simpl. rewrite process_row_effect.
  assert (A : is_assumption_row (key :: value :: rest) = true).
  { unfold is_assumption_row. simpl.
    apply (key_is_assumption_key key "discount_rate"); [simpl; auto|exact K]. }
  destruct (row_effect_assumption _ A) as (c0 & c1 & r & [= <- <- <-] & H).
  assert (X : forall k, chars "discount_rate" <> chars k -> key_is key k = false)
    by (intros k; apply key_is_exclusive; exact K).
  destruct H as [[K' _]|[[_ ->]|[[K' _]|[K' _]]]];
    try (rewrite X in K' by (vm_compute; discriminate); discriminate).
  destruct (py_float value) as [x|]; [|discriminate]. simpl.
  repeat split; simpl. apply Forall_Forall2_diag, Forall_forall.
  intros e _. apply same_employee_inputs_refl.
Qed.

Lemma discount_rate_is_never_used_witness :
  projection (process_cashflow (scenario_rows ++ ("Discount_Rate" :: "0.07" :: []) :: []))
  = projection (process_cashflow (scenario_rows ++ [])).
Proof.
  apply (discount_rate_is_never_used "Discount_Rate" "0.07" [] scenario_rows []);
    vm_compute; reflexivity.
Defined.

Lemma blank_row_cons (c : string) (row : list string) :
  blank_row (c :: row) = blank c && blank_row row.
Proof. reflexivity. Qed.

Lemma parse_date_ok_not_blank (c : string) : is_ok (parse_date c) = true -> blank c = false.
Proof.
  destruct (blank c) eqn:B; [|reflexivity].
  rewrite (parse_date_blank c B). discriminate.
Qed.

(** X13: the joining date of a row must parse and is otherwise unused:
    another date that parses gives the same projection. *)
Theorem joining_date_is_never_used (c0 c1 c2 c3 c3' c4 : string) (rest : list string)
    (pre post : list (list string)) :
  is_ok (parse_date c3) = true -> is_ok (parse_date c3') = true ->
  projection (process_cashflow (pre ++ (c0 :: c1 :: c2 :: c3 :: c4 :: rest) :: post))
  = projection (process_cashflow (pre ++ (c0 :: c1 :: c2 :: c3' :: c4 :: rest) :: post)).
Proof.
  intros H3 H3'. apply projection_same_inputs.
  apply (process_rows_related pre post [c0 :: c1 :: c2 :: c3 :: c4 :: rest]
           [c0 :: c1 :: c2 :: c3' :: c4 :: rest]).
  intros st. cbn [process_rows]. rewrite !process_row_effect.
  assert (E : match row_effect_of (c0 :: c1 :: c2 :: c3 :: c4 :: rest),
                    row_effect_of (c0 :: c1 :: c2 :: c3' :: c4 :: rest) with
              | AddEmployee a, AddEmployee b => same_employee_inputs a b
              | f, g => f = g
              end).
  { unfold row_effect_of. rewrite !blank_row_cons.
    rewrite (parse_date_ok_not_blank c3 H3), (parse_date_ok_not_blank c3' H3').
    rewrite !andb_false_r. cbn [andb].
    destruct (key_is c0 "valuation_date"); [destruct (effect_of_result _ _); try reflexivity; apply same_employee_inputs_refl|].
    destruct (key_is c0 "discount_rate"); [destruct (effect_of_result _ _); try reflexivity; apply same_employee_inputs_refl|].
    destruct (key_is c0 "salary_increase_rate"); [destruct (effect_of_result _ _); try reflexivity; apply same_employee_inputs_refl|].
    destruct (key_is c0 "retirement_age"); [destruct (effect_of_result _ _); try reflexivity; apply same_employee_inputs_refl|].
    change (5 <=? length (c0 :: c1 :: c2 :: c3 :: c4 :: rest))%nat with true.
    change (5 <=? length (c0 :: c1 :: c2 :: c3' :: c4 :: rest))%nat with true.
    cbv iota. destruct (is_header_key c0); [reflexivity|].
    unfold employee_row, cell; cbn [nth_error rbind].
    destruct (parse_date c2); cbn [rbind]; [|destruct e; reflexivity].
    destruct (parse_date c3); [|discriminate]. destruct (parse_date c3'); [|discriminate].
    cbn [rbind].
    destruct (py_float _); cbn [rbind]; [repeat split|destruct e; reflexivity]. }
  destruct (row_effect_of (c0 :: c1 :: c2 :: c3 :: c4 :: rest)) as [| | | | |a|],
           (row_effect_of (c0 :: c1 :: c2 :: c3' :: c4 :: rest)) as [| | | | |b|];
    try discriminate; try (injection E as ->); cbn [apply_effect rbind];
    try (apply same_inputs_refl); try reflexivity.
  repeat split; simpl. apply Forall2_app.
  - apply Forall_Forall2_diag, Forall_forall. intros e _. apply same_employee_inputs_refl.
  - constructor; [exact E|constructor].
Qed.

Lemma joining_date_is_never_used_witness :
  projection (process_cashflow
                ([] ++ ("E1" :: "Alice" :: "1970-01-01" :: "2000-01-01" :: "50000" :: []) :: []))
  = projection (process_cashflow
                  ([] ++ ("E1" :: "Alice" :: "1970-01-01" :: "31/12/1999" :: "50000" :: []) :: [])).
Proof.
  apply (joining_date_is_never_used "E1" "Alice" "1970-01-01" "2000-01-01" "31/12/1999" "50000"
           [] [] []);
    vm_compute; reflexivity.
Defined.

(** ** The order of the rows *)

Lemma row_effect_assumption_cases (row : list string) :
  is_assumption_row row = true ->
  (exists d, row_effect_of row = SetValuationDate d) \/
  (exists x, row_effect_of row = SetDiscountRate x) \/
  (exists x, row_effect_of row = SetSalaryIncreaseRate x) \/
  (exists n, row_effect_of row = SetRetirementAge n) \/
  (exists e, row_effect_of row = Abort e).
Proof.
  intros A. destruct (row_effect_assumption row A) as (c0 & c1 & rest & _ & H).
  destruct H as [[_ ->]|[[_ ->]|[[_ ->]|[_ ->]]]];
    match goal with |- context [effect_of_result _ ?r] => destruct r end; simpl; eauto 8.
Qed.

(** X14: an assumption row and a neighbour that is no assumption row can be
    swapped: assumptions hold for the employees listed before them as well.
    *)
Theorem assumption_row_position_is_irrelevant (a r : list string)
    (pre post : list (list string)) :
  is_assumption_row a = true -> is_assumption_row r = false ->
  process_cashflow (pre ++ a :: r :: post) = process_cashflow (pre ++ r :: a :: post).
Proof.
  intros Ha Hr. apply process_cashflow_rows_eq.
  rewrite (process_rows_app initial_state pre (a :: r :: post)),
    (process_rows_app initial_state pre (r :: a :: post)).
  destruct (process_rows initial_state pre) as [st|e]; cbn [rbind]; [|reflexivity].
  cbn [process_rows].
  destruct (row_effect_not_assumption r Hr) as [Er | (emp & Er & _)];
    destruct (row_effect_assumption_cases a Ha) as [[x Ea]|[[x Ea]|[[x Ea]|[[x Ea]|[x Ea]]]]];
    repeat (rewrite ?process_row_effect, ?Ea, ?Er; cbn [apply_effect rbind]); reflexivity.
Qed.

Lemma assumption_row_position_is_irrelevant_witness :
  process_cashflow
    ([] ++ ["retirement_age"; "58"] :: ["E1"; "Alice"; "1970-01-01"; "2000-01-01"; "50000"] :: [])
  = process_cashflow
      ([] ++ ["E1"; "Alice"; "1970-01-01"; "2000-01-01"; "50000"] :: ["retirement_age"; "58"] :: []).
Proof.
  apply (assumption_row_position_is_irrelevant ["retirement_age"; "58"]
           ["E1"; "Alice"; "1970-01-01"; "2000-01-01"; "50000"] [] []);
    vm_compute; reflexivity.
Defined.






(** ** Headers, further cells and the employees recorded *)

Lemma key_is_blank (c k : string) : blank c = true -> chars k <> [] -> key_is c k = false.
Proof.
  intros B Hk. unfold key_is. rewrite (blank_strip c B). simpl.
  destruct (chars k); [contradiction|reflexivity].
Qed.

Lemma header_key_not_assumption_key (c : string) :
  is_header_key c = true -> is_assumption_key c = false.
Proof.
  unfold is_header_key, is_assumption_key. intros H.
  apply orb_true_iff in H as [H|H]; [apply orb_true_iff in H as [H|H]|];
    rewrite !(key_is_exclusive c _ _ H) by (vm_compute; discriminate); reflexivity.
Qed.

Lemma row_effect_header (row : list string) :
  is_header_key (hd "" row) = true -> row_effect_of row = Skipped.
Proof.
  intros H. unfold row_effect_of. destruct (blank_row row); [reflexivity|].
  destruct row as [|c0 [|c1 rest]]; [reflexivity|reflexivity|]. simpl in H.
  pose proof (header_key_not_assumption_key c0 H) as A. unfold is_assumption_key in A.
  apply orb_false_iff in A as [A A4]. apply orb_false_iff in A as [A A3].
  apply orb_false_iff in A as [A1 A2]. rewrite A1, A2, A3, A4, H.
  destruct (5 <=? _)%nat; reflexivity.
Qed.

(** X16: a row whose first cell is a header key is skipped, wherever it
    stands and whatever it holds. *)
Theorem header_rows_are_skipped (row : list string) (pre post : list (list string)) :
  is_header_key (hd "" row) = true ->
  process_cashflow (pre ++ row :: post) = process_cashflow (pre ++ post).
Proof.
  intros H. apply process_cashflow_rows_eq. apply process_rows_skip.
  intros st. rewrite process_row_effect, (row_effect_header row H). reflexivity.
Qed.

Lemma header_rows_are_skipped_witness :
  process_cashflow
    (scenario_rows ++ [" Employee_ID"; "1970-01-01"] :: [["E2"; "Bob"; "1980-05-05"; "2001-01-01"; "1"]])
  = process_cashflow (scenario_rows ++ [["E2"; "Bob"; "1980-05-05"; "2001-01-01"; "1"]]).
Proof.
  apply (header_rows_are_skipped [" Employee_ID"; "1970-01-01"] scenario_rows
           [["E2"; "Bob"; "1980-05-05"; "2001-01-01"; "1"]]).
  vm_compute. reflexivity.
Defined.

Lemma blank_row_app (a b : list string) : blank_row (a ++ b) = blank_row a && blank_row b.
Proof. unfold blank_row. apply forallb_app. Qed.

Lemma employee_row_five (c0 c1 c2 c3 c4 : string) (rest rest' : list string) :
  employee_row (c0 :: c1 :: c2 :: c3 :: c4 :: rest)
  = employee_row (c0 :: c1 :: c2 :: c3 :: c4 :: rest').
Proof. reflexivity. Qed.

(** X17: cells after the fifth are ignored. *)
Theorem cells_beyond_fifth_are_ignored (st : parse_state) (row extra : list string) :
  (5 <= length row)%nat -> process_row st (row ++ extra) = process_row st row.
Proof.
  intros L. rewrite !process_row_effect. f_equal.
  destruct row as [|c0 [|c1 [|c2 [|c3 [|c4 rest]]]]]; simpl in L; try lia.
  unfold row_effect_of. cbn [app].
  change (5 <=? length (c0 :: c1 :: c2 :: c3 :: c4 :: rest ++ extra))%nat with true.
  change (5 <=? length (c0 :: c1 :: c2 :: c3 :: c4 :: rest))%nat with true.
  rewrite (employee_row_five c0 c1 c2 c3 c4 (rest ++ extra) rest).
  rewrite !blank_row_cons, blank_row_app.
  destruct (blank c0) eqn:B0.
  - rewrite !(key_is_blank c0) by (try exact B0; vm_compute; discriminate).
    assert (H : is_header_key c0 = false).
    { unfold is_header_key.
      rewrite !(key_is_blank c0) by (try exact B0; vm_compute; discriminate). reflexivity. }
    rewrite H. cbv iota.
    destruct (blank c2) eqn:B2.
    + assert (E : employee_row (c0 :: c1 :: c2 :: c3 :: c4 :: rest) = Raise ValueError).
      { apply employee_row_malformed. left. rewrite (parse_date_blank c2 B2). reflexivity. }
      rewrite E. repeat match goal with |- context [if ?b then _ else _] => destruct b end;
        reflexivity.
    + rewrite !andb_false_r. reflexivity.
  - reflexivity.
Qed.

Lemma cells_beyond_fifth_are_ignored_witness :
  process_row initial_state
    (["E1"; "Alice"; "1970-01-01"; "2000-01-01"; "50"] ++ ["000"; "remark"])
  = process_row initial_state ["E1"; "Alice"; "1970-01-01"; "2000-01-01"; "50"].
Proof.
  apply (cells_beyond_fifth_are_ignored initial_state
           ["E1"; "Alice"; "1970-01-01"; "2000-01-01"; "50"] ["000"; "remark"]).
  cbn. lia.
Defined.

Lemma recorded_employee_effect (row : list string) :
  match row_effect_of row with
  | AddEmployee e => recorded_employee row = Some e
  | Abort _ => True
  | _ => recorded_employee row = None
  end.
Proof.
  unfold recorded_employee.
  destruct (is_assumption_row row) eqn:A.
  - destruct (row_effect_assumption_cases row A) as [[x ->]|[[x ->]|[[x ->]|[[x ->]|[x ->]]]]];
      reflexivity.
  - cbn [orb]. unfold row_effect_of.
    destruct (blank_row row) eqn:B.
    { destruct (_ <? _)%nat; [reflexivity|]. destruct (is_header_key _); [reflexivity|].
      cbn [orb]. destruct row as [|c0 [|c1 [|c2 rest]]]; try reflexivity.
      rewrite !blank_row_cons in B. apply andb_true_iff in B as [_ B].
      apply andb_true_iff in B as [_ B]. apply andb_true_iff in B as [B _].
      unfold employee_row, cell; cbn [nth_error rbind].
      rewrite (parse_date_blank c2 B). reflexivity. }
    destruct row as [|c0 [|c1 rest]]; [reflexivity|reflexivity|].
    unfold is_assumption_row in A.
    change (2 <=? length (c0 :: c1 :: rest))%nat with true in A. simpl in A.
    unfold is_assumption_key in A.
    apply orb_false_iff in A as [A A4]. apply orb_false_iff in A as [A A3].
    apply orb_false_iff in A as [A1 A2]. rewrite A1, A2, A3, A4.
    rewrite Nat.ltb_antisym. destruct (5 <=? length (c0 :: c1 :: rest))%nat; [|reflexivity].
    cbn [negb orb hd]. destruct (is_header_key c0); [reflexivity|].
    destruct (employee_row (c0 :: c1 :: rest)) as [e|x] eqn:E; [reflexivity|].
    destruct (employee_row_exn _ _ E) as [-> | ->]; reflexivity.
Qed.

Lemma process_rows_employees (rows : list (list string)) :
  forall st st', process_rows st rows = Ok st' ->
    employees st' = employees st ++ omap recorded_employee rows.
Proof.
  induction rows as [|row rows IH]; intros st st' H.
  - injection H as <-. simpl. rewrite app_nil_r. reflexivity.
  - cbn [process_rows] in H. rewrite process_row_effect in H.
    pose proof (recorded_employee_effect row) as R.
    destruct (row_effect_of row) as [|d|x|x|n|e|x]; cbn [apply_effect rbind] in H;
      try discriminate; apply IH in H; rewrite H; cbn [omap list_omap]; rewrite R;
      cbn [employees add_employee]; try reflexivity.
    rewrite <- app_assoc. reflexivity.
Qed.

(** X18: the employees of a run are the rows that record one, in the order
    of the input and with repetitions; their number is the first count. *)
Theorem employees_are_the_recorded_rows (rows : list (list string)) (res : run_result) :
  process_cashflow rows = Ok res ->
  employees (final_state res) = omap recorded_employee rows /\
  input_row_count res = length (omap recorded_employee rows).
Proof.
  unfold process_cashflow. intros H.
  destruct (process_rows initial_state rows) as [st|] eqn:E; [|discriminate].
  cbn [rbind] in H.
  destruct (project_all DEFAULT_PROBABILITY_TABLE st (employees st)); [|discriminate].
  injection H as <-. cbn [final_state input_row_count].
  apply process_rows_employees in E. simpl in E. rewrite E. auto.
Qed.

Lemma employees_are_the_recorded_rows_witness :
  exists res,
    employees (final_state res) = omap recorded_employee scenario_rows /\
    input_row_count res = length (omap recorded_employee scenario_rows).
Proof.
  eexists. eapply (employees_are_the_recorded_rows scenario_rows). vm_compute. reflexivity.
Defined.

(** ** The shape of the output rows *)

Lemma project_ages_keys (t : gmap Z (spec_float * spec_float)) (rate : spec_float)
    (emp : employee) (ages : list Z) :
  forall fs rows,
    project_ages t rate emp ages fs = Ok rows ->
    map row_key rows = map (fun age => (emp_id emp, emp_name emp, age)) ages.
Proof.
  induction ages as [|age ages IH]; intros fs rows H.
  - injection H as <-. reflexivity.
  - cbn [project_ages] in H.
    destruct (get_probability age t) as [[qx px]|]; [|discriminate]. cbn [rbind] in H.
    destruct (project_ages t rate emp ages _) as [rest|] eqn:E; [|discriminate].
    injection H as <-. cbn [map]. rewrite (IH _ _ E). reflexivity.
Qed.

Lemma py_range_length (a b : Z) : Z.of_nat (length (py_range a b)) = Z.max 0 (b - a).
Proof. unfold py_range. rewrite length_map, length_seq. lia. Qed.

Lemma project_all_blocks (t : gmap Z (spec_float * spec_float)) (st : parse_state)
    (emps : list employee) :
  forall out, project_all t st emps = Ok out ->
    exists ages,
      Forall2 (fun e a => calculate_age (date_birth e) (valuation_date st) = Ok a) emps ages /\
      map row_key out = concat (zip_with (employee_block st) emps ages) /\
      Z.of_nat (length out)
      = fold_right Z.add 0 (map (fun a => Z.max 0 (retirement_age st - a)) ages).
Proof.
  induction emps as [|emp emps IH]; intros out H.
  - injection H as <-. exists []. repeat split. constructor.
  - cbn [project_all] in H.
    destruct (project_employee t st emp) as [rows|] eqn:E; [|discriminate]. cbn [rbind] in H.
    destruct (project_all t st emps) as [rest|] eqn:E'; [|discriminate].
    injection H as <-. destruct (IH rest eq_refl) as (ages & Hf & Hk & Hn).
    unfold project_employee in E.
    destruct (calculate_age (date_birth emp) (valuation_date st)) as [a|] eqn:Ea;
      [|discriminate].
    cbn [rbind] in E. exists (a :: ages). split; [constructor; assumption|].
    pose proof (project_ages_keys _ _ _ _ _ _ E) as K.
    split.
    + cbn [zip_with concat]. rewrite map_app, K, Hk. reflexivity.
    + rewrite length_app, Nat2Z.inj_add, Hn. cbn [map fold_right].
      f_equal. rewrite <- py_range_length.
      rewrite <- (length_map row_key rows), K, length_map. reflexivity.
Qed.

(** X19: the output rows are one block per employee, in the order of the
    employees, with the consecutive ages from the current age to the
    retirement age; the second count is the sum of their lengths. *)
Theorem output_is_one_block_per_employee (rows : list (list string)) (res : run_result) :
  process_cashflow rows = Ok res ->
  let st := final_state res in
  exists ages,
    Forall2 (fun e a => calculate_age (date_birth e) (valuation_date st) = Ok a)
            (employees st) ages /\
    map row_key (output_rows res) = concat (zip_with (employee_block st) (employees st) ages) /\
    Z.of_nat (output_row_count res)
    = fold_right Z.add 0 (map (fun a => Z.max 0 (retirement_age st - a)) ages).
Proof.
  unfold process_cashflow. intros H.
  destruct (process_rows initial_state rows) as [st|] eqn:E; [|discriminate].
  cbn [rbind] in H.
  destruct (project_all DEFAULT_PROBABILITY_TABLE st (employees st)) as [out|] eqn:P;
    [|discriminate].
  injection H as <-. cbn [final_state output_rows output_row_count].
  apply project_all_blocks in P. exact P.
Qed.

Lemma output_is_one_block_per_employee_witness :
  exists res,
    let st := final_state res in
    exists ages,
      Forall2 (fun e a => calculate_age (date_birth e) (valuation_date st) = Ok a)
              (employees st) ages /\
      map row_key (output_rows res) = concat (zip_with (employee_block st) (employees st) ages) /\
      Z.of_nat (output_row_count res)
      = fold_right Z.add 0 (map (fun a => Z.max 0 (retirement_age st - a)) ages).
Proof.
  eexists. eapply (output_is_one_block_per_employee scenario_rows). vm_compute. reflexivity.
Defined.

(** ** The reader, character by character *)

Lemma obind_ext {A B : Type} (r : outcome A) (f g : A -> outcome B) :
  (forall a, f a = g a) -> obind r f = obind r g.
Proof. intros H. destruct r; simpl; [apply H|reflexivity]. Qed.

Lemma obind_assoc {A B C : Type} (r : outcome A) (f : A -> outcome B) (g : B -> outcome C) :
  obind (obind r f) g = obind r (fun a => obind (f a) g).
Proof. destruct r; reflexivity. Qed.

Lemma read_records_cons (r : reader) (line : list ascii) (lines : list (list ascii)) :
  read_records r (line :: lines)
  = obind (parse_line r line) (fun r' =>
      if in_start_record r'
      then obind (read_records parse_reset lines) (fun rows => Returns (rd_fields r' :: rows))
      else read_records r' lines).
Proof. reflexivity. Qed.

Lemma read_chars_lines (s : list ascii) :
  (forall r, read_chars false r s = read_records r (readlines s)) /\
  (forall r, read_chars true r s
             = match readlines s with
               | [] => end_of_line r at_end
               | l :: ls => read_records r (l :: ls)
               end).
Proof.
  induction s as [|c s [IHf IHt]].
  - split; reflexivity.
  - assert (E : forall r,
               read_chars false r (c :: s) = read_records r (readlines (c :: s))).
    { intros r. cbn [read_chars readlines].
      destruct (ascii_eqb c LF).
      - rewrite read_records_cons. cbn [parse_line]. rewrite obind_assoc.
        apply obind_ext. intros r'. unfold end_of_line. apply obind_ext. intros r''.
        rewrite !IHf. reflexivity.
      - destruct (readlines s) as [|l ls] eqn:El.
        + rewrite read_records_cons. cbn [parse_line]. rewrite obind_assoc.
          apply obind_ext. intros r'. rewrite IHt. reflexivity.
        + rewrite read_records_cons. cbn [parse_line]. rewrite obind_assoc.
          apply obind_ext. intros r'. rewrite IHt, read_records_cons. reflexivity. }
    split; [exact E|].
    intros r. specialize (E r).
    assert (N : exists l ls, readlines (c :: s) = l :: ls).
    { cbn [readlines]. destruct (ascii_eqb c LF); [eauto|].
      destruct (readlines s); eauto. }
    destruct N as (l & ls & N). rewrite N. rewrite N in E. rewrite <- E. reflexivity.
Qed.

Lemma csv_reader_chars (content : string) :
  csv_reader content = read_chars false parse_reset (chars content).
Proof. unfold csv_reader. symmetry. apply read_chars_lines. Qed.

Lemma parse_add_char_ok (r : reader) (c : ascii) :
  Z.of_nat (length (rd_field r)) < field_limit ->
  parse_add_char r c
  = Returns {| rd_state := rd_state r; rd_fields := rd_fields r; rd_field := c :: rd_field r |}.
Proof.
  intros H. unfold parse_add_char.
  destruct (Z.leb_spec field_limit (Z.of_nat (length (rd_field r)))); [lia|reflexivity].
Qed.

Lemma process_char_ok (r : reader) (c : ascii) :
  Z.of_nat (length (rd_field r)) < field_limit ->
  (rd_state r = EAT_CRNL -> is_newline c = true) ->
  exists r',
    parse_process_char r (Some c) = Returns r' /\
    (length (rd_field r') <= S (length (rd_field r)))%nat /\
    (rd_state r' = EAT_CRNL -> is_newline c = true).
Proof.
  intros Hl He. unfold parse_process_char, start_field.
  destruct (rd_state r) eqn:S; cbn [set_state rd_field rd_state];
    repeat match goal with
           | |- context [parse_add_char ?x c] => rewrite (parse_add_char_ok x c) by exact Hl
           | |- context [if ?b then _ else _] => destruct b eqn:?
           end;
    try (discriminate (He eq_refl));
    cbn [obind]; eexists; (split; [reflexivity|]);
    cbn [set_state parse_save_field rd_field rd_state length];
    (split; [lia|]); try discriminate; try (intros _; assumption); try congruence.
  all: intros _; apply He; reflexivity.
Qed.

Lemma process_eol_ok (r : reader) :
  exists r',
    parse_process_char r None = Returns r' /\
    (length (rd_field r') <= length (rd_field r))%nat /\
    rd_state r' <> EAT_CRNL /\
    (in_start_record r' = false -> r' = r).
Proof.
  unfold parse_process_char, start_field.
  destruct r as [st fs f]. destruct st; cbn; eexists; (split; [reflexivity|]); cbn;
    repeat split; try lia; try discriminate; try reflexivity.
Qed.

Lemma at_end_ok (r : reader) : exists rows, at_end r = Returns rows.
Proof. unfold at_end. cbn. destruct (_ || _); eauto. Qed.

Lemma read_chars_total (s : list ascii) :
  forall mid r,
    cr_before_lf s = true ->
    Z.of_nat (length (rd_field r)) + Z.of_nat (length s) <= field_limit ->
    (rd_state r = EAT_CRNL ->
     match s with [] => True | x :: _ => ascii_eqb x LF = true end) ->
    exists rows, read_chars mid r s = Returns rows.
Proof.
  induction s as [|c s IH]; intros mid r Hcr Hlen He.
  - cbn [read_chars]. destruct mid; [|apply at_end_ok].
    unfold end_of_line. destruct (process_eol_ok r) as (r' & -> & _). cbn [obind].
    destruct (in_start_record r').
    + destruct (at_end_ok parse_reset) as (rows & ->). cbn. eauto.
    + apply at_end_ok.
  - cbn [read_chars]. cbn [cr_before_lf] in Hcr. apply andb_true_iff in Hcr as [Hc Hcr].
    cbn [length] in Hlen.
    destruct (process_char_ok r c) as (r' & -> & Hl' & He').
    { lia. }
    { intros E. specialize (He E). unfold is_newline. rewrite He. reflexivity. }
    cbn [obind]. destruct (ascii_eqb c LF) eqn:Elf.
    + unfold end_of_line. destruct (process_eol_ok r') as (r'' & -> & Hl'' & Hs'' & Hu).
      cbn [obind]. destruct (in_start_record r'') eqn:Es.
      * destruct (IH false parse_reset Hcr) as (rows & ->).
        { cbn. unfold field_limit in *. lia. }
        { discriminate. }
        cbn. eauto.
      * apply IH; [exact Hcr|lia|]. intros E. contradiction.
    + apply IH; [exact Hcr|lia|]. intros E. specialize (He' E).
      unfold is_newline in He'. rewrite Elf in He'. cbn in He'. rewrite He' in Hc.
      destruct s; [exact I|exact Hc].
Qed.

(** X20: the reader raises nothing on a text of at most 131072 characters
    whose carriage returns are each followed by a line feed or end the text.
    *)
Theorem csv_reader_total (content : string) :
  cr_before_lf (chars content) = true ->
  Z.of_nat (length (chars content)) <= field_limit ->
  exists rows, csv_reader content = Returns rows.
Proof.
  intros Hcr Hlen. rewrite csv_reader_chars.
  apply read_chars_total; [exact Hcr|cbn; lia|discriminate].
Qed.

Lemma csv_reader_total_witness :
  exists rows, csv_reader (csv_text [CR; LF] [[chars "a"; chars "b,c"]; []; [chars "d"]]) = Returns rows.
Proof.
  apply (csv_reader_total (csv_text [CR; LF] [[chars "a"; chars "b,c"]; []; [chars "d"]])).
  - vm_compute. reflexivity.
  - vm_compute. discriminate.
Defined.

(** ** Reading back what the writer wrote *)

Lemma special_cases (c : ascii) :
  special c = false ->
  is_newline c = false /\ ascii_eqb c DQUOTE = false /\ ascii_eqb c COMMA = false /\
  ascii_eqb c LF = false.
Proof.
  unfold special, is_newline. intros H.
  apply orb_false_iff in H as [H H4]. apply orb_false_iff in H as [H H3].
  apply orb_false_iff in H as [H1 H2]. rewrite H1, H2, H3, H4. auto.
Qed.

Lemma existsb_special_false (l : list ascii) :
  existsb special l = false -> Forall plain l.
Proof.
  induction l as [|c l IH]; [constructor|]. cbn. intros H.
  apply orb_false_iff in H as [H1 H2]. constructor; [exact H1|apply IH, H2].
Qed.

Lemma read_chars_cons_mid (mid : bool) (r : reader) (c : ascii) (s : list ascii) :
  read_chars mid r (c :: s) = read_chars true r (c :: s).
Proof. reflexivity. Qed.

Lemma read_chars_step (mid : bool) (r r' : reader) (c : ascii) (s : list ascii) :
  parse_process_char r (Some c) = Returns r' -> ascii_eqb c LF = false ->
  read_chars mid r (c :: s) = read_chars true r' s.
Proof. intros H E. cbn [read_chars]. rewrite H, E. reflexivity. Qed.

(** The characters of an unquoted field. *)
Lemma read_plain (l : list ascii) :
  Forall plain l ->
  forall mid fs acc x rest,
    Z.of_nat (length acc) + Z.of_nat (length l) <= field_limit ->
    read_chars mid {| rd_state := IN_FIELD; rd_fields := fs; rd_field := acc |}
      (l ++ x :: rest)
    = read_chars true {| rd_state := IN_FIELD; rd_fields := fs; rd_field := rev l ++ acc |}
        (x :: rest).
Proof.
  induction 1 as [|c l Hc _ IH]; intros mid fs acc x rest Hlen.
  - reflexivity.
  - destruct (special_cases c Hc) as (Hn & Hq & Hk & Hlf).
    cbn [app]. erewrite read_chars_step; [|unfold parse_process_char; cbn [rd_state];
      rewrite Hn, Hk; apply parse_add_char_ok; cbn in *; lia|exact Hlf].
    cbn [rd_state rd_fields rd_field].
    rewrite IH by (cbn in *; lia). cbn [rev]. rewrite <- app_assoc. reflexivity.
Qed.

(** The characters of a quoted field, up to the closing quote. *)
Lemma read_quoted (l : list ascii) :
  forall mid fs acc x rest,
    Z.of_nat (length acc) + Z.of_nat (length l) <= field_limit ->
    read_chars mid {| rd_state := IN_QUOTED_FIELD; rd_fields := fs; rd_field := acc |}
      (double_quotes l ++ DQUOTE :: x :: rest)
    = read_chars true
        {| rd_state := QUOTE_IN_QUOTED_FIELD; rd_fields := fs; rd_field := rev l ++ acc |}
        (x :: rest).
Proof.
  induction l as [|c l IH]; intros mid fs acc x rest Hlen.
  - cbn [double_quotes app rev]. apply read_chars_step; reflexivity.
  - cbn [double_quotes]. destruct (ascii_eqb c DQUOTE) eqn:Eq.
    + apply ascii_eqb_eq in Eq. subst c. cbn [app].
      erewrite read_chars_step; [|reflexivity|reflexivity].
      unfold set_state; cbn [rd_state rd_fields rd_field].
      erewrite read_chars_step;
        [|unfold parse_process_char; cbn [rd_state];
          change (ascii_eqb DQUOTE DQUOTE) with true; cbv iota;
          rewrite parse_add_char_ok by (cbn in *; lia); reflexivity|reflexivity].
      unfold set_state; cbn [rd_state rd_fields rd_field].
      rewrite IH by (cbn in *; lia). cbn [rev]. rewrite <- app_assoc. reflexivity.
    + cbn [app read_chars]. unfold parse_process_char at 1. cbn [rd_state].
      rewrite Eq, parse_add_char_ok by (cbn in *; lia).
      cbn [obind rd_state rd_fields rd_field].
      destruct (ascii_eqb c LF).
      * unfold end_of_line. cbn [parse_process_char rd_state obind in_start_record].
        rewrite IH by (cbn in *; lia). cbn [rev]. rewrite <- app_assoc. reflexivity.
      * rewrite IH by (cbn in *; lia). cbn [rev]. rewrite <- app_assoc. reflexivity.
Qed.

Lemma read_open_quote (mid : bool) (r : reader) (s : list ascii) :
  at_field_start r ->
  read_chars mid r (DQUOTE :: s)
  = read_chars true {| rd_state := IN_QUOTED_FIELD; rd_fields := rd_fields r; rd_field := [] |} s.
Proof.
  intros [Hs Hf]. destruct r as [st fs f]. cbn in Hs, Hf. subst f.
  apply read_chars_step; [|reflexivity]. destruct Hs as [-> | ->]; reflexivity.
Qed.

Lemma read_field (r : reader) (f : list ascii) :
  at_field_start r -> within_limit f ->
  forall mid x rest,
    read_chars mid r (join_field f ++ x :: rest) = read_chars true (after_field r f) (x :: rest).
Proof.
  intros Hr Hl mid x rest. unfold join_field, after_field, within_limit in *.
  destruct (existsb special f) eqn:E.
  - cbn [app]. rewrite read_open_quote by exact Hr. rewrite <- app_assoc. cbn [app].
    rewrite read_quoted by (cbn; lia). rewrite app_nil_r. reflexivity.
  - apply existsb_special_false in E. destruct f as [|c f]; [reflexivity|].
    inversion E as [|? ? Hc Hf]; subst.
    destruct (special_cases c Hc) as (Hn & Hq & Hk & Hlf).
    destruct Hr as [Hs Hf0]. destruct r as [st fs f0]. cbn in Hs, Hf0. subst f0.
    cbn [app].
    erewrite read_chars_step;
      [|destruct Hs as [-> | ->]; unfold parse_process_char, start_field;
        cbn [rd_state set_state]; rewrite ?Hn, ?Hq, ?Hk;
        rewrite parse_add_char_ok by (cbn; unfold field_limit; lia); reflexivity|exact Hlf].
    unfold set_state; cbn [rd_state rd_fields rd_field].
    rewrite read_plain by (try exact Hf; cbn in *; lia).
    cbn [rev]. reflexivity.
Qed.

Lemma after_field_comma (r : reader) (f : list ascii) :
  at_field_start r ->
  parse_process_char (after_field r f) (Some COMMA)
  = Returns {| rd_state := START_FIELD;
               rd_fields := rd_fields r ++ [string_of_list_ascii f];
               rd_field := [] |}.
Proof.
  intros [Hs Hf]. destruct r as [st fs f0]. cbn in Hs, Hf. subst f0.
  unfold after_field. destruct (existsb special f).
  - unfold parse_process_char, set_state, parse_save_field.
    cbn [rd_state rd_fields rd_field].
    change (ascii_eqb COMMA DQUOTE) with false. change (ascii_eqb COMMA COMMA) with true.
    cbv iota. rewrite rev_involutive. reflexivity.
  - destruct f as [|c f].
    + destruct Hs as [-> | ->]; reflexivity.
    + unfold parse_process_char, set_state, parse_save_field.
      cbn [rd_state rd_fields rd_field].
      change (is_newline COMMA) with false. change (ascii_eqb COMMA COMMA) with true.
      cbv iota. rewrite rev_involutive. reflexivity.
Qed.

Lemma after_field_newline (r : reader) (f : list ascii) (x : ascii) :
  at_field_start r -> is_newline x = true ->
  rd_state r = START_FIELD \/ join_field f <> [] ->
  parse_process_char (after_field r f) (Some x)
  = Returns {| rd_state := EAT_CRNL;
               rd_fields := rd_fields r ++ [string_of_list_ascii f];
               rd_field := [] |}.
Proof.
  intros [Hs Hf] Hx Hne. destruct r as [st fs f0]. cbn in Hs, Hf, Hne. subst f0.
  assert (Hq : ascii_eqb x DQUOTE = false /\ ascii_eqb x COMMA = false).
  { unfold is_newline in Hx. apply orb_true_iff in Hx as [Hx|Hx];
      apply ascii_eqb_eq in Hx; subst x; split; reflexivity. }
  destruct Hq as [Hq Hk].
  unfold after_field, join_field in *. destruct (existsb special f).
  - unfold parse_process_char, set_state, parse_save_field.
    cbn [rd_state rd_fields rd_field]. rewrite Hq, Hk, Hx.
    rewrite rev_involutive. reflexivity.
  - destruct f as [|c f].
    + destruct Hne as [-> | Hne]; [|contradiction].
      unfold parse_process_char, start_field. cbn [rd_state]. rewrite Hx. reflexivity.
    + unfold parse_process_char, set_state, parse_save_field.
      cbn [rd_state rd_fields rd_field]. rewrite Hx.
      rewrite rev_involutive. reflexivity.
Qed.

Lemma read_line_end (r : reader) (x : ascii) (t rest : list ascii) (fields : list string) :
  line_end (x :: t) ->
  parse_process_char r (Some x)
  = Returns {| rd_state := EAT_CRNL; rd_fields := fields; rd_field := [] |} ->
  forall mid,
    read_chars mid r (x :: t ++ rest)
    = obind (read_chars false parse_reset rest) (fun rows => Returns (fields :: rows)).
Proof.
  intros He Hp mid.
  destruct He as [[= -> ->]|[= -> ->]]; cbn [app read_chars]; rewrite Hp; cbn [obind].
  - change (ascii_eqb LF LF) with true. cbv iota. reflexivity.
  - change (ascii_eqb CR LF) with false. cbv iota. cbn [read_chars].
    reflexivity.
Qed.

Lemma is_newline_line_end (x : ascii) (t : list ascii) : line_end (x :: t) -> is_newline x = true.
Proof. intros [[= -> ->]|[= -> ->]]; reflexivity. Qed.

(** The fields of a record from the start of a field on. *)
Lemma read_fields (fs : list (list ascii)) :
  Forall within_limit fs -> fs <> [] ->
  forall r x t rest mid,
    at_field_start r -> line_end (x :: t) ->
    rd_state r = START_FIELD \/ join_fields fs <> [] ->
    read_chars mid r (join_fields fs ++ x :: t ++ rest)
    = obind (read_chars false parse_reset rest)
        (fun rows => Returns ((rd_fields r ++ map string_of_list_ascii fs) :: rows)).
Proof.
  induction 1 as [|f fs Hf Hfs IH]; [contradiction|].
  intros _ r x t rest mid Hr He Hne.
  destruct fs as [|f2 fs].
  - cbn [join_fields map]. rewrite read_field by assumption.
    apply read_line_end; [exact He|].
    apply after_field_newline; [exact Hr|eapply is_newline_line_end; exact He|exact Hne].
  - cbn [join_fields]. rewrite <- app_assoc. cbn [app].
    rewrite read_field by assumption.
    erewrite read_chars_step; [|apply after_field_comma; exact Hr|reflexivity].
    rewrite IH; [|discriminate|split; [right; reflexivity|reflexivity]|exact He
                 |left; reflexivity].
    cbn [rd_fields map]. rewrite <- app_assoc. reflexivity.
Qed.

Lemma join_fields_nil (fs : list (list ascii)) :
  join_fields fs = [] -> fs = [] \/ fs = [[]].
Proof.
  destruct fs as [|f [|f2 fs]]; [auto| |].
  - cbn. unfold join_field. destruct (existsb special f); [discriminate|].
    intros ->. auto.
  - cbn. intros H. apply app_eq_nil in H as [_ H]. discriminate.
Qed.

(** A record and the end of its line. *)
Lemma read_record (fs : list (list ascii)) (eol rest : list ascii) :
  Forall within_limit fs -> line_end eol ->
  forall mid,
    read_chars mid parse_reset (record_body fs ++ eol ++ rest)
    = obind (read_chars false parse_reset rest)
        (fun rows => Returns (map string_of_list_ascii fs :: rows)).
Proof.
  intros Hl He mid.
  assert (Hx : exists x t, eol = x :: t) by (destruct He as [-> | ->]; eauto).
  destruct Hx as (x & t & ->).
  destruct fs as [|f fs].
  - cbn [record_body join_fields app map].
    apply read_line_end; [exact He|].
    destruct He as [[= -> ->]|[= -> ->]]; reflexivity.
  - assert (D : join_fields (f :: fs) = [] \/ join_fields (f :: fs) <> [])
      by (destruct (join_fields (f :: fs)); [left; reflexivity|right; discriminate]).
    destruct D as [E|E].
    + apply join_fields_nil in E as [E|E]; [discriminate|]. injection E as -> ->.
      cbn [record_body app map].
      rewrite read_open_quote by (split; [left; reflexivity|reflexivity]).
      erewrite read_chars_step; [|reflexivity|reflexivity].
      unfold set_state; cbn [rd_state rd_fields rd_field].
      apply read_line_end; [exact He|].
      pose proof (is_newline_line_end x t He) as Hn.
      unfold parse_process_char. cbn [rd_state].
      destruct He as [[= -> ->]|[= -> ->]]; reflexivity.
    + assert (Eb : record_body (f :: fs) = join_fields (f :: fs)).
      { unfold record_body. destruct f; [|reflexivity]. destruct fs; [|reflexivity].
        exfalso. apply E. reflexivity. }
      rewrite Eb. change ((x :: t) ++ rest) with (x :: t ++ rest).
      rewrite (read_fields (f :: fs) Hl); [reflexivity|discriminate
        |split; [left; reflexivity|reflexivity]|exact He|right; exact E].
Qed.

Lemma read_records_text (rows : list (list (list ascii))) (eol : list ascii) :
  Forall (Forall within_limit) rows -> line_end eol ->
  read_chars false parse_reset (concat (map (fun fs => record_body fs ++ eol) rows))
  = Returns (map (map string_of_list_ascii) rows).
Proof.
  intros Hl He. induction Hl as [|fs rows Hfs _ IH]; [reflexivity|].
  cbn [map concat]. rewrite <- app_assoc. rewrite read_record by assumption.
  rewrite IH. reflexivity.
Qed.

Lemma writerows_cells (rows : list (list value)) :
  writerows rows
  = let* cells := cells_of rows in Ok (concat (map record_text cells)).
Proof.
  induction rows as [|row rows IH]; [reflexivity|].
  cbn [writerows cells_of]. unfold writerow. rewrite IH.
  destruct (texts_of row); cbn [rbind]; [|reflexivity].
  destruct (cells_of rows); reflexivity.
Qed.

(** The reader on a text given by its characters. *)
Lemma csv_reader_of_chars (l : list ascii) :
  csv_reader (string_of_list_ascii l) = read_chars false parse_reset l.
Proof.
  rewrite csv_reader_chars. unfold chars.
  rewrite list_ascii_of_string_of_list_ascii. reflexivity.
Qed.

(** X21: records written as the writer writes them, with lines ended by CR
    LF or by LF, are read back as the same rows of cells. *)
Theorem csv_text_reads_back (cells : list (list (list ascii))) (eol : list ascii) :
  Forall (Forall within_limit) cells -> line_end eol ->
  csv_reader (csv_text eol cells) = Returns (map (map string_of_list_ascii) cells).
Proof.
  intros Hl He. unfold csv_text. rewrite csv_reader_of_chars.
  apply read_records_text; assumption.
Qed.

Lemma csv_text_reads_back_witness :
  csv_reader (csv_text [CR; LF]
                [[chars "E1"; chars "Smith, John"; DQUOTE :: chars "x" ++ [DQUOTE; LF]]; [];
                 [[]]; [[]; chars "z"]])
  = Returns (map (map string_of_list_ascii)
               [[chars "E1"; chars "Smith, John"; DQUOTE :: chars "x" ++ [DQUOTE; LF]]; [];
                [[]]; [[]; chars "z"]]).
Proof.
  apply (csv_text_reads_back
           [[chars "E1"; chars "Smith, John"; DQUOTE :: chars "x" ++ [DQUOTE; LF]]; [];
            [[]]; [[]; chars "z"]] [CR; LF]).
  - repeat constructor; unfold within_limit; vm_compute; discriminate.
  - right. reflexivity.
Defined.

Lemma output_csv_text (now : datetime) (res : run_result) (text : string) :
  output_csv now res = Ok text ->
  exists cells, cells_of (written_rows now res) = Ok cells /\ text = csv_text [CR; LF] cells.
Proof.
  unfold output_csv. rewrite writerows_cells.
  destruct (cells_of (written_rows now res)) as [cells|]; [|discriminate].
  cbn [rbind]. intros [= <-]. exists cells. split; reflexivity.
Qed.

Lemma cells_of_length (rows : list (list value)) (cells : list (list (list ascii))) :
  cells_of rows = Ok cells -> length cells = length rows.
Proof.
  revert cells. induction rows as [|row rows IH]; intros cells H.
  - injection H as <-. reflexivity.
  - cbn [cells_of] in H. destruct (texts_of row); [|discriminate]. cbn [rbind] in H.
    destruct (cells_of rows) as [rest|]; [|discriminate]. injection H as <-.
    cbn. rewrite (IH rest eq_refl). reflexivity.
Qed.

(** X22: when the whole function returns, the counts are those of the run,
    the output has eleven records and one per output row, and reading the
    output gives back the cells written, when none is longer than the limit
    of the reader. *)
Theorem output_file_reads_back (now : datetime) (content text : string) (n m : nat) :
  process_cashflow_file now content = Returns (text, n, m) ->
  exists rows res cells,
    csv_reader content = Returns rows /\
    process_cashflow rows = Ok res /\
    n = input_row_count res /\ m = output_row_count res /\
    cells_of (written_rows now res) = Ok cells /\
    length cells = (11 + m)%nat /\
    (Forall (Forall within_limit) cells ->
     csv_reader text = Returns (map (map string_of_list_ascii) cells)).
Proof.
  unfold process_cashflow_file. intros H.
  destruct (csv_reader content) as [rows|]; [|discriminate]. cbn [obind] in H.
  destruct (process_cashflow rows) as [res|] eqn:P; [|discriminate]. cbn [lift obind] in H.
  destruct (output_csv now res) as [t|] eqn:O; [|discriminate]. cbn [lift obind] in H.
  injection H as <- <- <-.
  destruct (output_csv_text _ _ _ O) as (cells & Hc & ->).
  exists rows, res, cells. repeat split; try assumption.
  - rewrite (cells_of_length _ _ Hc). unfold written_rows.
    rewrite length_app, length_map. cbn [summary_rows length].
    assert (L : output_row_count res = length (output_rows res)).
    { unfold process_cashflow in P.
      destruct (process_rows initial_state rows); [|discriminate]. cbn [rbind] in P.
      destruct (project_all _ _ _); [|discriminate]. injection P as <-. reflexivity. }
    rewrite L. reflexivity.
  - intros Hl. unfold csv_text. rewrite csv_reader_of_chars.
    apply read_records_text; [exact Hl|right; reflexivity].
Qed.

Lemma output_file_reads_back_witness :
  exists text n m rows res cells,
    csv_reader (csv_text [LF] scenario_cells) = Returns rows /\
    process_cashflow rows = Ok res /\
    n = input_row_count res /\ m = output_row_count res /\
    cells_of (written_rows (mk_datetime 2025 1 15 10 30 0) res) = Ok cells /\
    length cells = (11 + m)%nat /\
    (Forall (Forall within_limit) cells ->
     csv_reader text = Returns (map (map string_of_list_ascii) cells)).
Proof.
  do 3 eexists.
  eapply (output_file_reads_back (mk_datetime 2025 1 15 10 30 0) (csv_text [LF] scenario_cells)).
  vm_compute. reflexivity.
Defined.

(** X23: the whole function on the text of a file written in that way is the
    run on its rows of cells, followed by the writing of the output. *)
Theorem file_is_processed_as_its_rows (now : datetime) (cells : list (list (list ascii)))
    (eol : list ascii) :
  Forall (Forall within_limit) cells -> line_end eol ->
  process_cashflow_file now (csv_text eol cells)
  = obind (lift (process_cashflow (map (map string_of_list_ascii) cells))) (fun res =>
    obind (lift (output_csv now res)) (fun text =>
    Returns (text, input_row_count res, output_row_count res))).
Proof.
  intros Hl He. unfold process_cashflow_file.
  unfold csv_text. rewrite csv_reader_of_chars.
  rewrite (read_records_text cells eol Hl He). reflexivity.
Qed.

Lemma file_is_processed_as_its_rows_witness :
  process_cashflow_file (mk_datetime 2025 1 15 10 30 0) (csv_text [LF] scenario_cells)
  = obind (lift (process_cashflow (map (map string_of_list_ascii) scenario_cells))) (fun res =>
    obind (lift (output_csv (mk_datetime 2025 1 15 10 30 0) res)) (fun text =>
    Returns (text, input_row_count res, output_row_count res))).
Proof.
  apply (file_is_processed_as_its_rows (mk_datetime 2025 1 15 10 30 0) scenario_cells [LF]).
  - repeat constructor; unfold within_limit; vm_compute; discriminate.
  - left. reflexivity.
Defined.

Lemma parse_process_char_exn (r : reader) (c : option ascii) (e : file_exn) :
  parse_process_char r c = Raises e -> e = CsvError.
Proof.
  unfold parse_process_char, start_field, parse_add_char.
  destruct (rd_state r), c as [x|];
    repeat match goal with |- context [if ?b then _ else _] => destruct b end;
    cbn [obind]; intros H; try discriminate; injection H as <-; reflexivity.
Qed.

Lemma parse_line_exn (line : list ascii) :
  forall r e, parse_line r line = Raises e -> e = CsvError.
Proof.
  induction line as [|c line IH]; intros r e; cbn [parse_line].
  - apply parse_process_char_exn.
  - destruct (parse_process_char r (Some c)) as [r'|x] eqn:E; cbn [obind].
    + apply IH.
    + intros [= <-]. eapply parse_process_char_exn; eassumption.
Qed.

Lemma read_records_exn (lines : list (list ascii)) :
  forall r e, read_records r lines = Raises e -> e = CsvError.
Proof.
  induction lines as [|line lines IH]; intros r e; cbn [read_records].
  - destruct (_ || _); discriminate.
  - destruct (parse_line r line) as [r'|x] eqn:E; cbn [obind].
    + destruct (in_start_record r'); [|apply IH].
      destruct (read_records parse_reset lines) as [rows|y] eqn:E'; cbn [obind];
        [discriminate|]. intros [= <-]. eapply IH; eassumption.
    + intros [= <-]. eapply parse_line_exn; eassumption.
Qed.

Lemma str_of_Z_exn (n : Z) (e : exn) : str_of_Z n = Raise e -> e = ValueError.
Proof. unfold str_of_Z. destruct (_ <? _); [intros [= <-]; reflexivity|discriminate]. Qed.

Lemma texts_of_exn (row : list value) (e : exn) : texts_of row = Raise e -> e = ValueError.
Proof.
  induction row as [|v row IH]; [discriminate|]. cbn [texts_of].
  destruct (text_of v) as [t|x] eqn:E; cbn [rbind].
  - destruct (texts_of row); [discriminate|]. cbn [rbind]. intros [= <-]. apply IH. reflexivity.
  - intros [= <-]. destruct v; try discriminate. eapply str_of_Z_exn; eassumption.
Qed.

Lemma cells_of_exn (rows : list (list value)) (e : exn) :
  cells_of rows = Raise e -> e = ValueError.
Proof.
  induction rows as [|row rows IH]; [discriminate|]. cbn [cells_of].
  destruct (texts_of row) as [t|x] eqn:E; cbn [rbind].
  - destruct (cells_of rows); [discriminate|]. cbn [rbind]. intros [= <-]. apply IH. reflexivity.
  - intros [= <-]. eapply texts_of_exn; eassumption.
Qed.

(** X24: the whole function raises only [csv.Error], from reading the input,
    or [ValueError], after the input was read. *)
Theorem process_cashflow_file_exceptions (now : datetime) (content : string) (e : file_exn) :
  process_cashflow_file now content = Raises e ->
  (e = CsvError /\ csv_reader content = Raises CsvError) \/
  (e = Builtin ValueError /\ exists rows, csv_reader content = Returns rows).
Proof.
  unfold process_cashflow_file. unfold csv_reader.
  destruct (read_records parse_reset (readlines (chars content))) as [rows|x] eqn:R;
    cbn [obind].
  - intros H. right. split; [|eauto].
    destruct (process_cashflow rows) as [res|y] eqn:P; cbn [lift obind] in H.
    + destruct (output_csv now res) as [t|z] eqn:O; cbn [lift obind] in H; [discriminate|].
      injection H as <-. f_equal. unfold output_csv in O. rewrite writerows_cells in O.
      destruct (cells_of (written_rows now res)) eqn:C; [discriminate|].
      cbn [rbind] in O. injection O as <-. eapply cells_of_exn; eassumption.
    + injection H as <-. f_equal.
      eapply process_cashflow_exn; eassumption.
  - intros [= <-]. left. apply read_records_exn in R. subst x. auto.
Qed.

Lemma process_cashflow_file_exceptions_witness :
  (CsvError = CsvError /\
   csv_reader (string_of_list_ascii (chars "a" ++ CR :: chars "b")) = Raises CsvError) \/
  (CsvError = Builtin ValueError /\
   exists rows, csv_reader (string_of_list_ascii (chars "a" ++ CR :: chars "b")) = Returns rows).
Proof.
  apply (process_cashflow_file_exceptions (mk_datetime 2025 1 15 10 30 0)
           (string_of_list_ascii (chars "a" ++ CR :: chars "b")) CsvError).
  vm_compute. reflexivity.
Defined.

(** ** Quotes that are never closed, bare carriage returns *)

Lemma read_unclosed (body : list ascii) :
  Forall (fun c => ascii_eqb c DQUOTE = false) body ->
  forall mid fs acc,
    Z.of_nat (length acc) + Z.of_nat (length body) <= field_limit ->
    read_chars mid {| rd_state := IN_QUOTED_FIELD; rd_fields := fs; rd_field := acc |} body
    = Returns [fs ++ [string_of_list_ascii (rev acc ++ body)]].
Proof.
  induction 1 as [|c body Hc _ IH]; intros mid fs acc Hlen.
  - rewrite app_nil_r. destruct mid; cbn; rewrite orb_true_r; reflexivity.
  - cbn [read_chars]. unfold parse_process_char at 1. cbn [rd_state].
    rewrite Hc, parse_add_char_ok by (cbn in *; lia). cbn [obind rd_state rd_fields rd_field].
    assert (E : rev acc ++ c :: body = rev (c :: acc) ++ body)
      by (cbn [rev]; rewrite <- app_assoc; reflexivity).
    rewrite E. destruct (ascii_eqb c LF).
    + unfold end_of_line. cbn [parse_process_char rd_state obind in_start_record].
      apply IH. cbn in *; lia.
    + apply IH. cbn in *; lia.
Qed.

(** X25: an opening quote at the start of a record that is never closed
    makes one field of the whole rest of the text. *)
Theorem unclosed_quote_swallows_the_rest (cells : list (list (list ascii)))
    (eol body : list ascii) :
  Forall (Forall within_limit) cells -> line_end eol ->
  Forall (fun c => ascii_eqb c DQUOTE = false) body -> within_limit body ->
  csv_reader (string_of_list_ascii (chars (csv_text eol cells) ++ DQUOTE :: body))
  = Returns (map (map string_of_list_ascii) cells ++ [[string_of_list_ascii body]]).
Proof.
  intros Hl He Hb Hlim. rewrite csv_reader_chars. unfold csv_text, chars.
  rewrite !list_ascii_of_string_of_list_ascii.
  induction Hl as [|fs rows Hfs _ IH].
  - cbn [map concat app]. rewrite read_open_quote by (split; [left; reflexivity|reflexivity]).
    rewrite read_unclosed by (try exact Hb; unfold within_limit in Hlim; cbn; lia).
    reflexivity.
  - cbn [map concat]. rewrite <- !app_assoc. rewrite read_record by assumption.
    rewrite IH. reflexivity.
Qed.

Lemma unclosed_quote_swallows_the_rest_witness :
  csv_reader (string_of_list_ascii
                (chars (csv_text [LF] [[chars "E1"; chars "Alice"]])
                 ++ DQUOTE :: chars "E2,Bob" ++ LF :: chars "E3,Carol"))
  = Returns (map (map string_of_list_ascii) [[chars "E1"; chars "Alice"]]
             ++ [[string_of_list_ascii (chars "E2,Bob" ++ LF :: chars "E3,Carol")]]).
Proof.
  apply (unclosed_quote_swallows_the_rest [[chars "E1"; chars "Alice"]] [LF]
           (chars "E2,Bob" ++ LF :: chars "E3,Carol")).
  - repeat constructor; unfold within_limit; vm_compute; discriminate.
  - left. reflexivity.
  - repeat constructor.
  - unfold within_limit. vm_compute. discriminate.
Defined.

Lemma obind_raises {A B : Type} (r : outcome A) (f : A -> outcome B) (e : file_exn) :
  (forall a, r = Returns a -> f a = Raises e) -> (forall x, r = Raises x -> x = e) ->
  obind r f = Raises e.
Proof.
  intros Hf He. destruct r as [a|x]; cbn.
  - apply Hf. reflexivity.
  - f_equal. apply He. reflexivity.
Qed.

Lemma bare_cr_raises (c : ascii) (rest : list ascii) (r : reader) :
  not_quoted r -> is_newline c = false ->
  forall mid, read_chars mid r (CR :: c :: rest) = Raises CsvError.
Proof.
  intros Hr Hc mid. cbn [read_chars].
  assert (E : exists fs f, parse_process_char r (Some CR)
                           = Returns {| rd_state := EAT_CRNL; rd_fields := fs; rd_field := f |}).
  { destruct r as [st fs f]. unfold not_quoted in Hr. cbn in Hr.
    destruct Hr as [-> |[-> | ->]]; eexists; eexists; reflexivity. }
  destruct E as (fs & f & ->). cbn [obind].
  change (ascii_eqb CR LF) with false. cbv iota. cbn [read_chars].
  unfold parse_process_char. cbn [rd_state]. rewrite Hc. reflexivity.
Qed.

Lemma unquoted_step (r : reader) (x : ascii) :
  not_quoted r -> ascii_eqb x DQUOTE = false -> ascii_eqb x CR = false ->
  Z.of_nat (length (rd_field r)) < field_limit ->
  exists r',
    parse_process_char r (Some x) = Returns r' /\
    (length (rd_field r') <= S (length (rd_field r)))%nat /\
    if ascii_eqb x LF then rd_state r' = EAT_CRNL else not_quoted r'.
Proof.
  intros Hr Hq Hcr Hlen. destruct r as [st fs f]. unfold not_quoted in *.
  cbn [rd_state rd_field] in *.
  unfold parse_process_char, start_field, is_newline. cbn [rd_state set_state].
  rewrite Hcr, Hq, orb_false_r.
  destruct Hr as [-> |[-> | ->]]; destruct (ascii_eqb x LF) eqn:Elf; cbn [rd_state];
    try (destruct (ascii_eqb x COMMA));
    unfold set_state, parse_save_field; cbn [rd_state rd_fields rd_field];
    rewrite ?parse_add_char_ok by (cbn [rd_field]; lia);
    cbn [obind]; eexists; (split; [reflexivity|]);
    cbn [rd_state rd_field length]; (split; [lia|]); auto.
Qed.

Lemma read_before_bare_cr (a : list ascii) :
  unquoted_lf_text a ->
  forall c rest mid r,
    not_quoted r -> is_newline c = false ->
    Z.of_nat (length (rd_field r)) + Z.of_nat (length a) < field_limit ->
    read_chars mid r (a ++ CR :: c :: rest) = Raises CsvError.
Proof.
  induction 1 as [|x a [Hq Hcr] _ IH]; intros c rest mid r Hr Hc Hlen.
  - apply bare_cr_raises; assumption.
  - cbn [app read_chars]. cbn [length] in Hlen.
    destruct (unquoted_step r x Hr Hq Hcr) as (r' & -> & Hl' & Hs); [lia|].
    cbn [obind]. destruct (ascii_eqb x LF).
    + unfold end_of_line. unfold parse_process_char. rewrite Hs. cbn [obind].
      unfold set_state, in_start_record. cbn [rd_state].
      rewrite IH; [reflexivity|left; reflexivity|exact Hc|cbn; lia].
    + apply IH; [exact Hs|exact Hc|lia].
Qed.

(** X26: outside quotes, a carriage return followed by a character that is
    neither a carriage return nor a line feed makes the reader raise
    [csv.Error]. *)
Theorem bare_carriage_return_raises (a rest : list ascii) (c : ascii) :
  unquoted_lf_text a -> is_newline c = false ->
  Z.of_nat (length a) < field_limit ->
  csv_reader (string_of_list_ascii (a ++ CR :: c :: rest)) = Raises CsvError.
Proof.
  intros Ha Hc Hlen. rewrite csv_reader_chars. unfold chars.
  rewrite list_ascii_of_string_of_list_ascii.
  apply read_before_bare_cr; [exact Ha|left; reflexivity|exact Hc|cbn; lia].
Qed.

Lemma bare_carriage_return_raises_witness :
  csv_reader (string_of_list_ascii (chars "a,b" ++ CR :: "c"%char :: chars ",d"))
  = Raises CsvError.
Proof.
  apply (bare_carriage_return_raises (chars "a,b") (chars ",d") "c"%char).
  - repeat (constructor; [split; reflexivity|]). constructor.
  - reflexivity.
  - vm_compute. reflexivity.
Defined.

(** ** Examples of the text layer *)

(** The scenario as a file: the whole text of the output. *)
Example scenario_file :
  process_cashflow_file (mk_datetime 2025 1 15 10 30 0) (csv_text [LF] scenario_cells)
  = Returns
      (string_of_list_ascii
         (concat (map (fun line => chars line ++ [CR; LF])
            [ "Cashflow Calculation Results";
              "Generated,2025-01-15 10:30:00";
              "";
              "Assumptions";
              "valuation_date,2024-12-31";
              "discount_rate,0.0545";
              "salary_increase_rate,0.05";
              "retirement_age,60";
              "";
              "Calculation Results";
              "emp_id,emp_name,age,future_salary,survival_prob,death_prob,expected_death_outflow";
              "E1,Alice,55,52500.0,0.989714,0.010286,534.460406";
              "E1,Alice,56,55125.0,0.989714,0.010286,561.183426";
              "E1,Alice,57,57881.25,0.989714,0.010286,589.242597";
              "E1,Alice,58,60775.31,0.989714,0.010286,618.704727";
              "E1,Alice,59,63814.08,0.989714,0.010286,649.639964" ])),
       1%nat, 5%nat).
Proof. vm_compute. reflexivity. Qed.

(** What the reader makes of quotes, line ends and blank lines. *)
Example csv_reader_examples :
  csv_reader (string_of_list_ascii (chars "a,b" ++ [LF] ++ [LF] ++ chars "c"))
    = Returns [["a"; "b"]; []; ["c"]] /\
  csv_reader (string_of_list_ascii (chars "a," ++ [CR; LF])) = Returns [["a"; ""]] /\
  csv_reader (string_of_list_ascii
                (DQUOTE :: chars "50,000" ++ [DQUOTE] ++ chars ",x" ++ [LF]))
    = Returns [["50,000"; "x"]] /\
  csv_reader (string_of_list_ascii (chars "E1,Alice,1970-01-01,2000-01-01,50,000"))
    = Returns [["E1"; "Alice"; "1970-01-01"; "2000-01-01"; "50"; "000"]] /\
  csv_reader "" = Returns [].
Proof. vm_compute. repeat split. Qed.

(** The text of some floats and integers. *)
Example repr_examples :
  repr_float (F64.of_decimal false 545 (-4)) = chars "0.0545" /\
  repr_float (F64.of_decimal false 52500 0) = chars "52500.0" /\
  repr_float (F64.of_decimal false 1 16) = chars "1e+16" /\
  repr_float (F64.of_decimal false 1 (-5)) = chars "1e-05" /\
  repr_float (F64.of_decimal true 1234 (-7)) = chars "-0.0001234" /\
  repr_float (F64.of_decimal false 1 23) = chars "1e+23" /\
  repr_float (F64.of_decimal false 5 (-324)) = chars "5e-324" /\
  repr_float (S754_infinity false) = chars "inf" /\
  str_of_Z (-60) = Ok (chars "-60") /\
  str_of_Z (10 ^ 4300) = Raise ValueError.
Proof. vm_compute. repeat split. Qed.
